(** * openclaw-porter: manifest validation, workspace scanning, secret
    scanning and import, embedded from the TypeScript sources.

    A string is a sequence of UTF-16 code units, as in JavaScript; the
    model has the code units below 256 (the characters U+0000 to U+00FF),
    one Rocq character each, and on these the character-level functions
    below are those of JavaScript: lengths and slices count code units,
    [toLowerCase] maps the capitals of ASCII and of Latin-1, [\s] holds
    the no-break space.  The file system is a tree of nodes under resolved
    paths, together with the working directory; the Node.js collaborators
    that the sources call but do not define (the RegExp compiler for
    dynamically built patterns, [glob], [tar], [js-yaml], the process
    environment) are the fields of a [Platform] record. *)

From Stdlib Require Import String Ascii NArith Lia.
From stdpp Require Import gmap strings list.

Local Open Scope string_scope.
Local Open Scope list_scope.

(** ** JavaScript string primitives *)

Module Js.

(** [s.startsWith(p)] *)
Definition startsWith (s p : string) : bool := String.prefix p s.

(** [s.includes(sub)] *)
Fixpoint includes (s sub : string) : bool :=
  String.prefix sub s ||
  match s with
  | EmptyString => false
  | String _ s' => includes s' sub
  end.

(** [s.endsWith(suf)] *)
Definition endsWith (s suf : string) : bool :=
  let n := String.length s in
  let m := String.length suf in
  (m <=? n)%nat && String.eqb (String.substring (n - m) m s) suf.

(** [s.slice(0, n)] for a non-negative [n] *)
Definition slice0 (n : nat) (s : string) : string := String.substring 0 n s.

(** [s.slice(0, -1)] *)
Definition dropLast (s : string) : string :=
  String.substring 0 (String.length s - 1) s.

(** [s.slice(n)] for a non-negative [n] *)
Fixpoint sliceFrom (n : nat) (s : string) : string :=
  match n, s with
  | O, _ => s
  | S n', String _ s' => sliceFrom n' s'
  | S _, EmptyString => EmptyString
  end.

(** Truthiness of an optional string: [undefined] and [''] are falsy. *)
Definition truthy (o : option string) : bool :=
  match o with
  | Some (String _ _) => true
  | _ => false
  end.

(** [o || d] on strings. *)
Definition orElse (o : option string) (d : string) : string :=
  match o with
  | Some (String c s) => String c s
  | _ => d
  end.

(** [s.split(sep)] for a one-character separator. *)
Fixpoint split_on (sep : ascii) (s : string) : list string :=
  match s with
  | EmptyString => [EmptyString]
  | String c s' =>
      if Ascii.eqb c sep then EmptyString :: split_on sep s'
      else match split_on sep s' with
           | hd :: tl => String c hd :: tl
           | [] => [String c EmptyString]
           end
  end.

(** [parts.join(sep)] *)
Fixpoint join_with (sep : string) (parts : list string) : string :=
  match parts with
  | [] => EmptyString
  | [p] => p
  | p :: ps => p ++ sep ++ join_with sep ps
  end.

Definition in_range (lo hi c : ascii) : bool :=
  (N_of_ascii lo <=? N_of_ascii c)%N && (N_of_ascii c <=? N_of_ascii hi)%N.

Definition is_lower (c : ascii) : bool := in_range "a" "z" c.
Definition is_upper (c : ascii) : bool := in_range "A" "Z" c.
Definition is_digit (c : ascii) : bool := in_range "0" "9" c.

(** The capitals of Latin-1: U+00C0 to U+00DE without the multiplication
    sign U+00D7. *)
Definition is_upper_latin1 (c : ascii) : bool :=
  in_range "192" "222" c && negb (Ascii.eqb c "215").

(** [c.toLowerCase()] for a code unit below 256: the capitals of ASCII and
    of Latin-1 have their small letter 32 places further on, and every
    other code unit is its own lower case. *)
Definition lower (c : ascii) : ascii :=
  if is_upper c || is_upper_latin1 c then ascii_of_N (N_of_ascii c + 32) else c.

(** [s.toLowerCase()] *)
Fixpoint toLowerCase (s : string) : string :=
  match s with
  | EmptyString => EmptyString
  | String c s' => String (lower c) (toLowerCase s')
  end.

(** The number of bytes of [s] in UTF-8: one for a code unit below 128,
    two for the others below 256. *)
Fixpoint utf8_length (s : string) : N :=
  match s with
  | EmptyString => 0%N
  | String c s' =>
      ((if (N_of_ascii c <? 128)%N then 1 else 2) + utf8_length s')%N
  end.

(** [s.replace(/C/g, r)] for a one-character class [C]: every character of
    the class is replaced on its own. *)
Fixpoint replace_class (cls : ascii -> bool) (r : string) (s : string) : string :=
  match s with
  | EmptyString => EmptyString
  | String c s' =>
      (if cls c then r else String c EmptyString) ++ replace_class cls r s'
  end.

(** [s.replace(pat, r)] for a string [pat]: the first occurrence only. *)
Fixpoint replace_first (pat r : string) (s : string) : string :=
  if String.prefix pat s then r ++ sliceFrom (String.length pat) s
  else match s with
       | EmptyString => EmptyString
       | String c s' => String c (replace_first pat r s')
       end.

End Js.

(** ** Regular expressions

    The regular-expression literals of the sources are embedded as syntax
    trees and run by a backtracking matcher with the ECMAScript priorities:
    alternatives are tried left to right, quantifiers are greedy and give
    characters back one at a time. *)

Module Re.

Inductive regex : Type :=
| Eps
| Chars (p : ascii -> bool)
| Rep (p : ascii -> bool) (lo : nat) (hi : option nat)
| Cat (r1 r2 : regex)
| Alt (r1 r2 : regex).

(** Greedy [p{lo,hi}] followed by the continuation [k]. *)
Fixpoint rep_k (p : ascii -> bool) (lo : nat) (hi : option nat)
    (s : string) (k : string -> option string) : option string :=
  let stop := match lo with O => k s | S _ => None end in
  match hi with
  | Some O => stop
  | _ =>
      match s with
      | EmptyString => stop
      | String c s' =>
          if p c then
            match rep_k p (Nat.pred lo) (Nat.pred <$> hi) s' k with
            | Some r => Some r
            | None => stop
            end
          else stop
      end
  end.

(** [run r s k]: match [r] at the start of [s] and hand what is left to
    [k]; the answer is the rest of the input after the whole match. *)
Fixpoint run (r : regex) (s : string) (k : string -> option string)
    : option string :=
  match r with
  | Eps => k s
  | Chars p =>
      match s with
      | String c s' => if p c then k s' else None
      | EmptyString => None
      end
  | Rep p lo hi => rep_k p lo hi s k
  | Cat r1 r2 => run r1 s (fun s1 => run r2 s1 k)
  | Alt r1 r2 =>
      match run r1 s k with
      | Some x => Some x
      | None => run r2 s k
      end
  end.

Definition at_end (s : string) : option string :=
  match s with
  | EmptyString => Some EmptyString
  | String _ _ => None
  end.

(** [/^r$/.test(s)] *)
Definition test_full (r : regex) (s : string) : bool :=
  match run r s at_end with Some _ => true | None => false end.

(** [/^r/.test(s)] *)
Definition test_prefix (r : regex) (s : string) : bool :=
  match run r s Some with Some _ => true | None => false end.

(** [/r$/.test(s)]: the leftmost start from which [r] reaches the end. *)
Fixpoint test_suffix (r : regex) (s : string) : bool :=
  match run r s at_end with
  | Some _ => true
  | None =>
      match s with
      | EmptyString => false
      | String _ s' => test_suffix r s'
      end
  end.

(** The text matched when [run] leaves [rest] of [s]. *)
Definition consumed (s rest : string) : string :=
  String.substring 0 (String.length s - String.length rest) s.

(** [s.match(/r/g)[0]]: the leftmost match, [None] for a [null] result. *)
Fixpoint first_match (r : regex) (s : string) : option string :=
  match run r s Some with
  | Some rest => Some (consumed s rest)
  | None =>
      match s with
      | EmptyString => None
      | String _ s' => first_match r s'
      end
  end.

(** A literal, and a literal under the [i] flag.  The patterns of the
    sources are ASCII, and without the [u] flag no code unit from 128 on is
    folded onto an ASCII one: a letter of the pattern matches itself in
    either case and nothing else. *)
Fixpoint lit (s : string) : regex :=
  match s with
  | EmptyString => Eps
  | String c s' => Cat (Chars (Ascii.eqb c)) (lit s')
  end.

Fixpoint lit_i (s : string) : regex :=
  match s with
  | EmptyString => Eps
  | String c s' =>
      Cat (Chars (fun x => Ascii.eqb (Js.lower x) (Js.lower c))) (lit_i s')
  end.

(** Character classes. *)
Definition digit : ascii -> bool := Js.is_digit.

(** [[a-z0-9-]] *)
Definition slug_char (c : ascii) : bool :=
  Js.is_lower c || Js.is_digit c || Ascii.eqb c "-".

(** [[a-zA-Z0-9]] *)
Definition alnum (c : ascii) : bool :=
  Js.is_lower c || Js.is_upper c || Js.is_digit c.

(** [[a-zA-Z0-9_-]] *)
Definition token_char (c : ascii) : bool :=
  alnum c || Ascii.eqb c "_" || Ascii.eqb c "-".

(** [\s] below 256: tab, line feed, vertical tab, form feed, carriage
    return, space, and the no-break space U+00A0. *)
Definition space (c : ascii) : bool :=
  Js.in_range "009" "013" c || Ascii.eqb c " " || Ascii.eqb c "160".

(** [.]: anything but a line terminator (below 256: line feed and
    carriage return). *)
Definition dot (c : ascii) : bool :=
  negb (Ascii.eqb c "010" || Ascii.eqb c "013").

(** The least number of characters a match of [r] consumes. *)
Fixpoint min_len (r : regex) : nat :=
  match r with
  | Eps => 0
  | Chars _ => 1
  | Rep _ lo _ => lo
  | Cat r1 r2 => min_len r1 + min_len r2
  | Alt r1 r2 => Nat.min (min_len r1) (min_len r2)
  end.

End Re.

(** ** The manifest (types.ts)

    Optional members are [option]s.  The members that the interface
    declares as required are [option]s too: a manifest read from YAML
    or built by a cast can lack them, and the validator tests for that. *)

Record Engine := mkEngine {
  clawdbot : option string;
  node : option string
}.

(** [context]: the role -> file object, in property order. *)
Definition Context := list (string * string).

Fixpoint ctx_get (c : Context) (key : string) : option string :=
  match c with
  | [] => None
  | (k, v) :: rest => if String.eqb k key then Some v else ctx_get rest key
  end.

(** [c[key] = v] *)
Fixpoint ctx_set (c : Context) (key v : string) : Context :=
  match c with
  | [] => [(key, v)]
  | (k, w) :: rest =>
      if String.eqb k key then (k, v) :: rest else (k, w) :: ctx_set rest key v
  end.

Record BundledSkill := mkBundled { path : string }.
Record ExternalSkill := mkExternal {
  skill_name : string;
  skill_version : option string
}.
Record Skills := mkSkills {
  bundled : option (list BundledSkill);
  external : option (list ExternalSkill)
}.
Record McpServer := mkMcp {
  mcp_name : string;
  config : option string;
  mcp_required : option bool
}.
Record EnvDecl := mkEnv {
  required : option (list string);
  optional : option (list string)
}.
Record Seeds := mkSeeds {
  memory : option (list string);
  projects : option (list string)
}.
Record Hooks := mkHooks {
  pre_export : option string;
  post_install : option string;
  validate : option string
}.

Record PorterManifest := mkManifest {
  name : option string;
  version : option string;
  description : option string;
  author : option string;
  repository : option string;
  license : option string;
  engine : option Engine;
  context : option Context;
  skills : option Skills;
  mcp : option (list McpServer);
  env : option EnvDecl;
  assets : option (list string);
  exclude : option (list string);
  seeds : option Seeds;
  hooks : option Hooks;
  tags : option (list string)
}.

Module Validation.
Record ValidationResult := mkValidation {
  valid : bool;
  errors : list string;
  warnings : list string
}.
End Validation.
Export Validation.

(** Default patterns to always exclude. *)
Definition DEFAULT_EXCLUDES : list string :=
  [ ".env"; ".env.*"; "*.secret"; "memory/"; "*.log"; ".git/";
    "node_modules/"; ".DS_Store"; "USER.md" ].

Definition MANIFEST_FILENAME : string := "porter.yaml".

(** ** manifest.ts: validateManifest *)

(** [/^[a-z0-9-]+$/] *)
Definition name_re : Re.regex := Re.Rep Re.slug_char 1 None.

(** [/^\d+\.\d+\.\d+/] *)
Definition semver_re : Re.regex :=
  Re.Cat (Re.Rep Re.digit 1 None)
    (Re.Cat (Re.lit ".")
       (Re.Cat (Re.Rep Re.digit 1 None)
          (Re.Cat (Re.lit ".") (Re.Rep Re.digit 1 None)))).

(** [manifest.context?.key] *)
Definition context_field (m : PorterManifest) (key : string) : option string :=
  c ← context m; ctx_get c key.

(** [manifest.engine?.clawdbot] *)
Definition engine_clawdbot (m : PorterManifest) : option string :=
  e ← engine m; clawdbot e.

(** [xs || []] *)
Definition or_nil {A} (o : option (list A)) : list A := default [] o.

(** [manifest.skills?.bundled?.map((s) => s.path) || []] *)
Definition bundled_paths (m : PorterManifest) : list string :=
  or_nil ((fun l => map path l) <$> (s ← skills m; bundled s)).

(** [[...].filter(Boolean)]: the five context roles, then the assets, then
    the bundled-skill paths, without the undefined and the empty ones. *)
Definition allPaths (m : PorterManifest) : list string :=
  omap (fun o => if Js.truthy o then o else None)
    ([ context_field m "soul"; context_field m "identity";
       context_field m "tools"; context_field m "agents";
       context_field m "heartbeat" ]
     ++ map Some (or_nil (assets m))
     ++ map Some (bundled_paths m)).

(** [p.startsWith('/') || p.includes('..')] *)
Definition unsafe_path (p : string) : bool :=
  Js.startsWith p "/" || Js.includes p "..".

Definition invalid_path_error (p : string) : string :=
  "Invalid path (must be relative, no ..): " +:+ p.

(** [!xs?.length] *)
Definition no_length (o : option (list string)) : bool :=
  match o with
  | Some (_ :: _) => false
  | _ => true
  end.

Definition name_errors (m : PorterManifest) : list string :=
  if negb (Js.truthy (name m)) then ["Missing required field: name"]
  else if negb (Re.test_full name_re (Js.orElse (name m) ""))
       then ["Name must be lowercase alphanumeric with hyphens only"]
       else [].

Definition version_errors (m : PorterManifest) : list string :=
  if negb (Js.truthy (version m)) then ["Missing required field: version"]
  else [].

Definition version_warnings (m : PorterManifest) : list string :=
  if negb (Js.truthy (version m)) then []
  else if negb (Re.test_prefix semver_re (Js.orElse (version m) ""))
       then ["Version should follow semver (e.g., 1.0.0)"]
       else [].

Definition description_errors (m : PorterManifest) : list string :=
  if negb (Js.truthy (description m))
  then ["Missing required field: description"] else [].

Definition engine_errors (m : PorterManifest) : list string :=
  if negb (Js.truthy (engine_clawdbot m))
  then ["Missing required field: engine.clawdbot"] else [].

Definition soul_errors (m : PorterManifest) : list string :=
  if negb (Js.truthy (context_field m "soul"))
  then ["Missing required field: context.soul (SOUL.md is required)"] else [].

Definition path_errors (m : PorterManifest) : list string :=
  map invalid_path_error (filter (fun p => unsafe_path p = true) (allPaths m)).

Definition env_warnings (m : PorterManifest) : list string :=
  if no_length (e ← env m; required e) && no_length (e ← env m; optional e)
  then ["No environment variables declared - agent may not work without API keys"]
  else [].

(** The pushes onto [errors] and [warnings], in program order. *)
Definition validateManifest (m : PorterManifest) : ValidationResult :=
  let errors :=
    name_errors m ++ version_errors m ++ description_errors m
    ++ engine_errors m ++ soul_errors m ++ path_errors m in
  let warnings := version_warnings m ++ env_warnings m in
  {| valid := (length errors =? 0)%nat;
     errors := errors;
     warnings := warnings |}.

(** ** Results of calls that can throw *)

Inductive outcome (A : Type) : Type :=
| Returns (a : A)
| Throws (err : string).
Arguments Returns {A} a.
Arguments Throws {A} err.

Definition obind {A B} (x : outcome A) (f : A -> outcome B) : outcome B :=
  match x with
  | Returns a => f a
  | Throws e => Throws e
  end.

(** ** Node's [path] module (POSIX flavour) *)

Module Path.

Definition segments (p : string) : list string := Js.split_on "/" p.

(** [normalizeString]: drop empty and [.] segments, resolve [..]. *)
Fixpoint normalize_segments (allowAboveRoot : bool) (acc : list string)
    (segs : list string) : list string :=
  match segs with
  | [] => rev acc
  | seg :: rest =>
      if String.eqb seg "" || String.eqb seg "." then
        normalize_segments allowAboveRoot acc rest
      else if String.eqb seg ".." then
        match acc with
        | last :: acc' =>
            if String.eqb last ".." then
              normalize_segments allowAboveRoot
                (if allowAboveRoot then ".." :: acc else acc) rest
            else normalize_segments allowAboveRoot acc' rest
        | [] =>
            normalize_segments allowAboveRoot
              (if allowAboveRoot then [".."] else []) rest
        end
      else normalize_segments allowAboveRoot (seg :: acc) rest
  end.

(** [path.normalize(p)] *)
Definition normalize (p : string) : string :=
  if String.eqb p "" then "."
  else
    let isAbsolute := Js.startsWith p "/" in
    let trailingSep := Js.endsWith p "/" in
    let body :=
      Js.join_with "/" (normalize_segments (negb isAbsolute) [] (segments p)) in
    if String.eqb body "" then
      if isAbsolute then "/" else if trailingSep then "./" else "."
    else
      let body := if trailingSep then body +:+ "/" else body in
      if isAbsolute then "/" +:+ body else body.

(** [path.join(...parts)] *)
Definition join (parts : list string) : string :=
  match filter (fun s => s <> "") parts with
  | [] => "."
  | ps => normalize (Js.join_with "/" ps)
  end.

(** [path.basename(p)]: the last segment, trailing separators ignored. *)
Definition basename (p : string) : string :=
  match filter (fun s => s <> "") (rev (segments p)) with
  | [] => ""
  | b :: _ => b
  end.

Fixpoint drop_while {A} (f : A -> bool) (l : list A) : list A :=
  match l with
  | [] => []
  | x :: l' => if f x then drop_while f l' else l
  end.

(** [path.dirname(p)]: scanning from the end and never looking at the
    first character, skip the trailing separators, then the last segment;
    what is left of the separator found is the answer. *)
Definition dirname (p : string) : string :=
  match p with
  | EmptyString => "."
  | String c0 rest =>
      let hasRoot := Ascii.eqb c0 "/" in
      let is_sep := fun c => Ascii.eqb c "/" in
      let back := rev (list_ascii_of_string rest) in
      let after_name :=
        drop_while (fun c => negb (is_sep c)) (drop_while is_sep back) in
      match after_name with
      | [] => if hasRoot then "/" else "."
      | _ :: before =>
          let e := S (List.length before) in
          if hasRoot && (e =? 1)%nat then "//" else Js.slice0 e p
      end
  end.

Fixpoint strip_common (a b : list string) : list string * list string :=
  match a, b with
  | x :: a', y :: b' => if String.eqb x y then strip_common a' b' else (a, b)
  | _, _ => (a, b)
  end.

(** A name: not empty, not [.], not [..], and without a separator. *)
Definition plain (s : string) : bool :=
  negb (String.eqb s "" || String.eqb s "." || String.eqb s "..")
  && negb (Js.includes s "/").

(** [path.resolve(p)] in a process whose working directory is [cwd], as
    the list of the segments of the absolute path it returns. *)
Definition resolve_segments (cwd p : string) : list string :=
  normalize_segments false []
    (segments (if Js.startsWith p "/" then p else cwd +:+ "/" +:+ p)).

(** [path.resolve(p)] *)
Definition resolve (cwd p : string) : string :=
  "/" +:+ Js.join_with "/" (resolve_segments cwd p).

(** [path.relative(from, to)]: both are resolved, then climb out of what
    is left of [from] and go down what is left of [to]. *)
Definition relative (cwd from to : string) : string :=
  let '(f', t') :=
    strip_common (resolve_segments cwd from) (resolve_segments cwd to) in
  Js.join_with "/" (map (fun _ => "..") f' ++ t').

End Path.

(** ** The file system

    A tree without symbolic links.  A node is kept under the segments of
    its resolved path; the root directory is always there.  A call that
    looks a path up walks it as the operating system does, segment by
    segment from the root or from the working directory, and every step,
    also one that stays or goes up, is taken in a directory: a path
    through a name that is missing or is a file finds nothing, and so does
    the empty path.  The calls that write are given paths that [path.join]
    and [path.dirname] have made; for these the node is the one under the
    path as [path.resolve] resolves it. *)

Inductive Node : Type :=
| Dir
| File (content : string).

Module Fs.

Definition Key : Type := list string.

Record State := mkState {
  (** [process.cwd()] *)
  cwd : string;
  nodes : gmap Key Node;
  (** the size [fs.stat] reports for a directory *)
  dir_size : Key -> N
}.

Definition with_nodes (fs : State) (n : gmap Key Node) : State :=
  {| cwd := cwd fs; nodes := n; dir_size := dir_size fs |}.

Definition key (fs : State) (p : string) : Key :=
  Path.resolve_segments (cwd fs) p.

Definition node_at (n : gmap Key Node) (k : Key) : option Node :=
  match k with
  | [] => Some Dir
  | _ => n !! k
  end.

(** The last segment of [p] is empty or [.]. *)
Definition wants_dir (p : string) : bool :=
  match last (Path.segments p) with
  | Some s => String.eqb s "" || String.eqb s "."
  | None => false
  end.

(** Where a path starts: at the root, or in the working directory. *)
Definition start (fs : State) (p : string) : Key :=
  if Js.startsWith p "/" then [] else key fs "".

(** The walk along the segments of a path from the directory [cur]: an
    empty segment and [.] stay, [..] goes up (the root is its own parent),
    a name goes down; where a step is to be taken there must be a
    directory. *)
Fixpoint walk (n : gmap Key Node) (cur : Key) (segs : list string) : option Key :=
  match segs with
  | [] => Some cur
  | s :: rest =>
      match node_at n cur with
      | Some Dir =>
          if String.eqb s "" || String.eqb s "." then walk n cur rest
          else if String.eqb s ".." then walk n (removelast cur) rest
          else walk n (cur ++ [s]) rest
      | _ => None
      end
  end.

(** What a system call finds at [p]; [None] stands for ENOENT and
    ENOTDIR. *)
Definition find (fs : State) (p : string) : option Node :=
  if String.eqb p "" then None
  else
    match walk (nodes fs) (start fs p) (Path.segments p) with
    | Some k => node_at (nodes fs) k
    | None => None
    end.

(** [fs.pathExists(p)] *)
Definition pathExists (fs : State) (p : string) : bool :=
  match find fs p with Some _ => true | None => false end.

(** [fs.readFile(p, 'utf-8')]; [None] when the read fails. *)
Definition readFile (fs : State) (p : string) : option string :=
  match find fs p with Some (File c) => Some c | _ => None end.

(** [fs.stat(p).size]; [None] when the call fails. *)
Definition stat_size (fs : State) (p : string) : option N :=
  match find fs p with
  | Some (File c) => Some (Js.utf8_length c)
  | Some Dir => Some (dir_size fs (key fs p))
  | None => None
  end.

(** [strip d k]: what is left of [k] below [d]. *)
Fixpoint strip (d k : Key) : option Key :=
  match d, k with
  | [], _ => Some k
  | x :: d', y :: k' => if String.eqb x y then strip d' k' else None
  | _ :: _, [] => None
  end.

(** [k] is [d] or lies below it. *)
Definition within (d k : Key) : bool :=
  match strip d k with Some _ => true | None => false end.

(** The nodes strictly below [d], each with its path from [d]. *)
Definition entries (fs : State) (d : Key) : list (Key * Node) :=
  omap (fun kv => match strip d kv.1 with
                  | Some (s :: rel) => Some (s :: rel, kv.2)
                  | _ => None
                  end) (map_to_list (nodes fs)).

(** The immediate children among them. *)
Definition children (fs : State) (d : Key) : list (string * Node) :=
  omap (fun e => match e.1 with
                 | [name] => Some (name, e.2)
                 | _ => None
                 end) (entries fs d).

(** A directory is read or the call throws. *)
Definition scandir {A} (fs : State) (d : string) (listing : Key -> list A)
    : outcome (list A) :=
  match find fs d with
  | Some Dir => Returns (listing (key fs d))
  | Some (File _) => Throws ("ENOTDIR: not a directory, scandir '" +:+ d +:+ "'")
  | None => Throws ("ENOENT: no such file or directory, scandir '" +:+ d +:+ "'")
  end.

(** [fs.readdir(d)]; the order of a listing is the file system's. *)
Definition readdir (fs : State) (d : string) : outcome (list string) :=
  scandir fs d (fun k => map fst (children fs k)).

Record Dirent := mkDirent {
  dirent_name : string;
  parentPath : string;
  isFile : bool;
  isDirectory : bool
}.

(** The entry of the node [rel] below the directory given as [d]: the
    parent of a nested entry is [path.join] of its parent's parent and its
    parent's name. *)
Definition dirent (d : string) (e : Key * Node) : Dirent :=
  {| dirent_name := default "" (last e.1);
     parentPath :=
       foldl (fun parent name => Path.join [parent; name]) d (removelast e.1);
     isFile := match e.2 with File _ => true | Dir => false end;
     isDirectory := match e.2 with Dir => true | File _ => false end |}.

(** [fs.readdir(d, { withFileTypes: true })] *)
Definition readdir_types (fs : State) (d : string) : outcome (list Dirent) :=
  scandir fs d (fun k => map (fun c => dirent d ([c.1], c.2)) (children fs k)).

(** [fs.readdir(d, { recursive: true, withFileTypes: true })] *)
Definition readdir_recursive (fs : State) (d : string) : outcome (list Dirent) :=
  scandir fs d (fun k => map (dirent d) (entries fs k)).

(** [mkdir -p]: from the root down, a directory that is there is passed,
    one that is missing is made, and a file in the way stops the call with
    what was made so far. *)
Fixpoint mkdirp (p : string) (n : gmap Key Node) (above : Key)
    (todo : list string) : gmap Key Node * outcome unit :=
  match todo with
  | [] => (n, Returns tt)
  | s :: todo' =>
      let k := above ++ [s] in
      match n !! k with
      | Some Dir => mkdirp p n k todo'
      | Some (File _) =>
          (n, Throws (match todo' with
                      | [] => "EEXIST: file already exists, mkdir '"
                      | _ => "ENOTDIR: not a directory, mkdir '"
                      end +:+ p +:+ "'"))
      | None => mkdirp p (<[k := Dir]> n) k todo'
      end
  end.

(** [fs.ensureDir(p)] *)
Definition ensureDir (fs : State) (p : string) : State * outcome unit :=
  if String.eqb p "" then
    (fs, Throws "ENOENT: no such file or directory, mkdir ''")
  else
    let '(n, o) := mkdirp p (nodes fs) [] (key fs p) in
    (with_nodes fs n, o).

(** [fs.remove(p)]: [p] and everything below it; nothing to do is no
    error. *)
Definition remove (fs : State) (p : string) : State :=
  if String.eqb p "" then fs
  else with_nodes fs (filter (fun kv => within (key fs p) kv.1 = false) (nodes fs)).

(** The node [n] of [src] put at [dest]; a directory takes what is below
    it along. *)
Definition graft (fs : State) (src dest : Key) (n : Node) : gmap Key Node :=
  match n with
  | File c => <[dest := File c]> (nodes fs)
  | Dir =>
      foldl (fun acc e => <[dest ++ e.1 := e.2]> acc)
        (<[dest := Dir]> (nodes fs)) (entries fs src)
  end.

(** The destination of a copy cannot be written: it is the empty path,
    or it names a directory (it ends in a separator or in [.]) where a
    file is to be or is. *)
Definition unwritable (fs : State) (dest : string) (n : Node) : bool :=
  String.eqb dest ""
  || wants_dir dest
     && match n, node_at (nodes fs) (key fs dest) with
        | File _, _ => true
        | Dir, Some (File _) => true
        | Dir, _ => false
        end.

(** [fs.copy(src, dest)], with the checks fs-extra makes before it writes:
    the source is there, source and destination differ, neither a file
    goes over a directory nor a directory over a file, and no directory
    into itself.  The directory of the destination is made when it is
    missing, and the write fails when a file is in its place.  (Copying a
    directory onto one that is there merges them; the sources copy a
    directory only to a path that does not exist.  The text of an error
    that comes from the operating system is kept in one form.) *)
Definition copy (fs : State) (src dest : string) : State * outcome unit :=
  match find fs src with
  | None =>
      (fs, Throws ("ENOENT: no such file or directory, lstat '" +:+ src +:+ "'"))
  | Some n =>
      let clash :=
        match find fs dest with
        | None => None
        | Some d =>
            if bool_decide (key fs src = key fs dest) then
              Some "Source and destination must not be the same."
            else
              match n, d with
              | Dir, File _ =>
                  Some ("Cannot overwrite non-directory '" +:+ dest
                        +:+ "' with directory '" +:+ src +:+ "'.")
              | File _, Dir =>
                  Some ("Cannot overwrite directory '" +:+ dest
                        +:+ "' with non-directory '" +:+ src +:+ "'.")
              | _, _ => None
              end
        end in
      match clash with
      | Some message => (fs, Throws message)
      | None =>
          if unwritable fs dest n then
            (fs, Throws ("ENOENT: no such file or directory, open '"
                         +:+ dest +:+ "'"))
          else if match n with
                  | Dir => within (key fs src) (key fs dest)
                  | File _ => false
                  end
          then (fs, Throws ("Cannot copy '" +:+ src
                            +:+ "' to a subdirectory of itself, '" +:+ dest +:+ "'."))
          else
            let '(fs1, made) :=
              if pathExists fs (Path.dirname dest) then (fs, Returns tt)
              else ensureDir fs (Path.dirname dest) in
            match made with
            | Throws e => (fs1, Throws e)
            | Returns _ =>
                match node_at (nodes fs1) (key fs (Path.dirname dest)) with
                | Some Dir =>
                    (with_nodes fs1 (graft fs1 (key fs src) (key fs dest) n),
                     Returns tt)
                | _ =>
                    (fs1, Throws ("ENOTDIR: not a directory, open '"
                                  +:+ dest +:+ "'"))
                end
            end
      end
  end.

(** The prefixes of a key, the key itself being the last. *)
Fixpoint prefixes (k : Key) : list Key :=
  match k with
  | [] => []
  | s :: k' => [s] :: map (cons s) (prefixes k')
  end.

(** A tree given by its paths, with directories of 4096 bytes; the working
    directory and the directories above each path are made with it. *)
Definition mount (cwd : string) (tree : list (string * Node)) : State :=
  let given := map (fun e => (Path.resolve_segments cwd e.1, e.2)) tree in
  let above :=
    flat_map (fun e => prefixes (removelast e.1)) given
    ++ prefixes (Path.resolve_segments cwd "") in
  {| cwd := cwd;
     nodes := list_to_map (given ++ map (fun k => (k, Dir)) above);
     dir_size := fun _ => 4096%N |}.

(** A node put at a path, whatever was there. *)
Definition put (fs : State) (p : string) (n : Node) : State :=
  with_nodes fs (<[key fs p := n]> (nodes fs)).

(** Every node is kept under names. *)
Definition tidy (fs : State) : bool :=
  forallb (fun kv => forallb Path.plain kv.1) (map_to_list (nodes fs)).

(** [p] is [d] or lies below it. *)
Definition inside (fs : State) (d p : string) : bool :=
  within (key fs d) (key fs p).

(** The working directory is there, and every node is kept under names
    and lies in a directory. *)
Definition sound (fs : State) : bool :=
  match node_at (nodes fs) (key fs "") with
  | Some Dir => true
  | _ => false
  end
  && forallb (fun kv =>
                forallb Path.plain kv.1
                && match node_at (nodes fs) (removelast kv.1) with
                   | Some Dir => true
                   | _ => false
                   end) (map_to_list (nodes fs)).

Definition same_kind (a b : Node) : bool :=
  match a, b with
  | Dir, Dir | File _, File _ => true
  | _, _ => false
  end.

(** What is below [a] does not stand in the way of what is below [d]:
    where both have a node under the same path, both are files or both are
    directories. *)
Definition fits (fs : State) (d a : string) : bool :=
  forallb (fun e =>
             match nodes fs !! (key fs a ++ e.1) with
             | Some v => same_kind e.2 v
             | None => true
             end) (entries fs (key fs d)).

End Fs.

Abbreviation FS := Fs.State.

(** ** The collaborators *)

Record Platform := mkPlatform {
  (** [new RegExp(src)]: [None] for a SyntaxError, else its [test]. *)
  RegExp : string -> option (string -> bool);
  (** [glob(pattern, { cwd, nodir: true, dot: false })] *)
  glob : FS -> string -> string -> list string;
  (** The entries [tar.extract] finds in an archive file, as relative
      paths and nodes; [Throws] when the extraction fails. *)
  tar_entries : FS -> string -> outcome (list (string * Node));
  (** [yaml.load(text)]: [None] for a document that loads as [undefined]. *)
  yaml_load : string -> outcome (option PorterManifest);
  (** [process.env[name]] *)
  process_env : string -> option string
}.

(** ** manifest.ts: loadManifest, generateManifest *)

(** [loadManifest(workspacePath)]: [Returns None] is the [null] result. *)
Definition loadManifest (P : Platform) (fs : FS) (workspacePath : string)
    : outcome (option PorterManifest) :=
  let manifestPath := Path.join [workspacePath; MANIFEST_FILENAME] in
  if negb (Fs.pathExists fs manifestPath) then Returns None
  else
    match Fs.readFile fs manifestPath with
    | None => Throws "EISDIR: illegal operation on a directory, read"
    | Some content => yaml_load P content
    end.

Record GenerateOptions := mkGenerateOptions {
  opt_name : option string;
  opt_description : option string
}.

(** [/[^a-z0-9-]/] *)
Definition not_slug_char (c : ascii) : bool := negb (Re.slug_char c).

(** [dirName.toLowerCase().replace(/[^a-z0-9-]/g, '-')] *)
Definition default_name (dirName : string) : string :=
  Js.replace_class not_slug_char "-" (Js.toLowerCase dirName).

(** The loop over ['IDENTITY.md', 'TOOLS.md', 'AGENTS.md', 'HEARTBEAT.md']. *)
Fixpoint detect_context (fs : FS) (workspacePath : string)
    (contextFiles : list string) (ctx : Context) : Context :=
  match contextFiles with
  | [] => ctx
  | file :: rest =>
      let ctx' :=
        if Fs.pathExists fs (Path.join [workspacePath; file]) then
          ctx_set ctx (Js.toLowerCase (Js.replace_first ".md" "" file)) file
        else ctx in
      detect_context fs workspacePath rest ctx'
  end.

(** The skills block: it throws where [fs.readdir] does, when [skills]
    exists and is not a directory. *)
Definition detect_skills (fs : FS) (workspacePath : string)
    : outcome (option Skills) :=
  let skillsPath := Path.join [workspacePath; "skills"] in
  if Fs.pathExists fs skillsPath then
    obind (Fs.readdir_types fs skillsPath) (fun entries =>
      let skillDirs :=
        map Fs.dirent_name (filter (fun e => Fs.isDirectory e = true) entries) in
      match skillDirs with
      | [] => Returns None
      | _ =>
          Returns (Some {| bundled :=
                             Some (map (fun n => mkBundled ("skills/" +:+ n))
                                     skillDirs);
                           external := None |})
      end)
  else Returns None.

Definition generateManifest (fs : FS) (workspacePath : string)
    (options : GenerateOptions) : outcome PorterManifest :=
  let dirName := Path.basename workspacePath in
  let ctx :=
    detect_context fs workspacePath
      ["IDENTITY.md"; "TOOLS.md"; "AGENTS.md"; "HEARTBEAT.md"]
      [("soul", "SOUL.md")] in
  let assets :=
    if Fs.pathExists fs (Path.join [workspacePath; "avatars"])
    then Some ["avatars/"] else None in
  obind (detect_skills fs workspacePath) (fun skills =>
  Returns
    {| name := Some (Js.orElse (opt_name options) (default_name dirName));
       version := Some "1.0.0";
       description :=
         Some (Js.orElse (opt_description options) ("AI agent: " +:+ dirName));
       author := None; repository := None; license := None;
       engine := Some {| clawdbot := Some ">=1.0.0"; node := None |};
       context := Some ctx;
       skills := skills;
       mcp := None; env := None;
       assets := assets;
       exclude := None; seeds := None; hooks := None; tags := None |}).

(** ** scanner.ts *)

Module Scanner.

Record ScanResult := mkScan {
  files : list string;
  totalSize : N;
  warnings : list string
}.

(** One chunk of the scan: the paths pushed onto [files] and the messages
    pushed onto [warnings]. *)
Definition chunk : Type := list string * list string.

Definition chunk_app (a b : chunk) : chunk := (a.1 ++ b.1, a.2 ++ b.2).

Definition chunks (l : list chunk) : chunk := foldr chunk_app ([], []) l.

(** [Object.values(manifest.context).filter(Boolean)] *)
Definition contextFiles (ctx : Context) : list string :=
  filter (fun s => s <> "") (map snd ctx).

Definition scan_context (fs : FS) (workspacePath : string) (ctx : Context)
    : chunk :=
  chunks (map (fun file =>
    if Fs.pathExists fs (Path.join [workspacePath; file])
    then ([file], [])
    else ([], ["Context file not found: " +:+ file]))
    (contextFiles ctx)).

Definition scan_skills (P : Platform) (fs : FS) (workspacePath : string)
    (m : PorterManifest) : chunk :=
  match s ← skills m; bundled s with
  | None => ([], [])
  | Some bs =>
      chunks (map (fun skill =>
        let skillPath := path skill in
        let fullPath := Path.join [workspacePath; skillPath] in
        if Fs.pathExists fs fullPath then
          (map (fun f => Path.join [skillPath; f]) (glob P fs "**/*" fullPath),
           [])
        else ([], ["Bundled skill not found: " +:+ skillPath])) bs)
  end.

Definition scan_assets (P : Platform) (fs : FS) (workspacePath : string)
    (m : PorterManifest) : chunk :=
  match assets m with
  | None => ([], [])
  | Some ps =>
      chunks (map (fun pattern =>
        if Js.endsWith pattern "/" then
          let dirPath := Path.join [workspacePath; Js.dropLast pattern] in
          if Fs.pathExists fs dirPath then
            (map (fun f => Path.join [Js.dropLast pattern; f])
               (glob P fs "**/*" dirPath), [])
          else ([], [])
        else (glob P fs pattern workspacePath, [])) ps)
  end.

Definition scan_mcp (fs : FS) (workspacePath : string) (m : PorterManifest)
    : chunk :=
  match mcp m with
  | None => ([], [])
  | Some servers =>
      chunks (map (fun server =>
        if Js.truthy (config server) then
          let cfg := Js.orElse (config server) "" in
          if Fs.pathExists fs (Path.join [workspacePath; cfg])
          then ([cfg], [])
          else ([], ["MCP config template not found: " +:+ cfg])
        else ([], [])) servers)
  end.

Definition scan_seeds (m : PorterManifest) : chunk :=
  match s ← seeds m; memory s with
  | None => ([], [])
  | Some l => (l, [])
  end.

(** Everything pushed before the exclusion filter, the manifest first. *)
Definition candidates (P : Platform) (fs : FS) (workspacePath : string)
    (m : PorterManifest) (ctx : Context) : chunk :=
  chunks [ (["porter.yaml"], []);
           scan_context fs workspacePath ctx;
           scan_skills P fs workspacePath m;
           scan_assets P fs workspacePath m;
           scan_mcp fs workspacePath m;
           scan_seeds m ].

(** [pattern.replace(/\*/g, '.*')] *)
Definition star_to_regex (pattern : string) : string :=
  Js.replace_class (Ascii.eqb "*") ".*" pattern.

(** The callback of [excludePatterns.some]: one pattern against one file. *)
Definition pattern_excludes (P : Platform) (pattern file : string)
    : outcome bool :=
  if Js.includes pattern "*" then
    match RegExp P ("^" +:+ star_to_regex pattern +:+ "$") with
    | None => Throws "SyntaxError: Invalid regular expression"
    | Some test => Returns (test file || test (Path.basename file))
    end
  else Returns (Js.startsWith file pattern || String.eqb file pattern).

(** [excludePatterns.some(...)]: left to right, stopping at the first hit. *)
Fixpoint excluded (P : Platform) (patterns : list string) (file : string)
    : outcome bool :=
  match patterns with
  | [] => Returns false
  | pattern :: rest =>
      obind (pattern_excludes P pattern file) (fun hit =>
        if hit then Returns true else excluded P rest file)
  end.

(** [files.filter((file) => !excludePatterns.some(...))] *)
Fixpoint filter_excluded (P : Platform) (patterns : list string)
    (files : list string) : outcome (list string) :=
  match files with
  | [] => Returns []
  | file :: rest =>
      obind (excluded P patterns file) (fun hit =>
      obind (filter_excluded P patterns rest) (fun kept =>
        Returns (if hit then kept else file :: kept)))
  end.

Definition excludePatterns (m : PorterManifest) : list string :=
  DEFAULT_EXCLUDES ++ or_nil (exclude m).

(** The size loop: a file whose [stat] fails adds nothing. *)
Definition total_size (fs : FS) (workspacePath : string)
    (files : list string) : N :=
  foldl (fun acc file =>
           match Fs.stat_size fs (Path.join [workspacePath; file]) with
           | Some n => (acc + n)%N
           | None => acc
           end) 0%N files.

(** [[...new Set(files)]]: the first occurrence of each path, in order. *)
Fixpoint unique_from (seen : list string) (l : list string) : list string :=
  match l with
  | [] => []
  | x :: l' =>
      if bool_decide (x ∈ seen) then unique_from seen l'
      else x :: unique_from (x :: seen) l'
  end.

Definition unique (l : list string) : list string := unique_from [] l.

Definition scanWorkspace (P : Platform) (fs : FS) (workspacePath : string)
    (m : PorterManifest) : outcome ScanResult :=
  match context m with
  | None => Throws "TypeError: Cannot convert undefined or null to object"
  | Some ctx =>
      let '(files, warnings) := candidates P fs workspacePath m ctx in
      obind (filter_excluded P (excludePatterns m) files) (fun filteredFiles =>
        Returns {| files := unique filteredFiles;
                   totalSize := total_size fs workspacePath filteredFiles;
                   warnings := warnings |})
  end.

(** *** checkForSecrets *)

Record Leak := mkLeak {
  file : string;
  line : nat;
  match_ : string
}.

(** [(?:api[_-]?key|apikey|secret|password|token|auth)] under the [i] flag *)
Definition secret_keyword : Re.regex :=
  Re.Alt
    (Re.Cat (Re.lit_i "api")
       (Re.Cat (Re.Rep (fun c => Ascii.eqb c "_" || Ascii.eqb c "-") 0 (Some 1))
          (Re.lit_i "key")))
    (Re.Alt (Re.lit_i "apikey")
       (Re.Alt (Re.lit_i "secret")
          (Re.Alt (Re.lit_i "password")
             (Re.Alt (Re.lit_i "token") (Re.lit_i "auth"))))).

(** [/(?:...)[\s]*[=:]\s*Q?[a-zA-Z0-9_-]{20,}/gi], [Q] being the class of
    the double quote (character 34) and the apostrophe. *)
Definition assignment_pattern : Re.regex :=
  Re.Cat secret_keyword
    (Re.Cat (Re.Rep Re.space 0 None)
       (Re.Cat (Re.Chars (fun c => Ascii.eqb c "=" || Ascii.eqb c ":"))
          (Re.Cat (Re.Rep Re.space 0 None)
             (Re.Cat
                (Re.Rep (fun c => Ascii.eqb c "034" || Ascii.eqb c "'") 0 (Some 1))
                (Re.Rep Re.token_char 20 None))))).

Definition secretPatterns : list Re.regex :=
  [ assignment_pattern;
    (* /sk-[a-zA-Z0-9]{32,}/g *)
    Re.Cat (Re.lit "sk-") (Re.Rep Re.alnum 32 None);
    (* /xai-[a-zA-Z0-9]{32,}/g *)
    Re.Cat (Re.lit "xai-") (Re.Rep Re.alnum 32 None);
    (* /AIza[a-zA-Z0-9_-]{35}/g *)
    Re.Cat (Re.lit "AIza") (Re.Rep Re.token_char 35 (Some 35));
    (* /ghp_[a-zA-Z0-9]{36}/g *)
    Re.Cat (Re.lit "ghp_") (Re.Rep Re.alnum 36 (Some 36)) ].

(** [/\.(md|yaml|yml|json|txt|js|ts)$/i] *)
Definition text_file_re : Re.regex :=
  Re.Cat (Re.lit ".")
    (Re.Alt (Re.lit_i "md")
       (Re.Alt (Re.lit_i "yaml")
          (Re.Alt (Re.lit_i "yml")
             (Re.Alt (Re.lit_i "json")
                (Re.Alt (Re.lit_i "txt")
                   (Re.Alt (Re.lit_i "js") (Re.lit_i "ts"))))))).

Definition is_text_file (f : string) : bool := Re.test_suffix text_file_re f.

(** [matches[0].slice(0, 20) + '...'] *)
Definition redact (matched : string) : string := Js.slice0 20 matched +:+ "...".

(** The inner loop: the patterns against the line with index [i]. *)
Definition line_leaks (f : string) (i : nat) (text : string) : list Leak :=
  flat_map (fun pattern =>
              match Re.first_match pattern text with
              | Some m => [ {| file := f; line := i + 1; match_ := redact m |} ]
              | None => []
              end) secretPatterns.

(** The loop over the lines, [i] being the index of the first one. *)
Fixpoint lines_leaks (f : string) (i : nat) (lines : list string) : list Leak :=
  match lines with
  | [] => []
  | text :: rest => line_leaks f i text ++ lines_leaks f (S i) rest
  end.

(** The body of the loop over the files. *)
Definition file_leaks (fs : FS) (workspacePath : string) (f : string)
    : list Leak :=
  if negb (is_text_file f) then []
  else
    match Fs.readFile fs (Path.join [workspacePath; f]) with
    | Some content => lines_leaks f 0 (Js.split_on "010" content)
    | None => []
    end.

Definition checkForSecrets (fs : FS) (workspacePath : string)
    (files : list string) : list Leak :=
  flat_map (file_leaks fs workspacePath) files.

End Scanner.

(** ** importer.ts *)

Module Importer.

Record ImportOptions := mkOptions {
  target : option string;
  skipEnv : bool;
  skipSkills : bool;
  force : bool
}.

Record ImportResult := mkResult {
  success : bool;
  agentPath : option string;
  missingEnv : option (list string);
  installedSkills : option (list string);
  errors : option (list string)
}.

(** [{ success: false, errors }] *)
Definition failure (errs : list string) : ImportResult :=
  {| success := false; agentPath := None; missingEnv := None;
     installedSkills := None; errors := Some errs |}.

(** [options.target || process.cwd()] *)
Definition targetDir (fs : FS) (options : ImportOptions) : string :=
  Js.orElse (target options) (Fs.cwd fs).

(** [path.join(targetDir, '.porter-temp')] *)
Definition tempDir (targetDir : string) : string :=
  Path.join [targetDir; ".porter-temp"].

(** One entry of an archive written at [p]: its directory is made, then a
    directory entry is made and a file entry is written. *)
Definition unpack (fs : FS) (p : string) (n : Node) : FS * outcome unit :=
  match Fs.ensureDir fs (Path.dirname p) with
  | (fs, Throws e) => (fs, Throws e)
  | (fs, Returns _) =>
      match n with
      | Dir => Fs.ensureDir fs p
      | File _ => (Fs.put fs p n, Returns tt)
      end
  end.

Fixpoint unpack_all (fs : FS) (cwd : string) (entries : list (string * Node))
    : FS * outcome unit :=
  match entries with
  | [] => (fs, Returns tt)
  | e :: rest =>
      match unpack fs (Path.join [cwd; e.1]) e.2 with
      | (fs, Returns _) => unpack_all fs cwd rest
      | (fs, Throws err) => (fs, Throws err)
      end
  end.

(** [tar.extract({ file, cwd })]: every entry of the archive is written
    below [cwd]; [Throws] carries the text of the error, as [${err}] gives
    it. *)
Definition tar_extract (P : Platform) (fs : FS) (file cwd : string)
    : FS * outcome unit :=
  match tar_entries P fs file with
  | Throws err => (fs, Throws err)
  | Returns entries =>
      match unpack_all fs cwd entries with
      | (fs, Throws message) => (fs, Throws ("Error: " +:+ message))
      | done => done
      end
  end.

(** How the first half of [importAgent] ends: with an early [return], or
    with [extractedPath] assigned. *)
Inductive resolved : Type :=
| Stop (r : ImportResult)
| Extracted (extractedPath : string).

(** The [catch] block of the extraction. *)
Definition extract_failed (fs : FS) (tempDir err : string) : FS * outcome resolved :=
  (Fs.remove fs tempDir,
   Returns (Stop (failure ["Failed to extract archive: " +:+ err]))).

(** The source-type block of [importAgent]; it throws when the staging
    directory cannot be made. *)
Definition resolveSource (P : Platform) (fs : FS) (source targetDir : string)
    : FS * outcome resolved :=
  if Js.endsWith source ".tar.gz" || Js.endsWith source ".tgz" then
    let tempDir := tempDir targetDir in
    match Fs.ensureDir fs tempDir with
    | (fs, Throws e) => (fs, Throws e)
    | (fs, Returns _) =>
        match tar_extract P fs source tempDir with
        | (fs, Returns _) =>
            match Fs.readdir fs tempDir with
            | Returns [entry] =>
                (fs, Returns (Extracted (Path.join [tempDir; entry])))
            | Returns _ =>
                (fs, Returns (Stop (failure
                   ["Invalid archive structure - expected single root directory"])))
            | Throws message => extract_failed fs tempDir ("Error: " +:+ message)
            end
        | (fs, Throws err) => extract_failed fs tempDir err
        end
    end
  else if Fs.pathExists fs source then (fs, Returns (Extracted source))
  else (fs, Returns (Stop (failure ["Source not found: " +:+ source]))).

Definition collision_error (agentDir : string) : string :=
  "Agent directory already exists: " +:+ agentDir
  +:+ ". Use --force to overwrite.".

(** [relativePath] of the copy loop. *)
Definition relativePath (fs : FS) (extractedPath : string) (entry : Fs.Dirent)
    : string :=
  if String.eqb (Fs.parentPath entry) extractedPath
  then Fs.dirent_name entry
  else Path.join [Path.relative (Fs.cwd fs) extractedPath (Fs.parentPath entry);
                  Fs.dirent_name entry].

(** The body of the copy loop for one directory entry. *)
Definition copy_entry (extractedPath agentDir : string) (fs : FS)
    (entry : Fs.Dirent) : FS * outcome unit :=
  if Fs.isFile entry then
    let relativePath := relativePath fs extractedPath entry in
    let srcPath := Path.join [extractedPath; relativePath] in
    let destPath := Path.join [agentDir; relativePath] in
    match Fs.ensureDir fs (Path.dirname destPath) with
    | (fs, Throws e) => (fs, Throws e)
    | (fs, Returns _) => Fs.copy fs srcPath destPath
    end
  else (fs, Returns tt).

(** The copy loop: it ends at the first call that throws. *)
Fixpoint copy_entries (extractedPath agentDir : string) (fs : FS)
    (entries : list Fs.Dirent) : FS * outcome unit :=
  match entries with
  | [] => (fs, Returns tt)
  | entry :: rest =>
      match copy_entry extractedPath agentDir fs entry with
      | (fs, Returns _) => copy_entries extractedPath agentDir fs rest
      | (fs, Throws e) => (fs, Throws e)
      end
  end.

(** The USER.md.template step. *)
Definition seed_user_md (fs : FS) (agentDir : string) : FS * outcome unit :=
  let templatePath := Path.join [agentDir; "USER.md.template"] in
  let userMdPath := Path.join [agentDir; "USER.md"] in
  if Fs.pathExists fs templatePath && negb (Fs.pathExists fs userMdPath)
  then Fs.copy fs templatePath userMdPath
  else (fs, Returns tt).

Definition missing_env (P : Platform) (options : ImportOptions)
    (manifest : PorterManifest) : list string :=
  match e ← env manifest; required e with
  | Some vars =>
      if skipEnv options then []
      else filter (fun v => Js.truthy (process_env P v) = false) vars
  | None => []
  end.

Definition external_skills (options : ImportOptions)
    (manifest : PorterManifest) : list string :=
  match s ← skills manifest; external s with
  | Some l => if skipSkills options then [] else map skill_name l
  | None => []
  end.

(** [xs.length > 0 ? xs : undefined] *)
Definition non_empty (xs : list string) : option (list string) :=
  match xs with
  | [] => None
  | _ => Some xs
  end.

(** What is returned at the end. *)
Definition report (P : Platform) (agentDir : string) (options : ImportOptions)
    (manifest : PorterManifest) : ImportResult :=
  {| success := true;
     agentPath := Some agentDir;
     missingEnv := non_empty (missing_env P options manifest);
     installedSkills := non_empty (external_skills options manifest);
     errors := None |}.

(** The staging directory is removed when it is there. *)
Definition cleanup (fs : FS) (targetDir : string) : FS :=
  let tempDir := tempDir targetDir in
  if Fs.pathExists fs tempDir then Fs.remove fs tempDir else fs.

(** Everything after the collision check; a call of the file system that
    throws ends it there, with what was written so far.  (The block of the
    post-install hook looks the hook up and logs; it changes nothing and
    is left out, as is the console output.) *)
Definition install (P : Platform) (fs : FS) (targetDir extractedPath : string)
    (agentDir : string) (options : ImportOptions) (manifest : PorterManifest)
    : FS * outcome ImportResult :=
  match Fs.ensureDir fs agentDir with
  | (fs, Throws e) => (fs, Throws e)
  | (fs, Returns _) =>
      match Fs.readdir_recursive fs extractedPath with
      | Throws e => (fs, Throws e)
      | Returns filesToCopy =>
          match copy_entries extractedPath agentDir fs filesToCopy with
          | (fs, Throws e) => (fs, Throws e)
          | (fs, Returns _) =>
              match seed_user_md fs agentDir with
              | (fs, Throws e) => (fs, Throws e)
              | (fs, Returns _) =>
                  (cleanup fs targetDir,
                   Returns (report P agentDir options manifest))
              end
          end
      end
  end.

(** The second half of [importAgent], from [loadManifest] on. *)
Definition importFrom (P : Platform) (fs : FS) (targetDir extractedPath : string)
    (options : ImportOptions) : FS * outcome ImportResult :=
  match loadManifest P fs extractedPath with
  | Throws err => (fs, Throws err)
  | Returns None => (fs, Returns (failure ["No porter.yaml found in package"]))
  | Returns (Some manifest) =>
      let validation := validateManifest manifest in
      if negb (valid validation) then
        (fs, Returns (failure (Validation.errors validation)))
      else
        match name manifest with
        | None => (fs, Throws "The path argument must be of type string. Received undefined")
        | Some n =>
            let agentDir := Path.join [targetDir; n] in
            if Fs.pathExists fs agentDir && negb (force options) then
              (fs, Returns (failure [collision_error agentDir]))
            else install P fs targetDir extractedPath agentDir options manifest
        end
  end.

Definition importAgent (P : Platform) (fs : FS) (source : string)
    (options : ImportOptions) : FS * outcome ImportResult :=
  let targetDir := targetDir fs options in
  match resolveSource P fs source targetDir with
  | (fs, Throws e) => (fs, Throws e)
  | (fs, Returns (Stop r)) => (fs, Returns r)
  | (fs, Returns (Extracted extractedPath)) =>
      importFrom P fs targetDir extractedPath options
  end.

End Importer.

(** ** A small platform to run the code on

    [RegExp] covers the patterns the scanner builds from literal
    characters, [.] and [*] (every default exclusion is one); a source
    with any other metacharacter is refused.  [glob] knows the pattern
    [**/*] (every file below [cwd] that has no dot segment) and plain file
    names.  Archives and YAML documents are looked up in tables. *)

Module Sim.

Definition is_meta (c : ascii) : bool :=
  Js.includes "\^$*+?()[]{}|" (String c EmptyString).

Fixpoint parse_body (s : string) : option Re.regex :=
  match s with
  | EmptyString => Some Re.Eps
  | String c s' =>
      if is_meta c then None
      else
        let cls := if Ascii.eqb c "." then Re.dot else Ascii.eqb c in
        match s' with
        | String "*" s'' => Re.Cat (Re.Rep cls 0 None) <$> parse_body s''
        | _ => Re.Cat (Re.Chars cls) <$> parse_body s'
        end
  end.

Definition compile (src : string) : option (string -> bool) :=
  match src with
  | String "^" body =>
      if Js.endsWith body "$" then
        Re.test_full <$> parse_body (Js.dropLast body)
      else None
  | _ => None
  end.

Definition hidden (rel : string) : bool :=
  bool_decide (Exists (fun seg => Js.startsWith seg "." = true)
                 (Path.segments rel)).

Definition list_files (fs : FS) (pattern cwd : string) : list string :=
  if String.eqb pattern "**/*" then
    omap (fun e =>
            match e.2 with
            | File _ =>
                let rel := Js.join_with "/" e.1 in
                if hidden rel then None else Some rel
            | Dir => None
            end) (Fs.entries fs (Fs.key fs cwd))
  else
    match Fs.find fs (Path.join [cwd; pattern]) with
    | Some (File _) => [Path.normalize pattern]
    | _ => []
    end.

Fixpoint assoc {A} (k : string) (l : list (string * A)) : option A :=
  match l with
  | [] => None
  | (k', v) :: rest => if String.eqb k k' then Some v else assoc k rest
  end.

Definition platform
    (archives : list (string * list (string * Node)))
    (documents : list (string * PorterManifest))
    (environment : list (string * string)) : Platform :=
  {| RegExp := compile;
     glob := list_files;
     tar_entries := fun _ file =>
       match assoc file archives with
       | Some entries => Returns entries
       | None => Throws "Error: ENOENT: no such file or directory"
       end;
     yaml_load := fun text =>
       match assoc text documents with
       | Some m => Returns (Some m)
       | None => Throws "YAMLException"
       end;
     process_env := fun v => assoc v environment |}.

End Sim.

(** ** importer.ts: parseSource *)

Module Locator.

Inductive SourceType : Type := github | local | clawdhub.

Record Parsed := mkParsed {
  type : SourceType;
  path : string;
  version : option string
}.

(** [const [pathPart, version] = text.split('@')] *)
Definition path_and_version (text : string) : string * option string :=
  match Js.split_on "@" text with
  | [] => ("", None)
  | [pathPart] => (pathPart, None)
  | pathPart :: version :: _ => (pathPart, Some version)
  end.

Definition parseSource (source : string) : Parsed :=
  if Js.startsWith source "github:" then
    let '(pathPart, version) := path_and_version (Js.sliceFrom 7 source) in
    {| type := github; path := pathPart; version := version |}
  else if Js.startsWith source "clawdhub:" then
    let '(pathPart, version) := path_and_version (Js.sliceFrom 9 source) in
    {| type := clawdhub; path := pathPart; version := version |}
  else {| type := local; path := source; version := None |}.

End Locator.

(** ** github.ts *)

Module GitHub.

Record GitHubSource := mkSource {
  owner : string;
  repo : string;
  version : option string
}.

(** [parseGitHubSource(source)]: [None] is the [null] result. *)
Definition parseGitHubSource (source : string) : option GitHubSource :=
  if negb (Js.startsWith source "github:") then None
  else
    let '(repoPath, version) := Locator.path_and_version (Js.sliceFrom 7 source) in
    match Js.split_on "/" repoPath with
    | owner :: repo :: _ =>
        if negb (Js.truthy (Some owner)) || negb (Js.truthy (Some repo)) then None
        else Some {| owner := owner; repo := repo;
                     version := if Js.truthy version then version else None |}
    | _ => None
    end.

(** The shell, as [fetchGitHubRepo] uses it: a command line run against
    the file system, which it may change before it returns or throws an
    error with a message. *)
Definition Shell : Type := FS -> string -> FS * outcome unit.

Record FetchResult := mkFetch {
  success : bool;
  path : option string;
  error : option string
}.

Definition repoUrl (source : GitHubSource) : string :=
  "https://github.com/" +:+ owner source +:+ "/" +:+ repo source.

(** [path.join(targetDir, '.porter-github-temp')] *)
Definition githubTemp (targetDir : string) : string :=
  Path.join [targetDir; ".porter-github-temp"].

Definition cloneDir (source : GitHubSource) (targetDir : string) : string :=
  Path.join [targetDir; ".porter-github-temp"; repo source].

Definition clone_command (source : GitHubSource) (targetDir : string) : string :=
  match version source with
  | Some (String c v) =>
      "git clone --depth 1 --branch " +:+ String c v +:+ " "
      +:+ repoUrl source +:+ " " +:+ cloneDir source targetDir
  | _ =>
      "git clone --depth 1 " +:+ repoUrl source +:+ " "
      +:+ cloneDir source targetDir
  end.

(** The catch block: the message decides which error is reported. *)
Definition fetch_error (source : GitHubSource) (message : string) : string :=
  if Js.includes message "not found" || Js.includes message "404" then
    "Repository not found: " +:+ repoUrl source
  else if Js.includes message "could not find remote branch"
          || Js.includes message "did not match any" then
    "Version not found: " +:+ default "undefined" (version source)
    +:+ ". Check available tags with: gh release list -R "
    +:+ owner source +:+ "/" +:+ repo source
  else "Failed to clone: " +:+ message.

Definition fetched (source : GitHubSource) (targetDir : string) : FetchResult :=
  {| success := true; path := Some (cloneDir source targetDir); error := None |}.

Definition not_fetched (source : GitHubSource) (message : string) : FetchResult :=
  {| success := false; path := None; error := Some (fetch_error source message) |}.

(** The [try] block ends at the first call that throws, and the [catch]
    block turns the message into the result. *)
Definition fetchGitHubRepo (exec : Shell) (fs : FS) (source : GitHubSource)
    (targetDir : string) : FS * FetchResult :=
  let fs := Fs.remove fs (githubTemp targetDir) in
  match Fs.ensureDir fs (Path.dirname (cloneDir source targetDir)) with
  | (fs, Throws message) => (fs, not_fetched source message)
  | (fs, Returns _) =>
      match exec fs (clone_command source targetDir) with
      | (fs, Returns _) =>
          (Fs.remove fs (Path.join [cloneDir source targetDir; ".git"]),
           fetched source targetDir)
      | (fs, Throws message) => (fs, not_fetched source message)
      end
  end.

(** [cleanupGitHubTemp(targetDir)] *)
Definition cleanupGitHubTemp (fs : FS) (targetDir : string) : FS :=
  Fs.remove fs (githubTemp targetDir).

(** *** The importer with GitHub sources *)

(** [importFromLocal]: the body is that of the plain [importAgent]. *)
Definition importFromLocal (P : Platform) (fs : FS) (source targetDir : string)
    (options : Importer.ImportOptions) : FS * outcome Importer.ImportResult :=
  match Importer.resolveSource P fs source targetDir with
  | (fs, Throws e) => (fs, Throws e)
  | (fs, Returns (Importer.Stop r)) => (fs, Returns r)
  | (fs, Returns (Importer.Extracted extractedPath)) =>
      Importer.importFrom P fs targetDir extractedPath options
  end.

Definition importFromGitHub (P : Platform) (exec : Shell) (fs : FS)
    (source : GitHubSource) (targetDir : string)
    (options : Importer.ImportOptions) : FS * outcome Importer.ImportResult :=
  match fetchGitHubRepo exec fs source targetDir with
  | (fs, fetchResult) =>
      if negb (success fetchResult) || negb (Js.truthy (path fetchResult)) then
        (fs, Returns (Importer.failure
                        [Js.orElse (error fetchResult)
                           "Failed to fetch GitHub repository"]))
      else
        match importFromLocal P fs (Js.orElse (path fetchResult) "")
                targetDir options with
        | (fs, Returns result) => (cleanupGitHubTemp fs targetDir, Returns result)
        | (fs, Throws message) =>
            (cleanupGitHubTemp fs targetDir,
             Returns (Importer.failure ["Import failed: " +:+ message]))
        end
  end.

Definition importAgent (P : Platform) (exec : Shell) (fs : FS) (source : string)
    (options : Importer.ImportOptions) : FS * outcome Importer.ImportResult :=
  let targetDir := Importer.targetDir fs options in
  match parseGitHubSource source with
  | Some githubSource => importFromGitHub P exec fs githubSource targetDir options
  | None => importFromLocal P fs source targetDir options
  end.

End GitHub.

(** ** Vocabulary of the statements *)

(** The five required fields the validator tests for. *)
Inductive RequiredField : Type :=
| F_name
| F_version
| F_description
| F_engine_clawdbot
| F_context_soul.

(** The expression the validator tests for each of them. *)
Definition field_value (m : PorterManifest) (f : RequiredField) : option string :=
  match f with
  | F_name => name m
  | F_version => version m
  | F_description => description m
  | F_engine_clawdbot => engine_clawdbot m
  | F_context_soul => context_field m "soul"
  end.

(** The message the validator pushes for each of them. *)
Definition missing_field_error (f : RequiredField) : string :=
  match f with
  | F_name => "Missing required field: name"
  | F_version => "Missing required field: version"
  | F_description => "Missing required field: description"
  | F_engine_clawdbot => "Missing required field: engine.clawdbot"
  | F_context_soul => "Missing required field: context.soul (SOUL.md is required)"
  end.

Definition set_version (v : option string) (m : PorterManifest) : PorterManifest :=
  {| name := name m; version := v; description := description m;
     author := author m; repository := repository m; license := license m;
     engine := engine m; context := context m; skills := skills m;
     mcp := mcp m; env := env m; assets := assets m; exclude := exclude m;
     seeds := seeds m; hooks := hooks m; tags := tags m |}.

Definition set_env (e : option EnvDecl) (m : PorterManifest) : PorterManifest :=
  {| name := name m; version := version m; description := description m;
     author := author m; repository := repository m; license := license m;
     engine := engine m; context := context m; skills := skills m;
     mcp := mcp m; env := e; assets := assets m; exclude := exclude m;
     seeds := seeds m; hooks := hooks m; tags := tags m |}.

(** The default name as the specification words it: lowercase, then every
    maximal run of characters outside [a-z0-9] becomes one hyphen. *)
Fixpoint collapse_runs (in_run : bool) (s : string) : string :=
  match s with
  | EmptyString => EmptyString
  | String c s' =>
      if Js.is_lower c || Js.is_digit c then String c (collapse_runs false s')
      else if in_run then collapse_runs true s'
           else String "-" (collapse_runs true s')
  end.

Definition spec_default_name (dirName : string) : string :=
  collapse_runs false (Js.toLowerCase dirName).

(** A literal exclusion pattern as the specification words it: the
    candidate is the pattern, or lies in the directory the pattern names. *)
Definition as_dir (d : string) : string :=
  if Js.endsWith d "/" then d else d +:+ "/".

Definition spec_literal_match (pattern file : string) : Prop :=
  file = pattern \/ Js.startsWith file (as_dir pattern) = true.

(** The text of line [i] (from 0) of a file the secret scan reads: the
    file has a text extension and can be read. *)
Definition scanned_line (fs : FS) (workspacePath f : string) (i : nat)
    : option string :=
  if Scanner.is_text_file f then
    content ← Fs.readFile fs (Path.join [workspacePath; f]);
    Js.split_on "010" content !! i
  else None.

(** One record for each secret pattern that matches the line, in the
    order of the patterns: file, line number from 1, and the first 20
    characters of the first match followed by the ellipsis. *)
Definition line_records (f : string) (i : nat) (text : string)
    : list Scanner.Leak :=
  omap (fun p =>
          (fun m => {| Scanner.file := f; Scanner.line := i + 1;
                       Scanner.match_ := Js.slice0 20 m +:+ "..." |})
            <$> Re.first_match p text)
    Scanner.secretPatterns.


(** *** Paths and trees *)

(** A segment that [path.normalize] keeps. *)
Definition kept (s : string) : Prop := s <> "" /\ s <> "." /\ s <> "..".

(** A segment that is not empty and holds no separator. *)
Definition named (s : string) : Prop := s <> "" /\ Js.includes s "/" = false.

(** The resolved working directory. *)
Definition base (cwd : string) : list string :=
  Path.normalize_segments false [] (Path.segments cwd).

(** A path whose last segment is the name [name]: the name alone, the
    name in the root, or the name after a directory. *)
Definition child_form (q name : string) : Prop :=
  q = name \/ q = "/" +:+ name
  \/ exists pre, pre <> "" /\ pre <> "/" /\ q = pre +:+ "/" +:+ name.

(** A path that ends in a name is not empty, has no separator at its end,
    and something is left of it when it is normalized. *)
Definition ends_in_name (x : string) : Prop :=
  x <> "" /\ Js.endsWith x "/" = false
  /\ Path.normalize_segments (negb (Js.startsWith x "/")) [] (Path.segments x)
     <> [].

(** [Fs.tidy] as a proposition on the nodes. *)
Definition tidy_at (n : gmap Fs.Key Node) : Prop :=
  forall k v, n !! k = Some v -> Forall (fun s => Path.plain s = true) k.

(** One state comes from another by calls that keep what was there. *)
Definition grown (fs fs' : FS) : Prop :=
  Fs.cwd fs' = Fs.cwd fs
  /\ (forall k v, Fs.nodes fs !! k = Some v -> Fs.nodes fs' !! k = Some v)
  /\ (tidy_at (Fs.nodes fs) -> tidy_at (Fs.nodes fs')).

(** Every node lies in a directory. *)
Definition closed_at (n : gmap Fs.Key Node) : Prop :=
  forall k s v, n !! (k ++ [s]) = Some v -> Fs.node_at n k = Some Dir.

(** [dest] and the directories above it are there. *)
Definition rooted (dest : Fs.Key) (fs : FS) : Prop :=
  forall t1 t2 : Fs.Key, dest = t1 ++ t2 -> t1 <> [] ->
    Fs.nodes fs !! t1 = Some Dir.

(** During the copy loop of the importer, which has listed [all] below
    [src] in the working directory [w]: what was listed is where it was,
    and the working directory and the directories above what was listed
    are there. *)
Definition intact (w : string) (src : Fs.Key) (all : list (Fs.Key * Node))
    (fs : FS) : Prop :=
  Fs.cwd fs = w
  /\ (forall rel v, (rel, v) ∈ all -> Fs.nodes fs !! (src ++ rel) = Some v)
  /\ rooted (Fs.key fs "") fs
  /\ forall rel v (t1 t2 : Fs.Key), (rel, v) ∈ all ->
       src ++ rel = t1 ++ t2 -> t1 <> [] -> t2 <> [] ->
       Fs.nodes fs !! t1 = Some Dir.

(** The file [rel] has arrived below [dest], under directories. *)
Definition placed (dest : Fs.Key) (fs : FS) (rel : Fs.Key) (c : string) : Prop :=
  Fs.nodes fs !! (dest ++ rel) = Some (File c)
  /\ forall r1 r2 : Fs.Key, rel = r1 ++ r2 -> r1 <> [] -> r2 <> [] ->
       Fs.nodes fs !! (dest ++ r1) = Some Dir.

(** Nothing below [dest] stands in the way of what was listed. *)
Definition fitting (dest : Fs.Key) (all : list (Fs.Key * Node)) (fs : FS) : Prop :=
  forall rel v v', (rel, v) ∈ all ->
    Fs.nodes fs !! (dest ++ rel) = Some v' -> Fs.same_kind v v' = true.

(** The working directory is there, and so is every directory above [k]:
    a walk to [k] is not stopped on its way. *)
Definition paved (fs : FS) (k : Fs.Key) : Prop :=
  rooted (Fs.key fs "") fs
  /\ forall t1 t2 : Fs.Key, k = t1 ++ t2 -> t1 <> [] -> t2 <> [] ->
       Fs.nodes fs !! t1 = Some Dir.

(** A listing holds the directories above each of its entries. *)
Definition nested_listing (all : list (Fs.Key * Node)) : Prop :=
  forall (r1 r2 : Fs.Key) v, (r1 ++ r2, v) ∈ all -> r1 <> [] -> r2 <> [] ->
    (r1, Dir) ∈ all.
(** ** Concrete manifests and workspaces *)

Module Examples.

(** The minimal manifest of the test suites. *)
Definition agent (n : string) : PorterManifest :=
  {| name := Some n; version := Some "1.0.0"; description := Some "A test agent";
     author := None; repository := None; license := None;
     engine := Some {| clawdbot := Some ">=1.0.0"; node := None |};
     context := Some [("soul", "SOUL.md")];
     skills := None; mcp := None; env := None; assets := None;
     exclude := None; seeds := None; hooks := None; tags := None |}.

(** A manifest with nothing in it. *)
Definition blank : PorterManifest :=
  {| name := None; version := None; description := None;
     author := None; repository := None; license := None;
     engine := None; context := None;
     skills := None; mcp := None; env := None; assets := None;
     exclude := None; seeds := None; hooks := None; tags := None |}.

(** The minimal manifest with paths that leave the workspace in the
    fields the validator does not read. *)
Definition escaping : PorterManifest :=
  {| name := Some "test-agent"; version := Some "1.0.0";
     description := Some "A test agent";
     author := None; repository := None; license := None;
     engine := Some {| clawdbot := Some ">=1.0.0"; node := None |};
     context := Some [("soul", "SOUL.md")];
     skills := None;
     mcp := Some [ {| mcp_name := "files"; config := Some "/etc/mcp.json";
                      mcp_required := None |} ];
     env := Some {| required := Some ["API_KEY"]; optional := None |};
     assets := None; exclude := None;
     seeds := Some {| memory := Some ["../../etc/passwd"]; projects := None |};
     hooks := Some {| pre_export := None; post_install := Some "../setup.sh";
                      validate := None |};
     tags := None |}.

Definition with_assets (l : list string) (m : PorterManifest) : PorterManifest :=
  {| name := name m; version := version m; description := description m;
     author := author m; repository := repository m; license := license m;
     engine := engine m; context := context m; skills := skills m;
     mcp := mcp m; env := env m; assets := Some l; exclude := exclude m;
     seeds := seeds m; hooks := hooks m; tags := tags m |}.

Definition with_exclude (l : list string) (m : PorterManifest) : PorterManifest :=
  {| name := name m; version := version m; description := description m;
     author := author m; repository := repository m; license := license m;
     engine := engine m; context := context m; skills := skills m;
     mcp := mcp m; env := env m; assets := assets m; exclude := Some l;
     seeds := seeds m; hooks := hooks m; tags := tags m |}.

Definition with_seeds (l : list string) (m : PorterManifest) : PorterManifest :=
  {| name := name m; version := version m; description := description m;
     author := author m; repository := repository m; license := license m;
     engine := engine m; context := context m; skills := skills m;
     mcp := mcp m; env := env m; assets := assets m; exclude := exclude m;
     seeds := Some {| memory := Some l; projects := None |};
     hooks := hooks m; tags := tags m |}.

Definition with_context (c : Context) (m : PorterManifest) : PorterManifest :=
  {| name := name m; version := version m; description := description m;
     author := author m; repository := repository m; license := license m;
     engine := engine m; context := Some c; skills := skills m;
     mcp := mcp m; env := env m; assets := assets m; exclude := exclude m;
     seeds := seeds m; hooks := hooks m; tags := tags m |}.

(** A workspace with a manifest, a soul and a user profile. *)
Definition workspace : FS :=
  Fs.mount "/home/u"
    [ ("/w", Dir);
      ("/w/porter.yaml", File "name: test-agent");
      ("/w/SOUL.md", File "# Soul");
      ("/w/USER.md", File "- Name: John Doe");
      ("/w/USER.md.template", File "- Name: {{YOUR_NAME}}") ].

(** A target directory that already holds the agent [existing], a source
    directory for it, and four archives. *)
Definition disk : FS :=
  Fs.mount "/home/u"
    [ ("/src", Dir);
      ("/src/porter.yaml", File "existing.yaml");
      ("/src/SOUL.md", File "# Soul");
      ("/agents", Dir);
      ("/agents/existing", Dir);
      ("/agents/existing/notes.md", File "mine");
      ("/dl", Dir);
      ("/dl/two-roots.tgz", File "archive");
      ("/dl/no-manifest.tar.gz", File "archive");
      ("/dl/bad-name.tgz", File "archive");
      ("/dl/existing.tgz", File "archive") ].

Definition node : Platform :=
  Sim.platform
    [ ("/dl/two-roots.tgz", [ ("a", Dir); ("b", Dir) ]);
      ("/dl/no-manifest.tar.gz", [ ("pkg", Dir); ("pkg/SOUL.md", File "# Soul") ]);
      ("/dl/bad-name.tgz",
       [ ("pkg", Dir); ("pkg/porter.yaml", File "bad-name.yaml") ]);
      ("/dl/existing.tgz",
       [ ("existing", Dir);
         ("existing/porter.yaml", File "existing.yaml");
         ("existing/SOUL.md", File "# Soul") ]) ]
    [ ("existing.yaml", agent "existing");
      ("bad-name.yaml", agent "Bad Name") ]
    [ ("HOME", "/home/u") ].

(** A workspace whose config file assigns an API key on its third line. *)
Definition leaky : FS :=
  Fs.mount "/home/u"
    [ ("/w", Dir);
      ("/w/config.md",
       File ("# Config" +:+ String "010" ""
             +:+ "model: sonnet" +:+ String "010" ""
             +:+ "API_KEY = sk-abcdefghijklmnopqrstuvwxyz123456"
             +:+ String "010" ""));
      ("/w/avatar.png", File "token=abcdefghijklmnopqrstuvwxyz") ].

Definition into_agents (f : bool) : Importer.ImportOptions :=
  {| Importer.target := Some "/agents"; Importer.skipEnv := false;
     Importer.skipSkills := false; Importer.force := f |}.

End Examples.

(** ** Further concrete cases *)

Module Cases.

(** A manifest that declares what the workspace [Examples.workspace] does
    not hold: a second context file, a bundled skill, an MCP config, and
    two seeds, one of them under the excluded [memory/]. *)
Definition sparse : PorterManifest :=
  {| name := Some "test-agent"; version := Some "1.0.0";
     description := Some "A test agent";
     author := None; repository := None; license := None;
     engine := Some {| clawdbot := Some ">=1.0.0"; node := None |};
     context := Some [("soul", "SOUL.md"); ("identity", "MISSING.md")];
     skills := Some {| bundled := Some [ {| path := "skills/absent" |} ];
                       external := None |};
     mcp := Some [ {| mcp_name := "files"; config := Some "mcp.json";
                      mcp_required := None |} ];
     env := None; assets := None; exclude := None;
     seeds := Some {| memory := Some ["notes/seed.md"; "memory/old.md"];
                      projects := None |};
     hooks := None; tags := None |}.

(** What the scan of [Examples.workspace] returns for [sparse]. *)
Definition sparse_scan : Scanner.ScanResult :=
  {| Scanner.files := ["porter.yaml"; "SOUL.md"; "notes/seed.md"];
     Scanner.totalSize := 22;
     Scanner.warnings :=
       ["Context file not found: MISSING.md";
        "Bundled skill not found: skills/absent";
        "MCP config template not found: mcp.json"] |}.

(** An agent root with an identity file, avatars, one skill directory and
    a stray file among the skills. *)
Definition studio : FS :=
  Fs.mount "/home/u"
    [ ("/home/u/Studio One", Dir);
      ("/home/u/Studio One/SOUL.md", File "# Soul");
      ("/home/u/Studio One/IDENTITY.md", File "# Identity");
      ("/home/u/Studio One/avatars", Dir);
      ("/home/u/Studio One/skills", Dir);
      ("/home/u/Studio One/skills/search", Dir);
      ("/home/u/Studio One/skills/README.md", File "skills") ].

Definition studio_manifest : PorterManifest :=
  {| name := Some "studio-one"; version := Some "1.0.0";
     description := Some "AI agent: Studio One";
     author := None; repository := None; license := None;
     engine := Some {| clawdbot := Some ">=1.0.0"; node := None |};
     context := Some [("soul", "SOUL.md"); ("identity", "IDENTITY.md")];
     skills := Some {| bundled := Some [ {| path := "skills/search" |} ];
                       external := None |};
     mcp := None; env := None;
     assets := Some ["avatars/"];
     exclude := None; seeds := None; hooks := None; tags := None |}.

(** An agent that requires two environment variables. *)
Definition keyed : PorterManifest :=
  {| name := Some "keyed"; version := Some "1.0.0";
     description := Some "A test agent";
     author := None; repository := None; license := None;
     engine := Some {| clawdbot := Some ">=1.0.0"; node := None |};
     context := Some [("soul", "SOUL.md")];
     skills := None; mcp := None;
     env := Some {| required := Some ["HOME"; "MISSING_VAR_12345"];
                    optional := None |};
     assets := None; exclude := None; seeds := None; hooks := None;
     tags := None |}.

Definition host : Platform :=
  Sim.platform []
    [ ("aria.yaml", Examples.agent "aria"); ("keyed.yaml", keyed) ]
    [ ("HOME", "/home/u") ].

(** A disk with the agent [keyed] in [/src] and an empty target. *)
Definition drive : FS :=
  Fs.mount "/home/u"
    [ ("/src", Dir);
      ("/src/porter.yaml", File "keyed.yaml");
      ("/src/SOUL.md", File "# Soul");
      ("/agents", Dir) ].

(** The report of importing [keyed] from [/src] on [drive]. *)
Definition keyed_report : Importer.ImportResult :=
  {| Importer.success := true;
     Importer.agentPath := Some "/agents/keyed";
     Importer.missingEnv := Some ["MISSING_VAR_12345"];
     Importer.installedSkills := None;
     Importer.errors := None |}.

(** The agent [existing] with a nested skill and a profile template in
    [/src], and a target that holds an older copy of it. *)
Definition nested : FS :=
  Fs.mount "/home/u"
    [ ("/src", Dir);
      ("/src/porter.yaml", File "existing.yaml");
      ("/src/SOUL.md", File "# Soul");
      ("/src/USER.md.template", File "- Name:");
      ("/src/skills", Dir);
      ("/src/skills/search", Dir);
      ("/src/skills/search/SKILL.md", File "# Search");
      ("/agents", Dir);
      ("/agents/existing", Dir);
      ("/agents/existing/SOUL.md", File "# Old soul");
      ("/agents/existing/notes.md", File "mine") ].

(** The same source, and a target in which [existing] is a regular
    file. *)
Definition blocked : FS :=
  Fs.mount "/home/u"
    [ ("/src", Dir);
      ("/src/porter.yaml", File "existing.yaml");
      ("/src/SOUL.md", File "# Soul");
      ("/agents", Dir);
      ("/agents/existing", File "not a directory") ].

Definition aria : GitHub.GitHubSource :=
  {| GitHub.owner := "acme"; GitHub.repo := "aria";
     GitHub.version := Some "v1.0.0" |}.

(** A shell that knows one repository at one tag. *)
Definition git : GitHub.Shell :=
  fun fs command =>
    if String.eqb command
         "git clone --depth 1 --branch v1.0.0 https://github.com/acme/aria /agents/.porter-github-temp/aria"
    then
      (foldl (fun acc e => Fs.put acc e.1 e.2) fs
         [ ("/agents/.porter-github-temp/aria", Dir);
           ("/agents/.porter-github-temp/aria/.git", Dir);
           ("/agents/.porter-github-temp/aria/.git/HEAD", File "ref");
           ("/agents/.porter-github-temp/aria/porter.yaml", File "aria.yaml");
           ("/agents/.porter-github-temp/aria/SOUL.md", File "# Aria") ],
       Returns tt)
    else (fs, Throws "fatal: repository not found").

End Cases.

(** The segments [path.normalize] keeps of a path: the list its
    [normalizeString] step produces. *)
Definition kept_segments (p : string) : list string :=
  Path.normalize_segments (negb (Js.startsWith p "/")) [] (Path.segments p).

(** * Properties *)

(** ** The validator *)

Section Validator.

Implicit Types (m : PorterManifest) (f : RequiredField).

Lemma valid_spec m : valid (validateManifest m) = true <-> errors (validateManifest m) = [].
Proof.
  unfold validateManifest; cbn [valid errors].
  destruct (name_errors m ++ _) as [|e l]; cbn; split; congruence.
Qed.

Lemma invalid_of_error m (e : string) :
  e ∈ errors (validateManifest m) -> valid (validateManifest m) = false.
Proof.
  intros He. destruct (valid (validateManifest m)) eqn:Hv; [|reflexivity].
  apply valid_spec in Hv. rewrite Hv in He. inversion He.
Qed.

Lemma falsy_not_truthy (o : option string) :
  Js.truthy o = false -> negb (Js.truthy o) = true.
Proof. intros ->. reflexivity. Qed.

Lemma missing_field_pushed m f :
  Js.truthy (field_value m f) = false ->
  missing_field_error f ∈ errors (validateManifest m).
Proof.
  intros H%falsy_not_truthy.
  unfold validateManifest; cbn [errors].
  destruct f; cbn [field_value missing_field_error] in *.
  - apply elem_of_app; left. unfold name_errors. rewrite H. left.
  - do 1 (apply elem_of_app; right). apply elem_of_app; left.
    unfold version_errors. rewrite H. left.
  - do 2 (apply elem_of_app; right). apply elem_of_app; left.
    unfold description_errors. rewrite H. left.
  - do 3 (apply elem_of_app; right). apply elem_of_app; left.
    unfold engine_errors. rewrite H. left.
  - do 4 (apply elem_of_app; right). apply elem_of_app; left.
    unfold soul_errors. rewrite H. left.
Qed.

(** C3. A manifest in which one of name, version, description,
    engine.clawdbot or context.soul is absent (undefined or empty) is
    reported invalid, and the error list holds that field's
    "Missing required field" message; the message for context.soul names
    the expected file SOUL.md. *)
Theorem validate_reports_missing_field m f :
  Js.truthy (field_value m f) = false ->
  valid (validateManifest m) = false
  /\ missing_field_error f ∈ errors (validateManifest m)
  /\ Js.includes (missing_field_error F_context_soul) "SOUL.md" = true.
Proof.
  intros H. pose proof (missing_field_pushed m f H) as Hin.
  split; [eapply invalid_of_error; eassumption|].
  split; [assumption|reflexivity].
Qed.

Lemma validate_reports_missing_field_witness :
  valid (validateManifest Examples.blank) = false
  /\ Forall (fun f => missing_field_error f ∈ errors (validateManifest Examples.blank))
       [F_name; F_version; F_description; F_engine_clawdbot; F_context_soul].
Proof.
  pose proof (fun f => validate_reports_missing_field Examples.blank f) as H.
  split; [exact (proj1 (H F_name eq_refl))|].
  apply Forall_cons_2; [exact (proj1 (proj2 (H F_name eq_refl)))|].
  apply Forall_cons_2; [exact (proj1 (proj2 (H F_version eq_refl)))|].
  apply Forall_cons_2; [exact (proj1 (proj2 (H F_description eq_refl)))|].
  apply Forall_cons_2; [exact (proj1 (proj2 (H F_engine_clawdbot eq_refl)))|].
  apply Forall_cons_2; [exact (proj1 (proj2 (H F_context_soul eq_refl)))|].
  apply Forall_nil_2.
Defined.

Lemma errors_set_version m (v v' : option string) :
  Js.truthy v = true -> Js.truthy v' = true ->
  errors (validateManifest (set_version v m))
  = errors (validateManifest (set_version v' m)).
Proof.
  intros Hv Hv'. unfold validateManifest; cbn [errors].
  unfold version_errors; cbn [version set_version]. rewrite Hv, Hv'.
  reflexivity.
Qed.

Lemma errors_set_env m (e : option EnvDecl) :
  errors (validateManifest (set_env e m)) = errors (validateManifest m).
Proof. reflexivity. Qed.

Lemma valid_of_errors m m' :
  errors (validateManifest m) = errors (validateManifest m') ->
  valid (validateManifest m) = valid (validateManifest m').
Proof. unfold validateManifest; cbn [valid errors]. intros ->. reflexivity. Qed.

(** C10. [valid] is true exactly when the error list is empty, and the
    two inputs that only produce warnings do not reach it: the shape of a
    version that is present, and the declared environment variables,
    change neither the error list nor [valid]. *)
Theorem valid_iff_no_errors m :
  (valid (validateManifest m) = true <-> errors (validateManifest m) = [])
  /\ (forall v v' : option string,
        Js.truthy v = true -> Js.truthy v' = true ->
        errors (validateManifest (set_version v m))
        = errors (validateManifest (set_version v' m))
        /\ valid (validateManifest (set_version v m))
           = valid (validateManifest (set_version v' m)))
  /\ (forall e : option EnvDecl,
        errors (validateManifest (set_env e m)) = errors (validateManifest m)
        /\ valid (validateManifest (set_env e m)) = valid (validateManifest m)).
Proof.
  split; [apply valid_spec|]. split.
  - intros v v' Hv Hv'. pose proof (errors_set_version m v v' Hv Hv') as He.
    split; [exact He|apply valid_of_errors, He].
  - intros e. split; [apply errors_set_env|apply valid_of_errors, errors_set_env].
Qed.

(** A version that is not semver-shaped and an empty environment give two
    warnings and a valid manifest. *)
Lemma valid_iff_no_errors_witness :
  let m := set_version (Some "next") (Examples.agent "test-agent") in
  valid (validateManifest m) = true
  /\ errors (validateManifest m) = []
  /\ length (warnings (validateManifest m)) = 2
  /\ valid (validateManifest m)
     = valid (validateManifest (set_version (Some "1.0.0") (Examples.agent "test-agent"))).
Proof.
  intros m.
  destruct (valid_iff_no_errors (Examples.agent "test-agent")) as (_ & Hver & _).
  destruct (valid_iff_no_errors m) as (Hiff & _ & _).
  assert (He : errors (validateManifest m) = []) by reflexivity.
  split; [apply Hiff, He|]. split; [exact He|]. split; [reflexivity|].
  exact (proj2 (Hver (Some "next") (Some "1.0.0") eq_refl eq_refl)).
Defined.

(** Every path the validator reads is checked: an entry of [allPaths]
    that starts with [/] or contains [..] gets its own error. *)
Lemma read_paths_are_checked m (p : string) :
  p ∈ allPaths m -> unsafe_path p = true ->
  invalid_path_error p ∈ errors (validateManifest m)
  /\ valid (validateManifest m) = false.
Proof.
  intros Hp Hu.
  assert (Hin : invalid_path_error p ∈ errors (validateManifest m)).
  { unfold validateManifest; cbn [errors].
    do 5 (apply elem_of_app; right).
    unfold path_errors. apply list_elem_of_fmap. exists p. split; [reflexivity|].
    apply list_elem_of_filter. split; assumption. }
  split; [exact Hin|eapply invalid_of_error, Hin].
Qed.

(** One error per offending entry, in the order of [allPaths]. *)
Lemma path_errors_count m :
  length (path_errors m)
  = length (filter (fun p => unsafe_path p = true) (allPaths m)).
Proof. unfold path_errors. apply length_map. Qed.

(** C1. The seed list, the MCP config paths and the hook paths are not
    among the paths the validator reads: a manifest whose seed is
    [../../etc/passwd], whose MCP config is [/etc/mcp.json] and whose
    post-install hook is [../setup.sh] is valid, with no error at all. *)
Theorem unread_paths_pass_validation :
  validateManifest Examples.escaping
  = {| valid := true; errors := []; warnings := [] |}.
Proof. reflexivity. Qed.

End Validator.

(** ** The generator *)

Section Generator.

Lemma replace_class_step (cls : ascii -> bool) (r : ascii) (c : ascii)
    (s : string) :
  Js.replace_class cls (String r "") (Js.toLowerCase (String c s))
  = String (if cls (Js.lower c) then r else Js.lower c)
      (Js.replace_class cls (String r "") (Js.toLowerCase s)).
Proof.
  cbn [Js.toLowerCase Js.replace_class]. destruct (cls (Js.lower c)); reflexivity.
Qed.

Lemma default_name_get (s : string) (i : nat) :
  String.get i (default_name s)
  = (fun c => if Re.slug_char (Js.lower c) then Js.lower c else "-"%char)
      <$> String.get i s.
Proof.
  unfold default_name. revert i.
  induction s as [|c s IH]; intros i; [reflexivity|].
  rewrite replace_class_step. unfold not_slug_char at 1.
  destruct (Re.slug_char (Js.lower c)) eqn:E; cbn [negb];
    (destruct i as [|i]; [cbn; rewrite E; reflexivity|apply IH]).
Qed.

Lemma default_name_length (s : string) :
  String.length (default_name s) = String.length s.
Proof.
  unfold default_name.
  induction s as [|c s IH]; [reflexivity|].
  rewrite replace_class_step.
  destruct (not_slug_char (Js.lower c)); cbn [String.length]; f_equal; exact IH.
Qed.

Lemma detect_context_soul (fs : FS) (ws : string) :
  ctx_get
    (detect_context fs ws ["IDENTITY.md"; "TOOLS.md"; "AGENTS.md"; "HEARTBEAT.md"]
       [("soul", "SOUL.md")]) "soul"
  = Some "SOUL.md".
Proof.
  cbn [detect_context].
  repeat match goal with
         | |- context [Fs.pathExists ?a ?b] => destruct (Fs.pathExists a b)
         end; reflexivity.
Qed.

Lemma replace_class_get (cls : ascii -> bool) (r : ascii) (s : string) (i : nat) :
  String.get i (Js.replace_class cls (String r "") s)
  = (fun c => if cls c then r else c) <$> String.get i s.
Proof.
  revert i. induction s as [|c s IH]; intros i; [reflexivity|].
  cbn [Js.replace_class].
  destruct (cls c) eqn:E;
    change (String ?a "" +:+ ?b) with (String a b);
    (destruct i as [|i]; [cbn; rewrite E; reflexivity|apply IH]).
Qed.

Lemma replace_class_length (cls : ascii -> bool) (r : ascii) (s : string) :
  String.length (Js.replace_class cls (String r "") s) = String.length s.
Proof.
  induction s as [|c s IH]; [reflexivity|].
  cbn [Js.replace_class].
  destruct (cls c); change (String ?a "" +:+ ?b) with (String a b);
    cbn [String.length]; f_equal; exact IH.
Qed.

(** C9, as the code has it.  With no name in the options,
    generateManifest throws exactly when [skills] in the workspace is a
    regular file (the directory listing throws); otherwise it returns a
    manifest whose name is the base name of the root in lower case, with
    each code unit outside [a-z0-9-] replaced by a hyphen of its own (so
    the name is as long as the lowercased base name: runs are not
    collapsed, and hyphens stay as they are), whose version is 1.0.0 and
    whose context.soul is SOUL.md. *)
Theorem generate_defaults (fs : FS) (ws : string) (options : GenerateOptions) :
  Js.truthy (opt_name options) = false ->
  match generateManifest fs ws options with
  | Returns m =>
      let d := Js.toLowerCase (Path.basename ws) in
      (exists n, name m = Some n
         /\ String.length n = String.length d
         /\ forall i, String.get i n
              = (fun c => if Re.slug_char c then c else "-"%char)
                  <$> String.get i d)
      /\ version m = Some "1.0.0"
      /\ context_field m "soul" = Some "SOUL.md"
      /\ forall c, Fs.find fs (Path.join [ws; "skills"]) <> Some (File c)
  | Throws _ => exists c, Fs.find fs (Path.join [ws; "skills"]) = Some (File c)
  end.
Proof.
  intros Hname. unfold generateManifest, detect_skills, Fs.readdir_types,
    Fs.scandir, Fs.pathExists.
  destruct (Fs.find fs (Path.join [ws; "skills"])) as [[|c]|] eqn:Hs;
    cbn [obind].
  2: { exists c. reflexivity. }
  all: repeat match goal with
         | |- context [match ?l with [] => Returns None | _ :: _ => _ end] =>
             destruct l
         end; cbn [obind name version context_field context mbind option_bind].
  all: split; [|split; [reflexivity|split; [apply detect_context_soul|discriminate]]].
  all: exists (default_name (Path.basename ws)).
  all: split; [|split].
  all: try (f_equal; unfold Js.orElse; destruct (opt_name options) as [[|? ?]|];
            first [reflexivity|discriminate]).
  all: try apply replace_class_length.
  all: intros i; unfold default_name; rewrite replace_class_get;
    destruct (String.get i _) as [c|]; [|reflexivity]; cbn;
    unfold not_slug_char; destruct (Re.slug_char c); reflexivity.
Qed.

Lemma generate_defaults_witness :
  match generateManifest Examples.workspace "/home/u/Aria_2"
          {| opt_name := None; opt_description := None |} with
  | Returns m =>
      name m = Some "aria-2" /\ version m = Some "1.0.0"
      /\ context_field m "soul" = Some "SOUL.md"
  | Throws _ => False
  end.
Proof.
  pose proof (generate_defaults Examples.workspace "/home/u/Aria_2"
                {| opt_name := None; opt_description := None |} eq_refl) as H.
  vm_compute in H. vm_compute.
  destruct H as (_ & Hv & Hs & _). repeat split; assumption.
Defined.

(** A capital with an accent (here U+00C9) becomes its small letter
    (U+00E9), which is outside [a-z0-9-] and so gives one hyphen. *)
Example default_name_latin1 :
  Js.toLowerCase ("Caf" +:+ String "201" "") = "caf" +:+ String "233" ""
  /\ default_name ("Caf" +:+ String "201" "") = "caf-".
Proof. split; reflexivity. Qed.

(** Two spaces in the directory name give two hyphens, not the single one
    of a collapsed run. *)
Lemma default_name_keeps_runs :
  match generateManifest Examples.workspace "/home/u/My  Agent"
          {| opt_name := None; opt_description := None |} with
  | Returns m =>
      name m = Some "my--agent"
      /\ spec_default_name "My  Agent" = "my-agent"
      /\ name m <> Some (spec_default_name "My  Agent")
  | Throws _ => False
  end.
Proof. vm_compute. repeat split. discriminate. Qed.

End Generator.

(** ** The exclusion filter *)

Section Exclusion.

Variable P : Platform.

Lemma string_prefix_iff (p s : string) :
  String.prefix p s = true <-> exists rest, s = p +:+ rest.
Proof.
  revert s. induction p as [|c p IH]; intros s.
  - split; [intros _; exists s; reflexivity|destruct s; reflexivity].
  - destruct s as [|d s]; cbn [String.prefix].
    + split; [discriminate|intros [rest H]; discriminate H].
    + destruct (ascii_dec c d) as [->|Hne].
      * rewrite IH. split; intros [rest H]; exists rest.
        -- rewrite H. reflexivity.
        -- injection H as H. exact H.
      * split; [discriminate|].
        intros [rest H]. injection H as H1 H2. congruence.
Qed.

Lemma string_prefix_refl (s : string) : String.prefix s s = true.
Proof.
  apply string_prefix_iff. exists "". induction s as [|c s IH]; [reflexivity|].
  change (String c s = String c (s +:+ "")). f_equal. exact IH.
Qed.

(** What the code does with a pattern without a wildcard: it excludes a
    candidate exactly when the candidate starts with the pattern as a
    string, whatever follows.  The second disjunct of the test, equality,
    never decides anything. *)
Lemma literal_pattern_is_string_prefix (pattern file : string) :
  Js.includes pattern "*" = false ->
  Scanner.pattern_excludes P pattern file = Returns (String.prefix pattern file)
  /\ (Scanner.pattern_excludes P pattern file = Returns true
      <-> exists rest, file = pattern +:+ rest).
Proof.
  intros Hlit.
  assert (E : Scanner.pattern_excludes P pattern file
              = Returns (String.prefix pattern file)).
  { unfold Scanner.pattern_excludes. rewrite Hlit. unfold Js.startsWith.
    destruct (String.eqb_spec file pattern) as [->|_].
    - rewrite string_prefix_refl. reflexivity.
    - rewrite orb_false_r. reflexivity. }
  split; [exact E|]. rewrite E, <- string_prefix_iff.
  split; [intros [= ->]; reflexivity|intros ->; reflexivity].
Qed.

Lemma excluded_false_all (patterns : list string) (file : string) :
  Scanner.excluded P patterns file = Returns false ->
  forall p, p ∈ patterns -> Scanner.pattern_excludes P p file = Returns false.
Proof.
  induction patterns as [|q qs IH]; intros H p Hp; [inversion Hp|].
  cbn [Scanner.excluded] in H.
  destruct (Scanner.pattern_excludes P q file) as [[|]|e] eqn:Hq;
    cbn [obind] in H; try discriminate.
  apply elem_of_cons in Hp as [->|Hp]; [exact Hq|exact (IH H p Hp)].
Qed.

Lemma filter_excluded_kept (patterns files kept : list string) :
  Scanner.filter_excluded P patterns files = Returns kept ->
  forall x, x ∈ kept ->
    x ∈ files /\ Scanner.excluded P patterns x = Returns false.
Proof.
  revert kept. induction files as [|f fs IH]; intros kept H x Hx.
  - injection H as <-. inversion Hx.
  - cbn [Scanner.filter_excluded] in H.
    destruct (Scanner.excluded P patterns f) as [hit|e] eqn:Hf;
      cbn [obind] in H; [|discriminate].
    destruct (Scanner.filter_excluded P patterns fs) as [kept'|e] eqn:Hfs;
      cbn [obind] in H; [|discriminate].
    injection H as <-. destruct hit.
    + destruct (IH kept' eq_refl x Hx) as [H1 H2].
      split; [right; exact H1|exact H2].
    + apply elem_of_cons in Hx as [->|Hx].
      * split; [left|exact Hf].
      * destruct (IH kept' eq_refl x Hx) as [H1 H2].
        split; [right; exact H1|exact H2].
Qed.

Lemma unique_from_subset (seen l : list string) (x : string) :
  x ∈ Scanner.unique_from seen l -> x ∈ l.
Proof.
  revert seen. induction l as [|y l IH]; intros seen H; [exact H|].
  cbn [Scanner.unique_from] in H. case_bool_decide.
  - right. exact (IH _ H).
  - apply elem_of_cons in H as [->|H]; [left|right; exact (IH _ H)].
Qed.

(** The scan returns when the manifest has a context and every wildcard
    pattern compiles. *)
Lemma scanWorkspace_returns (fs : FS) (ws : string) (m : PorterManifest) :
  is_Some (context m) ->
  (forall p, p ∈ Scanner.excludePatterns m -> Js.includes p "*" = true ->
     is_Some (RegExp P ("^" +:+ Scanner.star_to_regex p +:+ "$"))) ->
  exists r, Scanner.scanWorkspace P fs ws m = Returns r.
Proof.
  intros [ctx Hctx] Hre. unfold Scanner.scanWorkspace. rewrite Hctx.
  destruct (Scanner.candidates P fs ws m ctx) as [files warns].
  assert (Hpat : forall p f, p ∈ Scanner.excludePatterns m ->
            exists b, Scanner.pattern_excludes P p f = Returns b).
  { intros p f Hp. unfold Scanner.pattern_excludes.
    destruct (Js.includes p "*") eqn:E; [|eexists; reflexivity].
    destruct (Hre p Hp E) as [t ->]. eexists; reflexivity. }
  assert (Hex : forall f, exists b,
            Scanner.excluded P (Scanner.excludePatterns m) f = Returns b).
  { intros f. revert Hpat. generalize (Scanner.excludePatterns m).
    intros l. induction l as [|p l IH]; intros Hpat; [eexists; reflexivity|].
    cbn [Scanner.excluded].
    destruct (Hpat p f) as [b ->]; [left|]. cbn [obind].
    destruct b; [eexists; reflexivity|].
    apply IH. intros q g Hq. apply Hpat. right. exact Hq. }
  assert (Hfilter : exists kept,
            Scanner.filter_excluded P (Scanner.excludePatterns m) files
            = Returns kept).
  { induction files as [|f l IH]; [eexists; reflexivity|].
    cbn [Scanner.filter_excluded].
    destruct (Hex f) as [b ->]. destruct IH as [kept ->].
    cbn [obind]. eexists; reflexivity. }
  destruct Hfilter as [kept ->]. cbn [obind]. eexists; reflexivity.
Qed.

(** A path that some exclusion pattern matches is in no scan result. *)
Lemma excluded_path_not_scanned (fs : FS) (ws : string) (m : PorterManifest)
    (r : Scanner.ScanResult) (p x : string) :
  Scanner.scanWorkspace P fs ws m = Returns r ->
  p ∈ Scanner.excludePatterns m ->
  Scanner.pattern_excludes P p x = Returns true ->
  x ∉ Scanner.files r.
Proof.
  intros Hscan Hp Hhit Hx. unfold Scanner.scanWorkspace in Hscan.
  destruct (context m) as [ctx|]; [|discriminate].
  destruct (Scanner.candidates P fs ws m ctx) as [files warns].
  destruct (Scanner.filter_excluded P (Scanner.excludePatterns m) files)
    as [kept|e] eqn:Hk; cbn [obind] in Hscan; [|discriminate].
  injection Hscan as <-. cbn [Scanner.files] in Hx.
  apply unique_from_subset in Hx.
  destruct (filter_excluded_kept _ _ _ Hk x Hx) as [_ Hfalse].
  pose proof (excluded_false_all _ _ Hfalse p Hp) as H.
  congruence.
Qed.

Lemma unique_from_complete (seen l : list string) (x : string) :
  x ∈ l -> x ∉ seen -> x ∈ Scanner.unique_from seen l.
Proof.
  revert seen. induction l as [|y l IH]; intros seen Hx Hseen; [inversion Hx|].
  cbn [Scanner.unique_from]. case_bool_decide as Hy.
  - apply elem_of_cons in Hx as [->|Hx]; [contradiction|exact (IH _ Hx Hseen)].
  - destruct (decide (x = y)) as [->|Hne]; [left|].
    right. apply IH.
    + apply elem_of_cons in Hx as [->|Hx]; [contradiction|exact Hx].
    + intros [->|H]%elem_of_cons; [contradiction|exact (Hseen H)].
Qed.

(** The manifest is the first candidate, and it is in the result exactly
    when no exclusion pattern, default or declared, matches it. *)
Lemma manifest_listed_iff_not_excluded (fs : FS) (ws : string)
    (m : PorterManifest) (r : Scanner.ScanResult) :
  Scanner.scanWorkspace P fs ws m = Returns r ->
  "porter.yaml" ∈ Scanner.files r
  <-> Scanner.excluded P (Scanner.excludePatterns m) "porter.yaml"
      = Returns false.
Proof.
  intros Hscan. unfold Scanner.scanWorkspace in Hscan.
  destruct (context m) as [ctx|]; [|discriminate].
  unfold Scanner.candidates in Hscan.
  cbn [Scanner.chunks foldr Scanner.chunk_app fst snd app] in Hscan.
  match type of Hscan with
  | context [Scanner.filter_excluded P ?ps ("porter.yaml" :: ?rest)] =>
      destruct (Scanner.filter_excluded P ps ("porter.yaml" :: rest))
        as [kept|e] eqn:Hk
  end; cbn [obind] in Hscan; [|discriminate].
  injection Hscan as <-. cbn [Scanner.files]. split.
  - intros Hin%unique_from_subset.
    exact (proj2 (filter_excluded_kept _ _ _ Hk _ Hin)).
  - intros Hfalse. cbn [Scanner.filter_excluded] in Hk.
    rewrite Hfalse in Hk. cbn [obind] in Hk.
    match type of Hk with
    | context [Scanner.filter_excluded P ?ps ?rest] =>
        destruct (Scanner.filter_excluded P ps rest) as [kept'|e']
    end; cbn [obind] in Hk; [|discriminate].
    injection Hk as <-. apply unique_from_complete; [left|inversion 1].
Qed.

(** The default pattern USER.md keeps the spelling [USER.md] out of every
    file list. *)
Lemma user_md_never_scanned (fs : FS) (ws : string) (m : PorterManifest)
    (r : Scanner.ScanResult) :
  Scanner.scanWorkspace P fs ws m = Returns r ->
  "USER.md" ∉ Scanner.files r.
Proof.
  intros Hscan.
  apply (excluded_path_not_scanned fs ws m r "USER.md" "USER.md" Hscan).
  - unfold Scanner.excludePatterns. apply elem_of_app; left.
    unfold DEFAULT_EXCLUDES. do 8 right. left.
  - reflexivity.
Qed.

End Exclusion.

(** The user profile listed as a context entry and as an asset, next to a
    pattern of the manifest's own. *)
Example user_md_declared_twice :
  let m :=
    Examples.with_exclude ["*.tmp"]
      (Examples.with_assets ["USER.md"]
         (Examples.with_context [("soul", "SOUL.md"); ("identity", "USER.md")]
            (Examples.agent "test-agent"))) in
  Scanner.scanWorkspace Examples.node Examples.workspace "/w" m
  = Returns {| Scanner.files := ["porter.yaml"; "SOUL.md"];
               Scanner.totalSize := 22; Scanner.warnings := [] |}
  /\ "USER.md" ∉ ["porter.yaml"; "SOUL.md"].
Proof.
  intros m.
  assert (H : Scanner.scanWorkspace Examples.node Examples.workspace "/w" m
              = Returns {| Scanner.files := ["porter.yaml"; "SOUL.md"];
                           Scanner.totalSize := 22; Scanner.warnings := [] |})
    by (vm_compute; reflexivity).
  split; [exact H|].
  exact (user_md_never_scanned Examples.node Examples.workspace "/w" m _ H).
Qed.

(** C2. The user profile is exported under another spelling.  The context
    entry [./USER.md], and likewise the seed [./USER.md], passes the
    validator and names the file [USER.md] of the workspace; the default
    pattern [USER.md] compares spellings, so the scan lists the entry and
    counts the 16 bytes of the profile. *)
Theorem user_md_other_spelling :
  let declared :=
    Examples.with_context [("soul", "SOUL.md"); ("identity", "./USER.md")]
      (Examples.agent "test-agent") in
  let seeded :=
    Examples.with_seeds ["./USER.md"] (Examples.agent "test-agent") in
  Path.join ["/w"; "./USER.md"] = Path.join ["/w"; "USER.md"]
  /\ Fs.readFile Examples.workspace (Path.join ["/w"; "./USER.md"])
     = Some "- Name: John Doe"
  /\ Forall (fun m =>
               valid (validateManifest m) = true
               /\ Scanner.scanWorkspace Examples.node Examples.workspace "/w" m
                  = Returns {| Scanner.files := ["porter.yaml"; "SOUL.md"; "./USER.md"];
                               Scanner.totalSize := 38;
                               Scanner.warnings := [] |})
       [declared; seeded].
Proof.
  intros declared seeded.
  split; [vm_compute; reflexivity|]. split; [vm_compute; reflexivity|].
  repeat (constructor; [split; vm_compute; reflexivity|]). constructor.
Qed.

(** C7. The literal pattern USER.md takes USER.md.template with it, which
    is neither the pattern nor in a directory of that name: the template
    that the workspace holds and the manifest lists as an asset is not in
    the file list of the scan. *)
Theorem literal_pattern_hits_longer_name :
  Js.includes "USER.md" "*" = false
  /\ Scanner.pattern_excludes Examples.node "USER.md" "USER.md.template"
     = Returns true
  /\ ~ spec_literal_match "USER.md" "USER.md.template"
  /\ Fs.pathExists Examples.workspace (Path.join ["/w"; "USER.md.template"]) = true
  /\ Scanner.scanWorkspace Examples.node Examples.workspace "/w"
       (Examples.with_assets ["USER.md.template"] (Examples.agent "test-agent"))
     = Returns {| Scanner.files := ["porter.yaml"; "SOUL.md"];
                  Scanner.totalSize := 22; Scanner.warnings := [] |}.
Proof.
  split; [reflexivity|]. split; [reflexivity|].
  split; [intros [H|H]; discriminate H|].
  split; vm_compute; reflexivity.
Qed.

(** The same test on a pattern that names a directory, and on a name that
    does not start with the pattern. *)
Example literal_pattern_on_directory :
  Scanner.pattern_excludes Examples.node "memory/" "memory/notes.md"
  = Returns true
  /\ Scanner.pattern_excludes Examples.node "USER.md" "SOUL.md" = Returns false.
Proof.
  split.
  - exact (proj1 (literal_pattern_is_string_prefix Examples.node
                    "memory/" "memory/notes.md" eq_refl)).
  - exact (proj1 (literal_pattern_is_string_prefix Examples.node
                    "USER.md" "SOUL.md" eq_refl)).
Qed.

(** C6. An exclusion pattern of the manifest that matches porter.yaml,
    literally or through a wildcard, removes the manifest from the file
    list: the scan of a workspace holding porter.yaml and SOUL.md returns
    SOUL.md alone. *)
Theorem manifest_dropped_by_exclude :
  Scanner.scanWorkspace Examples.node Examples.workspace "/w"
    (Examples.with_exclude ["porter.yaml"] (Examples.agent "test-agent"))
  = Returns {| Scanner.files := ["SOUL.md"]; Scanner.totalSize := 6;
               Scanner.warnings := [] |}
  /\ Scanner.scanWorkspace Examples.node Examples.workspace "/w"
       (Examples.with_exclude ["*.yaml"] (Examples.agent "test-agent"))
     = Returns {| Scanner.files := ["SOUL.md"]; Scanner.totalSize := 6;
                  Scanner.warnings := [] |}.
Proof. split; vm_compute; reflexivity. Qed.

(** ** Strings and paths *)

Section Paths.

Implicit Types (p : string) (l segs acc : list string).

Lemma filter_none {A} (Q : A -> Prop) `{forall x, Decision (Q x)} (l : list A) :
  (forall x, x ∈ l -> ~ Q x) -> filter Q l = [].
Proof.
  induction l as [|a l IH]; intros Hl; [reflexivity|].
  rewrite filter_cons_False by (apply Hl; left).
  apply IH. intros x Hx. apply Hl. right. exact Hx.
Qed.

Lemma filter_every {A} (Q : A -> Prop) `{forall x, Decision (Q x)} (l : list A) :
  (forall x, x ∈ l -> Q x) -> filter Q l = l.
Proof.
  induction l as [|a l IH]; intros Hl; [reflexivity|].
  rewrite filter_cons_True by (apply Hl; left).
  f_equal. apply IH. intros x Hx. apply Hl. right. exact Hx.
Qed.

Lemma includes_char_cons (c a : ascii) (s : string) :
  Js.includes (String c s) (String a "")
  = Ascii.eqb c a || Js.includes s (String a "").
Proof.
  cbn [Js.includes String.prefix].
  destruct (ascii_dec a c) as [->|Hne].
  - rewrite Ascii.eqb_refl. destruct s; reflexivity.
  - assert (Ascii.eqb c a = false) as -> by (apply Ascii.eqb_neq; congruence).
    reflexivity.
Qed.

Lemma includes_char_app (a : ascii) (s t : string) :
  Js.includes (s +:+ t) (String a "")
  = Js.includes s (String a "") || Js.includes t (String a "").
Proof.
  induction s as [|c s IH].
  - change ("" +:+ t) with t. destruct t; reflexivity.
  - change (String c s +:+ t) with (String c (s +:+ t)).
    rewrite !includes_char_cons, IH, orb_assoc. reflexivity.
Qed.

Lemma split_on_plain (sep : ascii) (s : string) :
  Js.includes s (String sep "") = false -> Js.split_on sep s = [s].
Proof.
  induction s as [|c s IH]; [reflexivity|].
  rewrite includes_char_cons. intros [Hc Hs]%orb_false_iff.
  cbn [Js.split_on]. rewrite Hc, (IH Hs). reflexivity.
Qed.

Lemma split_on_app (sep : ascii) (p rest : string) :
  Js.includes p (String sep "") = false ->
  Js.split_on sep (p +:+ String sep rest) = p :: Js.split_on sep rest.
Proof.
  induction p as [|c p IH].
  - intros _. change ("" +:+ String sep rest) with (String sep rest).
    cbn [Js.split_on]. rewrite Ascii.eqb_refl. reflexivity.
  - rewrite includes_char_cons. intros [Hc Hp]%orb_false_iff.
    change (String c p +:+ String sep rest) with (String c (p +:+ String sep rest)).
    cbn [Js.split_on]. rewrite Hc, (IH Hp). reflexivity.
Qed.

Lemma split_on_parts (sep : ascii) (s x : string) :
  x ∈ Js.split_on sep s ->
  Js.includes x (String sep "") = false
  /\ forall a, Js.includes s (String a "") = false ->
               Js.includes x (String a "") = false.
Proof.
  revert x. induction s as [|c s IH]; intros x Hx.
  - apply list_elem_of_singleton in Hx as ->. split; [reflexivity|auto].
  - cbn [Js.split_on] in Hx. destruct (Ascii.eqb c sep) eqn:Hc.
    + apply elem_of_cons in Hx as [->|Hx]; [split; [reflexivity|reflexivity]|].
      destruct (IH x Hx) as [H1 H2]. split; [exact H1|].
      intros a. rewrite includes_char_cons. intros [_ Hs]%orb_false_iff. auto.
    + destruct (Js.split_on sep s) as [|hd tl] eqn:E.
      * apply list_elem_of_singleton in Hx as ->.
        assert (Hin : "" ∈ Js.split_on sep s).
        { destruct s; cbn in E; [discriminate|].
          destruct (Ascii.eqb a sep); [discriminate|].
          destruct (Js.split_on sep s); discriminate. }
        rewrite E in Hin. inversion Hin.
      * apply elem_of_cons in Hx as [->|Hx].
        -- destruct (IH hd) as [H1 H2]; [left|].
           split.
           ++ rewrite includes_char_cons, Hc, H1. reflexivity.
           ++ intros a. rewrite !includes_char_cons.
              intros [Ha Hs]%orb_false_iff. rewrite Ha, (H2 a Hs). reflexivity.
        -- destruct (IH x) as [H1 H2]; [right; exact Hx|].
           split; [exact H1|]. intros a. rewrite includes_char_cons.
           intros [_ Hs]%orb_false_iff. auto.
Qed.

Lemma string_app_assoc (a b c : string) : (a +:+ b) +:+ c = a +:+ b +:+ c.
Proof.
  induction a as [|x a IH]; [reflexivity|].
  change (String x (a +:+ b) +:+ c = String x (a +:+ b +:+ c)).
  change (String x ((a +:+ b) +:+ c) = String x (a +:+ b +:+ c)).
  f_equal. exact IH.
Qed.

Lemma startsWith_app (pre s : string) : Js.startsWith (pre +:+ s) pre = true.
Proof.
  unfold Js.startsWith. induction pre as [|c pre IH]; [destruct s; reflexivity|].
  change (String c pre +:+ s) with (String c (pre +:+ s)).
  cbn [String.prefix]. destruct (ascii_dec c c); [exact IH|contradiction].
Qed.

Lemma sliceFrom_app (pre s : string) :
  Js.sliceFrom (String.length pre) (pre +:+ s) = s.
Proof. induction pre as [|c pre IH]; [reflexivity|exact IH]. Qed.

Lemma join_with_nonempty (l : list string) :
  (exists x, x ∈ l /\ x <> "") -> Js.join_with "/" l <> "".
Proof.
  induction l as [|a l IH]; intros (x & Hx & Hne); [inversion Hx|].
  destruct l as [|b l].
  - apply list_elem_of_singleton in Hx as ->. exact Hne.
  - cbn [Js.join_with]. destruct a as [|c a]; [|discriminate].
    change ("" +:+ "/" +:+ Js.join_with "/" (b :: l))
      with (String "/" (Js.join_with "/" (b :: l))).
    discriminate.
Qed.

Lemma normalize_nonempty (p : string) : Path.normalize p <> "".
Proof.
  unfold Path.normalize. destruct (String.eqb p ""); [discriminate|].
  destruct (String.eqb (Js.join_with "/" _) "") eqn:E.
  - destruct (Js.startsWith p "/"); [discriminate|].
    destruct (Js.endsWith p "/"); discriminate.
  - apply String.eqb_neq in E.
    destruct (Js.join_with "/" _) as [|c body]; [contradiction|].
    destruct (Js.endsWith p "/"), (Js.startsWith p "/"); discriminate.
Qed.

Lemma join_nonempty (parts : list string) : Path.join parts <> "".
Proof.
  unfold Path.join. destruct (filter _ parts); [discriminate|].
  apply normalize_nonempty.
Qed.

Lemma split_on_cons (sep : ascii) (s : string) :
  exists hd tl, Js.split_on sep s = hd :: tl /\ String.prefix hd s = true.
Proof.
  induction s as [|c s IH]; [exists "", []; split; reflexivity|].
  cbn [Js.split_on]. destruct (Ascii.eqb c sep).
  - exists "", (Js.split_on sep s). split; reflexivity.
  - destruct IH as (hd & tl & -> & Hpre).
    exists (String c hd), tl. split; [reflexivity|].
    cbn [String.prefix]. destruct (ascii_dec c c); [exact Hpre|contradiction].
Qed.

Lemma split_on_concat (sep : ascii) (a b : string) :
  Js.split_on sep (a +:+ String sep b) = Js.split_on sep a ++ Js.split_on sep b.
Proof.
  induction a as [|c a IH].
  - change ("" +:+ String sep b) with (String sep b).
    cbn [Js.split_on]. rewrite Ascii.eqb_refl. reflexivity.
  - change (String c a +:+ String sep b) with (String c (a +:+ String sep b)).
    cbn [Js.split_on]. rewrite IH. destruct (Ascii.eqb c sep); [reflexivity|].
    destruct (split_on_cons sep a) as (hd & tl & -> & _). reflexivity.
Qed.

(** Every piece of a split is a substring of what was split. *)
Lemma split_on_substring (sep : ascii) (s x : string) :
  x ∈ Js.split_on sep s -> Js.includes s x = true.
Proof.
  revert x. induction s as [|c s IH]; intros x Hx.
  - apply list_elem_of_singleton in Hx as ->. reflexivity.
  - cbn [Js.split_on] in Hx. cbn [Js.includes]. apply orb_true_iff.
    destruct (Ascii.eqb c sep).
    + apply elem_of_cons in Hx as [->|Hx]; [left; reflexivity|right; auto].
    + destruct (split_on_cons sep s) as (hd & tl & E & Hpre). rewrite E in Hx.
      apply elem_of_cons in Hx as [->|Hx].
      * left. cbn [String.prefix].
        destruct (ascii_dec c c); [exact Hpre|contradiction].
      * right. apply IH. rewrite E. right. exact Hx.
Qed.

Lemma normalize_segments_app (b : bool) (l1 l2 : list string) :
  forall acc,
    Path.normalize_segments b acc (l1 ++ l2)
    = Path.normalize_segments b (rev (Path.normalize_segments b acc l1)) l2.
Proof.
  induction l1 as [|seg l1 IH]; intros acc.
  - cbn. rewrite rev_involutive. reflexivity.
  - cbn [app Path.normalize_segments].
    destruct (String.eqb seg "" || String.eqb seg "."); [apply IH|].
    destruct (String.eqb seg ".."); [|apply IH].
    destruct acc as [|last acc']; [apply IH|].
    destruct (String.eqb last ".."); apply IH.
Qed.

Lemma normalize_segments_plain (b : bool) (l : list string) :
  ".." ∉ l ->
  forall acc,
    Path.normalize_segments b acc l
    = rev acc ++ filter (fun s => s <> "" /\ s <> ".") l.
Proof.
  induction l as [|seg l IH]; intros Hl acc.
  - cbn. rewrite app_nil_r. reflexivity.
  - assert (Hseg : seg <> "..") by (intros ->; apply Hl; left).
    assert (Hl' : ".." ∉ l) by (intros H; apply Hl; right; exact H).
    cbn [Path.normalize_segments].
    destruct (String.eqb_spec seg "") as [->|H1]; cbn [orb].
    + rewrite filter_cons_False by (intros [H _]; contradiction). apply IH, Hl'.
    + destruct (String.eqb_spec seg ".") as [->|H2].
      * rewrite filter_cons_False by (intros [_ H]; contradiction). apply IH, Hl'.
      * destruct (String.eqb_spec seg "..") as [->|_]; [contradiction|].
        rewrite filter_cons_True by (split; assumption).
        rewrite (IH Hl'). cbn [rev]. rewrite <- app_assoc. reflexivity.
Qed.

Lemma elem_of_rev {A} (l : list A) (x : A) : x ∈ rev l <-> x ∈ l.
Proof. rewrite !list_elem_of_In. symmetry. apply in_rev. Qed.

Lemma plain_spec (s : string) :
  Path.plain s = true
  <-> s <> "" /\ s <> "." /\ s <> ".." /\ Js.includes s "/" = false.
Proof.
  unfold Path.plain.
  destruct (String.eqb_spec s "") as [->|H1]; cbn [orb negb andb];
    [split; [discriminate|intros [H _]; contradiction]|].
  destruct (String.eqb_spec s ".") as [->|H2]; cbn [orb negb andb];
    [split; [discriminate|intros (_ & H & _); contradiction]|].
  destruct (String.eqb_spec s "..") as [->|H3]; cbn [orb negb andb];
    [split; [discriminate|intros (_ & _ & H & _); contradiction]|].
  destruct (Js.includes s "/"); cbn [negb]; split; try discriminate; auto.
  intros (_ & _ & _ & H). discriminate H.
Qed.

(** Names go onto the stack as they are. *)
Lemma normalize_segments_names (b : bool) l :
  Forall (fun s => Path.plain s = true) l ->
  forall acc, Path.normalize_segments b acc l = rev acc ++ l.
Proof.
  intros Hl acc. rewrite normalize_segments_plain.
  - f_equal. apply filter_every. intros s Hs.
    rewrite Forall_forall in Hl. apply Hl, plain_spec in Hs as (H1 & H2 & _).
    split; assumption.
  - intros Hin. rewrite Forall_forall in Hl.
    apply Hl, plain_spec in Hin as (_ & _ & H & _). contradiction.
Qed.

(** What the stack machine leaves when it may not rise above the root:
    no [..], and nothing empty or [.], if the stack it started from had
    none. *)
Lemma normalize_segments_kept segs :
  forall acc, Forall kept acc ->
    Forall kept (Path.normalize_segments false acc segs).
Proof.
  induction segs as [|seg segs IH]; intros acc Hacc.
  - cbn. apply Forall_rev, Hacc.
  - cbn [Path.normalize_segments].
    destruct (String.eqb_spec seg "") as [->|H1]; cbn [orb]; [apply IH, Hacc|].
    destruct (String.eqb_spec seg ".") as [->|H2]; [apply IH, Hacc|].
    destruct (String.eqb_spec seg "..") as [->|H3].
    + destruct acc as [|top acc']; [apply IH, Hacc|].
      destruct (String.eqb top ".."); apply IH;
        [exact Hacc|exact (Forall_inv_tail Hacc)].
    + apply IH. constructor; [repeat split; assumption|exact Hacc].
Qed.

Lemma normalize_segments_noslash (b : bool) segs :
  forall acc,
    Forall (fun s => Js.includes s "/" = false) acc ->
    Forall (fun s => Js.includes s "/" = false) segs ->
    Forall (fun s => Js.includes s "/" = false)
      (Path.normalize_segments b acc segs).
Proof.
  induction segs as [|seg segs IH]; intros acc Hacc Hsegs.
  - cbn. apply Forall_rev, Hacc.
  - pose proof (Forall_inv Hsegs) as Hseg.
    pose proof (Forall_inv_tail Hsegs) as Hrest.
    cbn [Path.normalize_segments].
    destruct (String.eqb seg "" || String.eqb seg "."); [exact (IH _ Hacc Hrest)|].
    destruct (String.eqb seg "..").
    + destruct acc as [|top acc'].
      * apply IH; [|exact Hrest]. destruct b; repeat constructor.
      * destruct (String.eqb top "..").
        -- apply IH; [|exact Hrest]. destruct b; [|exact Hacc].
           constructor; [reflexivity|exact Hacc].
        -- apply IH; [exact (Forall_inv_tail Hacc)|exact Hrest].
    + apply IH; [constructor; assumption|exact Hrest].
Qed.

Lemma segments_noslash p :
  Forall (fun s => Js.includes s "/" = false) (Path.segments p).
Proof.
  apply Forall_forall. intros x Hx.
  exact (proj1 (split_on_parts "/" p x Hx)).
Qed.

(** The names of a resolved path. *)
Lemma kept_noslash_plain l :
  Forall kept l -> Forall (fun s => Js.includes s "/" = false) l ->
  Forall (fun s => Path.plain s = true) l.
Proof.
  intros Hk Hn. apply Forall_forall. intros s Hs.
  rewrite Forall_forall in Hk, Hn. apply plain_spec.
  destruct (Hk s Hs) as (H1 & H2 & H3). repeat split; auto.
Qed.

Lemma resolve_segments_plain (cwd p : string) :
  Forall (fun s => Path.plain s = true) (Path.resolve_segments cwd p).
Proof.
  unfold Path.resolve_segments. apply kept_noslash_plain.
  - apply normalize_segments_kept. constructor.
  - apply normalize_segments_noslash; [constructor|apply segments_noslash].
Qed.

(** [k] steps up from a stack without [..]. *)
Lemma normalize_segments_dots (k : nat) :
  forall acc l, ".." ∉ acc ->
    Path.normalize_segments false acc (repeat ".." k ++ l)
    = Path.normalize_segments false (drop k acc) l.
Proof.
  induction k as [|k IH]; intros acc l Hacc; [reflexivity|].
  cbn [repeat app Path.normalize_segments String.eqb orb Ascii.eqb Bool.eqb].
  destruct acc as [|top acc']; [rewrite (IH [] l Hacc); destruct k; reflexivity|].
  destruct (String.eqb_spec top "..") as [->|_]; [exfalso; apply Hacc; left|].
  apply IH. intros H. apply Hacc. right. exact H.
Qed.

(** Normalizing a relative path first and resolving it then is resolving
    it at once. *)
Lemma normalize_segments_relative segs :
  forall (cl : list string) (k : nat) (ao : list string),
    Forall kept cl -> ".." ∉ ao ->
    Path.normalize_segments false ao
      (Path.normalize_segments true (cl ++ repeat ".." k) segs)
    = Path.normalize_segments false (cl ++ drop k ao) segs.
Proof.
  induction segs as [|seg segs IH]; intros cl k ao Hcl Hao.
  - cbn [Path.normalize_segments]. rewrite rev_app_distr.
    assert (Hrep : rev (repeat ".." k) = repeat ".." k).
    { clear. induction k as [|k IH]; [reflexivity|].
      cbn [repeat rev]. rewrite IH. clear IH.
      induction k as [|k IH]; [reflexivity|]. cbn. rewrite IH. reflexivity. }
    rewrite Hrep, normalize_segments_dots by exact Hao.
    rewrite normalize_segments_plain.
    + rewrite rev_app_distr. f_equal. apply filter_every.
      intros s Hs. apply (proj1 (elem_of_rev _ _)) in Hs. rewrite Forall_forall in Hcl.
      destruct (Hcl s Hs) as (H1 & H2 & _). split; assumption.
    + intros Hin. apply (proj1 (elem_of_rev _ _)) in Hin. rewrite Forall_forall in Hcl.
      destruct (Hcl _ Hin) as (_ & _ & H). contradiction.
  - cbn [Path.normalize_segments].
    destruct (String.eqb_spec seg "") as [->|H1]; cbn [orb]; [apply IH; assumption|].
    destruct (String.eqb_spec seg ".") as [->|H2]; [apply IH; assumption|].
    destruct (String.eqb_spec seg "..") as [->|H3].
    + destruct cl as [|top cl'].
      * cbn [app]. destruct k as [|k]; cbn [repeat].
        -- pose proof (IH [] 1 ao Hcl Hao) as E. cbn [app repeat] in E.
           rewrite E, drop_0.
           destruct ao as [|t ao']; [reflexivity|].
           change (drop 1 (t :: ao')) with ao'.
           destruct (String.eqb_spec t "..") as [->|_];
             [exfalso; apply Hao; left|reflexivity].
        -- cbn [String.eqb Ascii.eqb Bool.eqb].
           pose proof (IH [] (S (S k)) ao Hcl Hao) as E. cbn [app repeat] in E.
           rewrite E.
           assert (Hd : drop (S (S k)) ao = drop 1 (drop (S k) ao))
             by (rewrite drop_drop; f_equal; lia).
           rewrite Hd.
           destruct (drop (S k) ao) as [|t rest] eqn:Ed; [reflexivity|].
           change (drop 1 (t :: rest)) with rest.
           destruct (String.eqb_spec t "..") as [->|_]; [|reflexivity].
           exfalso. apply Hao. apply (subseteq_drop (S k)). rewrite Ed. left.
      * pose proof (Forall_inv Hcl) as (_ & _ & Htop).
        cbn [app]. destruct (String.eqb_spec top "..") as [->|_]; [contradiction|].
        exact (IH cl' k ao (Forall_inv_tail Hcl) Hao).
    + apply (IH (seg :: cl) k ao); [|exact Hao].
      constructor; [repeat split; assumption|exact Hcl].
Qed.

(** Joining names and splitting again gives the names back. *)
Lemma segments_join l :
  l <> [] -> Forall (fun s => Js.includes s "/" = false) l ->
  Path.segments (Js.join_with "/" l) = l.
Proof.
  unfold Path.segments. induction l as [|x l IH]; [contradiction|].
  intros _ Hl. pose proof (Forall_inv Hl) as Hx.
  pose proof (Forall_inv_tail Hl) as Hrest.
  destruct l as [|y l]; [exact (split_on_plain "/" x Hx)|].
  change (Js.join_with "/" (x :: y :: l))
    with (x +:+ String "/" (Js.join_with "/" (y :: l))).
  rewrite (split_on_app "/" x _ Hx), IH; [reflexivity|discriminate|exact Hrest].
Qed.

Lemma join_with_snoc l (s : string) :
  l <> [] ->
  Js.join_with "/" (l ++ [s]) = Js.join_with "/" l +:+ "/" +:+ s.
Proof.
  induction l as [|x l IH]; [contradiction|]. intros _.
  destruct l as [|y l]; [reflexivity|].
  change (Js.join_with "/" ((x :: y :: l) ++ [s]))
    with (x +:+ "/" +:+ Js.join_with "/" ((y :: l) ++ [s])).
  rewrite IH by discriminate.
  change (Js.join_with "/" (x :: y :: l))
    with (x +:+ "/" +:+ Js.join_with "/" (y :: l)).
  rewrite !string_app_assoc. reflexivity.
Qed.

Lemma startsWith_slash_cons (c : ascii) (s : string) :
  Js.startsWith (String c s) "/" = Ascii.eqb c "/".
Proof.
  unfold Js.startsWith. cbn [String.prefix].
  destruct (ascii_dec "/" c) as [<-|Hne]; [destruct s; reflexivity|].
  symmetry. apply Ascii.eqb_neq. congruence.
Qed.

Lemma startsWith_slash_app (a b : string) :
  a <> "" -> Js.startsWith (a +:+ b) "/" = Js.startsWith a "/".
Proof.
  destruct a as [|c a]; [contradiction|]. intros _.
  change (String c a +:+ b) with (String c (a +:+ b)).
  rewrite !startsWith_slash_cons. reflexivity.
Qed.

Lemma startsWith_slash_name (s : string) :
  Js.includes s "/" = false -> Js.startsWith s "/" = false.
Proof.
  destruct s as [|c s]; [reflexivity|].
  rewrite includes_char_cons, startsWith_slash_cons.
  intros [H _]%orb_false_iff. exact H.
Qed.

Lemma startsWith_slash_join l :
  Forall named l -> Js.startsWith (Js.join_with "/" l) "/" = false.
Proof.
  destruct l as [|x l]; [reflexivity|]. intros Hl.
  pose proof (Forall_inv Hl) as [Hne Hx].
  destruct l as [|y l]; [exact (startsWith_slash_name x Hx)|].
  change (Js.join_with "/" (x :: y :: l))
    with (x +:+ "/" +:+ Js.join_with "/" (y :: l)).
  rewrite startsWith_slash_app by exact Hne.
  exact (startsWith_slash_name _ Hx).
Qed.

(** What the stack machine leaves has no empty name and no separator,
    whether or not it may rise above the root. *)
Lemma normalize_segments_named (b : bool) p :
  forall acc, Forall named acc ->
    Forall named (Path.normalize_segments b acc (Js.split_on "/" p)).
Proof.
  intros acc Hacc.
  assert (Hsegs : Forall (fun s => Js.includes s "/" = false) (Js.split_on "/" p))
    by apply segments_noslash.
  revert acc Hacc. induction (Js.split_on "/" p) as [|seg l IH]; intros acc Hacc.
  - cbn. apply Forall_rev, Hacc.
  - pose proof (Forall_inv Hsegs) as Hseg.
    specialize (IH (Forall_inv_tail Hsegs)).
    cbn [Path.normalize_segments].
    destruct (String.eqb_spec seg "") as [->|H1]; cbn [orb]; [apply IH, Hacc|].
    destruct (String.eqb seg "."); [apply IH, Hacc|].
    destruct (String.eqb seg "..").
    + destruct acc as [|top acc'].
      * apply IH. destruct b; repeat constructor. discriminate.
      * destruct (String.eqb top "..").
        -- apply IH. destruct b; [|exact Hacc].
           constructor; [split; [discriminate|reflexivity]|exact Hacc].
        -- apply IH. exact (Forall_inv_tail Hacc).
    + apply IH. constructor; [split; assumption|exact Hacc].
Qed.

Lemma named_noslash l :
  Forall named l -> Forall (fun s => Js.includes s "/" = false) l.
Proof. intros Hl. apply (Forall_impl _ _ _ Hl). intros s [_ H]. exact H. Qed.

Lemma join_with_named l (x : string) :
  Forall named (x :: l) -> Js.join_with "/" (x :: l) <> "".
Proof.
  intros Hl. apply join_with_nonempty. exists x. split; [left|].
  exact (proj1 (Forall_inv Hl)).
Qed.

Lemma segments_slash_before (s : string) :
  Path.segments ("/" +:+ s) = "" :: Path.segments s.
Proof. reflexivity. Qed.

Lemma segments_slash_after (s : string) :
  Path.segments (s +:+ "/") = Path.segments s ++ [""].
Proof. exact (split_on_concat "/" s ""). Qed.

Lemma normalize_segments_skip (b : bool) acc l :
  Path.normalize_segments b acc (l ++ [""]) = Path.normalize_segments b acc l.
Proof.
  rewrite normalize_segments_app. cbn. apply rev_involutive.
Qed.

(** Normalizing changes nothing for the resolution that follows: the
    segments of [path.normalize(p)] resolve like those of [p]. *)
Lemma segments_normalize p acc :
  p <> "" -> ".." ∉ acc ->
  let start := if Js.startsWith p "/" then [] else acc in
  Path.normalize_segments false start (Path.segments (Path.normalize p))
  = Path.normalize_segments false start (Path.segments p).
Proof.
  intros Hp Hacc. unfold Path.normalize.
  destruct (String.eqb_spec p "") as [->|_]; [contradiction|].
  destruct (Js.startsWith p "/") eqn:Habs; cbn [negb]; cbv zeta.
  - pose proof (normalize_segments_named false p [] (Forall_nil_2 _)) as Hc.
    pose proof (normalize_segments_kept (Js.split_on "/" p) [] (Forall_nil_2 _)) as Hk.
    change (Js.split_on "/" p) with (Path.segments p) in Hc, Hk.
    destruct (Path.normalize_segments false [] (Path.segments p)) as [|x c] eqn:Ec.
    + reflexivity.
    + destruct (String.eqb_spec (Js.join_with "/" (x :: c)) "") as [E|_];
        [destruct (join_with_named _ _ Hc E)|].
      assert (Hplain : Forall (fun s => Path.plain s = true) (x :: c))
        by (apply kept_noslash_plain; [exact Hk|exact (named_noslash _ Hc)]).
      destruct (Js.endsWith p "/"); rewrite segments_slash_before;
        cbn [Path.normalize_segments String.eqb orb];
        rewrite ?segments_slash_after, ?normalize_segments_skip;
        rewrite segments_join by (try discriminate; exact (named_noslash _ Hc));
        rewrite (normalize_segments_names false _ Hplain); reflexivity.
  - pose proof (normalize_segments_named true p [] (Forall_nil_2 _)) as Hc.
    change (Js.split_on "/" p) with (Path.segments p) in Hc.
    pose proof (normalize_segments_relative (Path.segments p) [] 0 acc
                  (Forall_nil_2 _) Hacc) as Hrel.
    cbn [app repeat] in Hrel. rewrite drop_0 in Hrel. rewrite <- Hrel.
    destruct (Path.normalize_segments true [] (Path.segments p)) as [|x c] eqn:Ec.
    + cbn [Js.join_with String.eqb]. destruct (Js.endsWith p "/"); reflexivity.
    + destruct (String.eqb_spec (Js.join_with "/" (x :: c)) "") as [E|_];
        [destruct (join_with_named _ _ Hc E)|].
      destruct (Js.endsWith p "/");
        rewrite ?segments_slash_after, ?normalize_segments_skip;
        rewrite segments_join by (try discriminate; exact (named_noslash _ Hc));
        reflexivity.
Qed.

Lemma normalize_absolute p :
  p <> "" -> Js.startsWith (Path.normalize p) "/" = Js.startsWith p "/".
Proof.
  intros Hp. unfold Path.normalize.
  destruct (String.eqb_spec p "") as [->|_]; [contradiction|].
  destruct (Js.startsWith p "/") eqn:Habs; cbn [negb]; cbv zeta.
  - destruct (String.eqb (Js.join_with "/" _) ""); [reflexivity|].
    destruct (Js.endsWith p "/"); exact (startsWith_app "/" _).
  - pose proof (normalize_segments_named true p [] (Forall_nil_2 _)) as Hc.
    change (Js.split_on "/" p) with (Path.segments p) in Hc.
    destruct (Path.normalize_segments true [] (Path.segments p)) as [|x c] eqn:Ec.
    + cbn [Js.join_with String.eqb]. destruct (Js.endsWith p "/"); reflexivity.
    + destruct (String.eqb_spec (Js.join_with "/" (x :: c)) "") as [E|Hne];
        [destruct (join_with_named _ _ Hc E)|].
      destruct (Js.endsWith p "/");
        rewrite ?startsWith_slash_app by exact Hne;
        exact (startsWith_slash_join _ Hc).
Qed.

Lemma base_kept (cwd : string) : Forall kept (base cwd).
Proof. apply normalize_segments_kept. constructor. Qed.

Lemma kept_no_dots l : Forall kept l -> ".." ∉ l.
Proof.
  intros Hl Hin. rewrite Forall_forall in Hl.
  destruct (Hl _ Hin) as (_ & _ & H). contradiction.
Qed.

Lemma resolve_segments_relative (cwd p : string) :
  Js.startsWith p "/" = false ->
  Path.resolve_segments cwd p
  = Path.normalize_segments false (rev (base cwd)) (Path.segments p).
Proof.
  intros Hrel. unfold Path.resolve_segments, base, Path.segments. rewrite Hrel.
  change ("/" +:+ p) with (String "/" p).
  rewrite split_on_concat, normalize_segments_app. reflexivity.
Qed.

Lemma resolve_segments_absolute (cwd p : string) :
  Js.startsWith p "/" = true ->
  Path.resolve_segments cwd p
  = Path.normalize_segments false [] (Path.segments p).
Proof. intros Habs. unfold Path.resolve_segments. rewrite Habs. reflexivity. Qed.

Lemma resolve_segments_empty (cwd : string) :
  Path.resolve_segments cwd "" = base cwd.
Proof.
  rewrite resolve_segments_relative by reflexivity. cbn. apply rev_involutive.
Qed.

(** [path.resolve(path.normalize(p))] is [path.resolve(p)]. *)
Lemma resolve_normalize (cwd p : string) :
  Path.resolve_segments cwd (Path.normalize p) = Path.resolve_segments cwd p.
Proof.
  destruct (String.eqb_spec p "") as [->|Hp].
  - rewrite resolve_segments_empty, resolve_segments_relative by reflexivity.
    cbn. apply rev_involutive.
  - pose proof (normalize_absolute p Hp) as Habs.
    assert (Hdots : ".." ∉ rev (base cwd)).
    { intros H. apply (proj1 (elem_of_rev _ _)) in H.
      exact (kept_no_dots _ (base_kept cwd) H). }
    pose proof (segments_normalize p (rev (base cwd)) Hp Hdots) as H.
    cbv zeta in H. destruct (Js.startsWith p "/") eqn:E.
    + rewrite !resolve_segments_absolute by assumption. exact H.
    + rewrite !resolve_segments_relative by assumption. exact H.
Qed.

(** [path.resolve(path.join(a, b))] goes on from [path.resolve(a)] with
    the segments of [b]. *)
Lemma resolve_join (cwd a b : string) :
  a <> "" -> b <> "" ->
  Path.resolve_segments cwd (Path.join [a; b])
  = Path.normalize_segments false (rev (Path.resolve_segments cwd a))
      (Path.segments b).
Proof.
  intros Ha Hb. unfold Path.join.
  rewrite filter_cons_True by exact Ha. rewrite filter_cons_True by exact Hb.
  rewrite filter_nil.
  change (Js.join_with "/" [a; b]) with (a +:+ "/" +:+ b).
  rewrite resolve_normalize.
  pose proof (startsWith_slash_app a ("/" +:+ b) Ha) as Habs.
  destruct (Js.startsWith a "/") eqn:E.
  - rewrite !resolve_segments_absolute by assumption.
    unfold Path.segments. change ("/" +:+ b) with (String "/" b).
    rewrite split_on_concat, normalize_segments_app. reflexivity.
  - rewrite !resolve_segments_relative by assumption.
    unfold Path.segments. change ("/" +:+ b) with (String "/" b).
    rewrite split_on_concat, normalize_segments_app. reflexivity.
Qed.

Lemma plain_named l :
  Forall (fun s => Path.plain s = true) l -> Forall named l.
Proof.
  intros Hl. apply (Forall_impl _ _ _ Hl).
  intros s (H1 & _ & _ & H4)%plain_spec. split; assumption.
Qed.

(** Names joined to a path are added to its resolution. *)
Lemma resolve_join_names (cwd a : string) (rel : list string) :
  Forall (fun s => Path.plain s = true) rel ->
  Path.resolve_segments cwd (Path.join [a; Js.join_with "/" rel])
  = Path.resolve_segments cwd a ++ rel.
Proof.
  intros Hrel. pose proof (plain_named _ Hrel) as Hnamed.
  destruct rel as [|x rel].
  - rewrite app_nil_r. cbn [Js.join_with]. unfold Path.join.
    destruct (String.eqb_spec a "") as [->|Ha].
    + rewrite !filter_cons_False by (intros H; apply H; reflexivity).
      rewrite filter_nil, resolve_segments_empty.
      rewrite resolve_segments_relative by reflexivity. cbn. apply rev_involutive.
    + rewrite filter_cons_True by exact Ha.
      rewrite filter_cons_False by (intros H; apply H; reflexivity).
      rewrite filter_nil. cbn [Js.join_with]. apply resolve_normalize.
  - pose proof (join_with_named _ _ Hnamed) as Hb.
    destruct (String.eqb_spec a "") as [->|Ha].
    + unfold Path.join.
      rewrite filter_cons_False by (intros H; apply H; reflexivity).
      rewrite filter_cons_True by exact Hb. rewrite filter_nil.
      change (Js.join_with "/" [?b]) with b. rewrite resolve_normalize.
      rewrite resolve_segments_relative by exact (startsWith_slash_join _ Hnamed).
      rewrite segments_join by (try discriminate; exact (named_noslash _ Hnamed)).
      rewrite (normalize_segments_names false _ Hrel), rev_involutive.
      rewrite resolve_segments_empty. reflexivity.
    + rewrite resolve_join by assumption.
      rewrite segments_join by (try discriminate; exact (named_noslash _ Hnamed)).
      rewrite (normalize_segments_names false _ Hrel), rev_involutive.
      reflexivity.
Qed.

(** [path.join(a, ...names)] is [path.join(a, names.join('/'))]. *)
Lemma join_names (a : string) (rel : list string) :
  Forall (fun s => Path.plain s = true) rel ->
  Path.join (a :: rel) = Path.join [a; Js.join_with "/" rel].
Proof.
  intros Hrel. pose proof (plain_named _ Hrel) as Hnamed.
  assert (Hfil : filter (fun s => s <> "") rel = rel).
  { apply filter_every. intros s Hs. rewrite Forall_forall in Hnamed.
    exact (proj1 (Hnamed s Hs)). }
  unfold Path.join. destruct rel as [|x rel].
  - cbn [Js.join_with]. destruct (String.eqb_spec a "") as [->|Ha].
    + rewrite !filter_cons_False by (intros H; apply H; reflexivity).
      reflexivity.
    + rewrite !(filter_cons_True _ a) by exact Ha.
      rewrite filter_cons_False by (intros H; apply H; reflexivity).
      reflexivity.
  - pose proof (join_with_named _ _ Hnamed) as Hb.
    destruct (String.eqb_spec a "") as [->|Ha].
    + rewrite !(filter_cons_False _ "") by (intros H; apply H; reflexivity).
      rewrite Hfil. rewrite filter_cons_True by exact Hb. rewrite filter_nil.
      reflexivity.
    + rewrite !(filter_cons_True _ a) by exact Ha. rewrite Hfil.
      rewrite filter_cons_True by exact Hb. rewrite filter_nil. reflexivity.
Qed.

Lemma resolve_join_list (cwd a : string) (rel : list string) :
  Forall (fun s => Path.plain s = true) rel ->
  Path.resolve_segments cwd (Path.join (a :: rel))
  = Path.resolve_segments cwd a ++ rel.
Proof.
  intros Hrel. rewrite join_names by exact Hrel.
  apply resolve_join_names, Hrel.
Qed.

(** *** The last name of a path *)

Lemma endsWith_slash_cons (c : ascii) (s : string) :
  Js.endsWith (String c s) "/"
  = match s with
    | EmptyString => Ascii.eqb c "/"
    | String _ _ => Js.endsWith s "/"
    end.
Proof.
  unfold Js.endsWith. destruct s as [|c' s]; [|cbn [String.length]].
  - cbn. destruct (Ascii.eqb c "/"); reflexivity.
  - replace (S (S (String.length s)) - 1) with (S (String.length s)) by lia.
    replace (S (String.length s) - 1) with (String.length s) by lia.
    reflexivity.
Qed.

Lemma endsWith_slash_app (a b : string) :
  b <> "" -> Js.endsWith (a +:+ b) "/" = Js.endsWith b "/".
Proof.
  intros Hb. induction a as [|c a IH]; [reflexivity|].
  change (String c a +:+ b) with (String c (a +:+ b)).
  rewrite endsWith_slash_cons, IH.
  destruct (a +:+ b) eqn:E; [|reflexivity].
  destruct a; [|discriminate E]. contradiction.
Qed.

Lemma endsWith_slash_name (s : string) :
  Js.includes s "/" = false -> Js.endsWith s "/" = false.
Proof.
  induction s as [|c s IH]; [reflexivity|].
  rewrite includes_char_cons, endsWith_slash_cons.
  intros [Hc Hs]%orb_false_iff. destruct s; [exact Hc|exact (IH Hs)].
Qed.

Lemma normalize_form p :
  p <> "" -> Js.endsWith p "/" = false ->
  Path.normalize_segments (negb (Js.startsWith p "/")) [] (Path.segments p) <> [] ->
  Path.normalize p
  = (if Js.startsWith p "/" then "/" else "")
    +:+ Js.join_with "/"
          (Path.normalize_segments (negb (Js.startsWith p "/")) []
             (Path.segments p)).
Proof.
  intros Hp Hend Hc. unfold Path.normalize.
  destruct (String.eqb_spec p "") as [->|_]; [contradiction|].
  rewrite Hend. cbv zeta.
  pose proof (normalize_segments_named (negb (Js.startsWith p "/")) p []
                (Forall_nil_2 _)) as Hn.
  change (Js.split_on "/" p) with (Path.segments p) in Hn.
  destruct (Path.normalize_segments _ [] (Path.segments p)) as [|x c];
    [contradiction|].
  destruct (String.eqb_spec (Js.join_with "/" (x :: c)) "") as [E|_];
    [destruct (join_with_named _ _ Hn E)|].
  destruct (Js.startsWith p "/"); reflexivity.
Qed.

Lemma normalize_child (y name : string) :
  Path.plain name = true ->
  child_form (Path.normalize (y +:+ "/" +:+ name)) name.
Proof.
  intros Hname.
  pose proof (proj1 (plain_spec name) Hname) as (Hne & _ & _ & Hns).
  set (x := y +:+ "/" +:+ name).
  assert (Hx : x <> "") by (subst x; destruct y; discriminate).
  assert (Hend : Js.endsWith x "/" = false).
  { subst x. rewrite endsWith_slash_app by discriminate.
    change ("/" +:+ name) with (String "/" name).
    rewrite endsWith_slash_cons. destruct name; [contradiction|].
    exact (endsWith_slash_name _ Hns). }
  assert (Hsegs : Path.segments x = Path.segments y ++ [name]).
  { subst x. unfold Path.segments. change ("/" +:+ name) with (String "/" name).
    rewrite split_on_concat, (split_on_plain "/" name Hns). reflexivity. }
  set (b := negb (Js.startsWith x "/")).
  pose proof (normalize_segments_named b y [] (Forall_nil_2 _)) as Hc0.
  change (Js.split_on "/" y) with (Path.segments y) in Hc0.
  assert (Hc : Path.normalize_segments b [] (Path.segments x)
               = Path.normalize_segments b [] (Path.segments y) ++ [name]).
  { rewrite Hsegs, normalize_segments_app.
    rewrite (normalize_segments_names b [name]) by (constructor; [exact Hname|constructor]).
    rewrite rev_involutive. reflexivity. }
  rewrite normalize_form; [|exact Hx|exact Hend|].
  2: { fold b. rewrite Hc. intros H. destruct (Path.normalize_segments b [] _); discriminate H. }
  fold b. rewrite Hc.
  destruct (Path.normalize_segments b [] (Path.segments y)) as [|z c0] eqn:Ec0.
  - cbn [app Js.join_with]. destruct (Js.startsWith x "/"); [right; left|left];
      reflexivity.
  - right. right. rewrite join_with_snoc by discriminate.
    pose proof (join_with_named _ _ Hc0) as Hj.
    exists ((if Js.startsWith x "/" then "/" else "") +:+ Js.join_with "/" (z :: c0)).
    split; [|split].
    + destruct (Js.startsWith x "/"); [discriminate|exact Hj].
    + destruct (Js.startsWith x "/").
      * intros H. injection H as H. contradiction.
      * intros H. pose proof (startsWith_slash_join _ Hc0) as Hs.
        change ("" +:+ Js.join_with "/" (z :: c0))
          with (Js.join_with "/" (z :: c0)) in H.
        rewrite H in Hs. discriminate Hs.
    + rewrite !string_app_assoc. reflexivity.
Qed.

Lemma normalize_name (name : string) :
  Path.plain name = true -> Path.normalize name = name.
Proof.
  intros Hname.
  pose proof (proj1 (plain_spec name) Hname) as (Hne & _ & _ & Hns).
  assert (Hsegs : Path.segments name = [name]) by exact (split_on_plain "/" name Hns).
  assert (Hc : Path.normalize_segments (negb (Js.startsWith name "/")) []
                 (Path.segments name) = [name]).
  { rewrite Hsegs. apply (normalize_segments_names _ [name]).
    constructor; [exact Hname|constructor]. }
  rewrite normalize_form; [|exact Hne|exact (endsWith_slash_name _ Hns)|].
  - rewrite Hc, (startsWith_slash_name _ Hns). reflexivity.
  - rewrite Hc. discriminate.
Qed.

(** [path.join(a, names.join('/'))] ends in the last of the names. *)
Lemma join_child_form (a : string) (rel : list string) (name : string) :
  Forall (fun s => Path.plain s = true) (rel ++ [name]) ->
  child_form (Path.join [a; Js.join_with "/" (rel ++ [name])]) name.
Proof.
  intros Hall. apply Forall_app in Hall as [Hrel Hname].
  apply Forall_inv in Hname.
  pose proof (plain_named _ Hrel) as Hnamed.
  assert (Hb : Js.join_with "/" (rel ++ [name]) <> "").
  { apply join_with_nonempty. exists name. split.
    - apply elem_of_app. right. left.
    - exact (proj1 (proj1 (plain_spec name) Hname)). }
  unfold Path.join. destruct (String.eqb_spec a "") as [->|Ha].
  - rewrite filter_cons_False by (intros H; apply H; reflexivity).
    rewrite filter_cons_True by exact Hb. rewrite filter_nil.
    change (Js.join_with "/" [?b]) with b.
    destruct rel as [|r rel].
    + cbn [app Js.join_with]. rewrite normalize_name by exact Hname. left.
      reflexivity.
    + rewrite join_with_snoc by discriminate. apply normalize_child, Hname.
  - rewrite filter_cons_True by exact Ha.
    rewrite filter_cons_True by exact Hb. rewrite filter_nil.
    change (Js.join_with "/" [a; ?b]) with (a +:+ "/" +:+ b).
    destruct rel as [|r rel].
    + cbn [app Js.join_with]. apply normalize_child, Hname.
    + rewrite join_with_snoc by discriminate.
      replace (a +:+ "/" +:+ Js.join_with "/" (r :: rel) +:+ "/" +:+ name)
        with ((a +:+ "/" +:+ Js.join_with "/" (r :: rel)) +:+ "/" +:+ name)
        by (rewrite !string_app_assoc; reflexivity).
      apply normalize_child, Hname.
Qed.

(** *** [path.dirname] of such a path *)

Lemma chars_app (a b : string) :
  list_ascii_of_string (a +:+ b)
  = list_ascii_of_string a ++ list_ascii_of_string b.
Proof.
  induction a as [|c a IH]; [reflexivity|].
  change (String c a +:+ b) with (String c (a +:+ b)). cbn. rewrite IH.
  reflexivity.
Qed.

Lemma chars_length (s : string) :
  length (list_ascii_of_string s) = String.length s.
Proof. induction s as [|c s IH]; [reflexivity|]. cbn. rewrite IH. reflexivity. Qed.

Lemma chars_noslash (s : string) :
  Js.includes s "/" = false ->
  Forall (fun c => Ascii.eqb c "/" = false) (list_ascii_of_string s).
Proof.
  induction s as [|c s IH]; [constructor|].
  rewrite includes_char_cons. intros [Hc Hs]%orb_false_iff.
  constructor; [exact Hc|exact (IH Hs)].
Qed.

Lemma drop_while_all {A} (f : A -> bool) (l r : list A) :
  Forall (fun x => f x = true) l ->
  Path.drop_while f (l ++ r) = Path.drop_while f r.
Proof.
  induction l as [|x l IH]; intros Hl; [reflexivity|].
  cbn. rewrite (Forall_inv Hl). exact (IH (Forall_inv_tail Hl)).
Qed.

Lemma drop_while_none {A} (f : A -> bool) (l : list A) :
  Forall (fun x => f x = false) l -> Path.drop_while f l = l.
Proof.
  destruct l as [|x l]; intros Hl; [reflexivity|].
  cbn. rewrite (Forall_inv Hl). reflexivity.
Qed.

Lemma substring_app (a b : string) :
  String.substring 0 (String.length a) (a +:+ b) = a.
Proof.
  induction a as [|c a IH]; [destruct b; reflexivity|].
  change (String c a +:+ b) with (String c (a +:+ b)). cbn. rewrite IH.
  reflexivity.
Qed.

(** The characters of a name, from the last to the first: no separator
    among them. *)
Lemma chars_name_rev (name : string) :
  Js.includes name "/" = false ->
  Forall (fun c => Ascii.eqb c "/" = false) (rev (list_ascii_of_string name)).
Proof. intros H. apply Forall_rev, chars_noslash, H. Qed.

Lemma dirname_name (name : string) :
  Path.plain name = true -> Path.dirname name = ".".
Proof.
  intros (Hne & _ & _ & Hns)%plain_spec.
  destruct name as [|c0 rest]; [contradiction|].
  rewrite includes_char_cons in Hns. apply orb_false_iff in Hns as [Hc Hrest].
  unfold Path.dirname. pose proof (chars_name_rev rest Hrest) as Hall.
  rewrite (drop_while_none _ _ Hall).
  rewrite <- (app_nil_r (rev _)), drop_while_all.
  - cbn. rewrite Hc. reflexivity.
  - apply (Forall_impl _ _ _ Hall). intros x ->. reflexivity.
Qed.

Lemma dirname_root_name (name : string) :
  Path.plain name = true -> Path.dirname ("/" +:+ name) = "/".
Proof.
  intros (Hne & _ & _ & Hns)%plain_spec.
  change ("/" +:+ name) with (String "/" name).
  unfold Path.dirname. pose proof (chars_name_rev name Hns) as Hall.
  rewrite (drop_while_none _ _ Hall).
  rewrite <- (app_nil_r (rev _)), drop_while_all.
  - reflexivity.
  - apply (Forall_impl _ _ _ Hall). intros x ->. reflexivity.
Qed.

Lemma dirname_child (pre name : string) :
  Path.plain name = true -> pre <> "" -> pre <> "/" ->
  Path.dirname (pre +:+ "/" +:+ name) = pre.
Proof.
  intros (Hne & _ & _ & Hns)%plain_spec Hpre Hroot.
  destruct pre as [|c0 pre']; [contradiction|].
  change (String c0 pre' +:+ "/" +:+ name)
    with (String c0 (pre' +:+ String "/" name)).
  unfold Path.dirname. rewrite chars_app. cbn [list_ascii_of_string].
  rewrite rev_app_distr. cbn [rev]. rewrite <- app_assoc. cbn [app].
  pose proof (chars_name_rev name Hns) as Hall.
  assert (Hhead : Path.drop_while (fun c => Ascii.eqb c "/")
                    (rev (list_ascii_of_string name)
                     ++ "/"%char :: rev (list_ascii_of_string pre'))
                  = rev (list_ascii_of_string name)
                    ++ "/"%char :: rev (list_ascii_of_string pre')).
  { destruct (rev (list_ascii_of_string name)) as [|x l] eqn:E.
    - exfalso. destruct name as [|c n]; [contradiction|].
      cbn in E. destruct (rev (list_ascii_of_string n)); discriminate E.
    - cbn. rewrite (Forall_inv Hall). reflexivity. }
  rewrite Hhead, drop_while_all.
  2: { apply (Forall_impl _ _ _ Hall). intros x ->. reflexivity. }
  cbn [Path.drop_while Ascii.eqb Bool.eqb negb].
  rewrite length_rev, chars_length.
  assert (Hone : Ascii.eqb c0 "/" && (S (String.length pre') =? 1)%nat = false).
  { destruct (Ascii.eqb_spec c0 "/") as [->|_]; [|reflexivity].
    destruct pre'; [contradiction|reflexivity]. }
  rewrite Hone. unfold Js.slice0.
  exact (substring_app (String c0 pre') (String "/" name)).
Qed.

Lemma resolve_segments_child (cwd pre name : string) :
  Path.plain name = true -> pre <> "" ->
  Path.resolve_segments cwd (pre +:+ "/" +:+ name)
  = Path.resolve_segments cwd pre ++ [name].
Proof.
  intros Hname Hpre.
  pose proof (proj1 (plain_spec name) Hname) as (_ & _ & _ & Hns).
  pose proof (startsWith_slash_app pre ("/" +:+ name) Hpre) as Habs.
  assert (Hsegs : Path.segments (pre +:+ "/" +:+ name) = Path.segments pre ++ [name]).
  { unfold Path.segments. change ("/" +:+ name) with (String "/" name).
    rewrite split_on_concat, (split_on_plain "/" name Hns). reflexivity. }
  assert (Hpush : forall acc,
    Path.normalize_segments false acc (Path.segments pre ++ [name])
    = Path.normalize_segments false acc (Path.segments pre) ++ [name]).
  { intros acc. rewrite normalize_segments_app.
    rewrite (normalize_segments_names false [name])
      by (constructor; [exact Hname|constructor]).
    rewrite rev_involutive. reflexivity. }
  destruct (Js.startsWith pre "/") eqn:E.
  - rewrite !resolve_segments_absolute by assumption. rewrite Hsegs. apply Hpush.
  - rewrite !resolve_segments_relative by assumption. rewrite Hsegs. apply Hpush.
Qed.

(** The directory of a path that ends in a name resolves to what the path
    resolves to, less the name. *)
Lemma resolve_dirname (cwd q name : string) :
  Path.plain name = true -> child_form q name ->
  Path.resolve_segments cwd (Path.dirname q) ++ [name]
  = Path.resolve_segments cwd q.
Proof.
  intros Hname [->|[->|(pre & Hpre & Hroot & ->)]].
  - pose proof (proj1 (plain_spec name) Hname) as (_ & _ & _ & Hns).
    rewrite dirname_name by exact Hname.
    rewrite !resolve_segments_relative
      by first [reflexivity|exact (startsWith_slash_name _ Hns)].
    unfold Path.segments. rewrite (split_on_plain "/" name Hns).
    rewrite (normalize_segments_names false [name])
      by (constructor; [exact Hname|constructor]).
    cbn. reflexivity.
  - pose proof (proj1 (plain_spec name) Hname) as (_ & _ & _ & Hns).
    rewrite dirname_root_name by exact Hname.
    rewrite !resolve_segments_absolute by first [reflexivity|apply (startsWith_app "/")].
    rewrite segments_slash_before.
    replace (Path.segments name) with [name]
      by (unfold Path.segments; rewrite (split_on_plain "/" name Hns); reflexivity).
    change (Path.normalize_segments false [] ("" :: [name]))
      with (Path.normalize_segments false [] [name]).
    rewrite (normalize_segments_names false [name])
      by (constructor; [exact Hname|constructor]).
    reflexivity.
  - rewrite dirname_child by assumption.
    symmetry. apply resolve_segments_child; assumption.
Qed.

Lemma child_form_last (q name : string) :
  Path.plain name = true -> child_form q name ->
  q <> "" /\ last (Path.segments q) = Some name.
Proof.
  intros Hname Hq.
  pose proof (proj1 (plain_spec name) Hname) as (Hne & _ & _ & Hns).
  destruct Hq as [->|[->|(pre & Hpre & Hroot & ->)]].
  - split; [exact Hne|]. unfold Path.segments.
    rewrite (split_on_plain "/" name Hns). reflexivity.
  - split; [discriminate|]. rewrite segments_slash_before. unfold Path.segments.
    rewrite (split_on_plain "/" name Hns). reflexivity.
  - split; [destruct pre; [contradiction|discriminate]|].
    unfold Path.segments. change ("/" +:+ name) with (String "/" name).
    rewrite split_on_concat, (split_on_plain "/" name Hns). apply last_snoc.
Qed.

(** *** The shape of a normalized path *)

Lemma normalize_segments_kept_names (b : bool) l :
  Forall kept l -> forall acc, Path.normalize_segments b acc l = rev acc ++ l.
Proof.
  intros Hl acc. rewrite normalize_segments_plain by exact (kept_no_dots _ Hl).
  f_equal. apply filter_every. intros s Hs. rewrite Forall_forall in Hl.
  destruct (Hl s Hs) as (H1 & H2 & _). split; assumption.
Qed.

(** What [path.normalize] leaves of a relative path: steps up, then
    names. *)
Lemma normalize_segments_shape segs :
  forall (cl : list string) (k : nat), Forall kept cl ->
    exists (j : nat) (names : list string),
      Path.normalize_segments true (cl ++ repeat ".." k) segs
      = repeat ".." j ++ names
      /\ Forall kept names.
Proof.
  induction segs as [|seg segs IH]; intros cl k Hcl.
  - exists k, (rev cl). cbn [Path.normalize_segments].
    rewrite rev_app_distr, rev_repeat. split; [reflexivity|].
    apply Forall_rev, Hcl.
  - cbn [Path.normalize_segments].
    destruct (String.eqb_spec seg "") as [->|H1]; cbn [orb]; [apply IH, Hcl|].
    destruct (String.eqb_spec seg ".") as [->|H2]; [apply IH, Hcl|].
    destruct (String.eqb_spec seg "..") as [->|H3].
    + destruct cl as [|top cl'].
      * cbn [app]. destruct k as [|k]; cbn [repeat].
        -- exact (IH [] 1 Hcl).
        -- cbn [String.eqb Ascii.eqb Bool.eqb]. exact (IH [] (S (S k)) Hcl).
      * pose proof (Forall_inv Hcl) as (_ & _ & Htop).
        cbn [app]. destruct (String.eqb_spec top "..") as [->|_]; [contradiction|].
        exact (IH cl' k (Forall_inv_tail Hcl)).
    + apply (IH (seg :: cl) k).
      constructor; [repeat split; assumption|exact Hcl].
Qed.

Lemma child_ends_in_name (y name : string) :
  Path.plain name = true -> ends_in_name (y +:+ "/" +:+ name).
Proof.
  intros Hname.
  pose proof (proj1 (plain_spec name) Hname) as (Hne & _ & _ & Hns).
  set (x := y +:+ "/" +:+ name).
  assert (Hsegs : Path.segments x = Path.segments y ++ [name]).
  { subst x. unfold Path.segments. change ("/" +:+ name) with (String "/" name).
    rewrite split_on_concat, (split_on_plain "/" name Hns). reflexivity. }
  split; [subst x; destruct y; discriminate|]. split.
  - subst x. rewrite endsWith_slash_app by discriminate.
    change ("/" +:+ name) with (String "/" name).
    rewrite endsWith_slash_cons. destruct name; [contradiction|].
    exact (endsWith_slash_name _ Hns).
  - rewrite Hsegs, normalize_segments_app.
    rewrite (normalize_segments_names _ [name])
      by (constructor; [exact Hname|constructor]).
    rewrite rev_involutive. intros H.
    destruct (Path.normalize_segments _ [] (Path.segments y)); discriminate H.
Qed.

Lemma name_ends_in_name (name : string) :
  Path.plain name = true -> ends_in_name name.
Proof.
  intros Hname.
  pose proof (proj1 (plain_spec name) Hname) as (Hne & _ & _ & Hns).
  split; [exact Hne|]. split; [exact (endsWith_slash_name _ Hns)|].
  replace (Path.segments name) with [name]
    by (symmetry; exact (split_on_plain "/" name Hns)).
  rewrite (normalize_segments_names _ [name])
    by (constructor; [exact Hname|constructor]).
  discriminate.
Qed.

(** [path.join(a, ...names)] normalizes a path that ends in a name. *)
Lemma join_ends_in_name (a : string) (rel : list string) :
  rel <> [] -> Forall (fun s => Path.plain s = true) rel ->
  exists y, Path.join (a :: rel) = Path.normalize y /\ ends_in_name y.
Proof.
  intros Hne Hrel. rewrite join_names by exact Hrel.
  destruct (exists_last Hne) as (r' & name & ->).
  apply Forall_app in Hrel as [Hr' Hname]. apply Forall_inv in Hname.
  assert (Hb : Js.join_with "/" (r' ++ [name]) <> "").
  { apply join_with_nonempty. exists name. split.
    - apply elem_of_app. right. left.
    - exact (proj1 (proj1 (plain_spec name) Hname)). }
  unfold Path.join. destruct (String.eqb_spec a "") as [->|Ha].
  - rewrite filter_cons_False by (intros H; apply H; reflexivity).
    rewrite filter_cons_True by exact Hb. rewrite filter_nil.
    change (Js.join_with "/" [?b]) with b.
    eexists. split; [reflexivity|].
    destruct r' as [|r r'].
    + apply name_ends_in_name, Hname.
    + rewrite join_with_snoc by discriminate. apply child_ends_in_name, Hname.
  - rewrite filter_cons_True by exact Ha.
    rewrite filter_cons_True by exact Hb. rewrite filter_nil.
    change (Js.join_with "/" [a; ?b]) with (a +:+ "/" +:+ b).
    eexists. split; [reflexivity|].
    destruct r' as [|r r'].
    + apply child_ends_in_name, Hname.
    + rewrite join_with_snoc by discriminate.
      replace (a +:+ "/" +:+ Js.join_with "/" (r :: r') +:+ "/" +:+ name)
        with ((a +:+ "/" +:+ Js.join_with "/" (r :: r')) +:+ "/" +:+ name)
        by (rewrite !string_app_assoc; reflexivity).
      apply child_ends_in_name, Hname.
Qed.

(** The segments of a normalized path that ends in a name: from the root
    names only, else steps up and then names. *)
Lemma segments_normalized (y : string) :
  ends_in_name y ->
  exists (j : nat) (names : list string),
    Forall kept names
    /\ (Js.startsWith y "/" = true -> j = 0)
    /\ Path.normalize_segments (negb (Js.startsWith y "/")) [] (Path.segments y)
       = repeat ".." j ++ names
    /\ Path.segments (Path.normalize y)
       = (if Js.startsWith y "/" then [""] else []) ++ repeat ".." j ++ names.
Proof.
  intros (Hy & Hend & Hc).
  pose proof (normalize_form y Hy Hend Hc) as Hform.
  pose proof (normalize_segments_named (negb (Js.startsWith y "/")) y []
                (Forall_nil_2 _)) as Hn.
  change (Js.split_on "/" y) with (Path.segments y) in Hn.
  assert (Hshape : exists (j : nat) (names : list string),
             Forall kept names /\ (Js.startsWith y "/" = true -> j = 0)
             /\ Path.normalize_segments (negb (Js.startsWith y "/")) []
                  (Path.segments y) = repeat ".." j ++ names).
  { destruct (Js.startsWith y "/"); cbn [negb].
    - exists 0, (Path.normalize_segments false [] (Path.segments y)).
      split; [apply normalize_segments_kept; constructor|]. split; reflexivity.
    - destruct (normalize_segments_shape (Path.segments y) [] 0 (Forall_nil_2 _))
        as (j & names & E & Hk).
      exists j, names. split; [exact Hk|]. split; [discriminate|exact E]. }
  destruct Hshape as (j & names & Hk & Hj & E).
  exists j, names. split; [exact Hk|]. split; [exact Hj|]. split; [exact E|].
  rewrite Hform. rewrite E in Hn, Hc |- *.
  destruct (Js.startsWith y "/").
  - rewrite segments_slash_before.
    rewrite segments_join by (try exact Hc; exact (named_noslash _ Hn)).
    reflexivity.
  - change ("" +:+ ?s) with s.
    rewrite segments_join by (try exact Hc; exact (named_noslash _ Hn)).
    reflexivity.
Qed.

End Paths.

(** ** The file system *)

Section Tree.

Implicit Types (fs : FS) (k d : Fs.Key) (n : gmap Fs.Key Node).

Lemma strip_app d (r : Fs.Key) : Fs.strip d (d ++ r) = Some r.
Proof.
  induction d as [|x d IH]; [reflexivity|].
  cbn. rewrite String.eqb_refl. exact IH.
Qed.

Lemma strip_Some d : forall k (r : Fs.Key), Fs.strip d k = Some r -> k = d ++ r.
Proof.
  induction d as [|x d IH]; intros k r H.
  - cbn in H. injection H as ->. reflexivity.
  - destruct k as [|y k]; [discriminate H|]. cbn in H.
    destruct (String.eqb_spec x y) as [->|_]; [|discriminate H].
    cbn. f_equal. exact (IH _ _ H).
Qed.

Lemma within_app (t a b : Fs.Key) : Fs.within (t ++ a) (t ++ b) = Fs.within a b.
Proof.
  unfold Fs.within. induction t as [|x t IH]; [reflexivity|].
  cbn. rewrite String.eqb_refl. exact IH.
Qed.

(** Two directories neither of which lies in the other have nothing in
    common below them. *)
Lemma apart_app (s d : Fs.Key) :
  Fs.within s d = false -> Fs.within d s = false ->
  forall a b : Fs.Key, s ++ a <> d ++ b.
Proof.
  revert d. induction s as [|x s IH]; intros d Hsd Hds a b E.
  - discriminate Hsd.
  - destruct d as [|y d]; [discriminate Hds|].
    injection E as -> E. unfold Fs.within in Hsd, Hds. cbn in Hsd, Hds.
    rewrite String.eqb_refl in Hsd, Hds. exact (IH d Hsd Hds a b E).
Qed.

Lemma tidy_spec fs : Fs.tidy fs = true <-> tidy_at (Fs.nodes fs).
Proof.
  unfold Fs.tidy, tidy_at. rewrite forallb_forall. split.
  - intros H k v Hk. apply Forall_forall. intros s Hs.
    assert (Hin : In (k, v) (map_to_list (Fs.nodes fs)))
      by (apply list_elem_of_In, elem_of_map_to_list, Hk).
    specialize (H _ Hin). cbn in H. rewrite forallb_forall in H.
    apply H, list_elem_of_In, Hs.
  - intros H [k v] Hin. cbn. apply forallb_forall. intros s Hs.
    apply list_elem_of_In, elem_of_map_to_list in Hin.
    specialize (H _ _ Hin). rewrite Forall_forall in H.
    apply H, list_elem_of_In, Hs.
Qed.

(** What lies strictly below a directory. *)
Lemma entries_spec fs d (rel : Fs.Key) (v : Node) :
  (rel, v) ∈ Fs.entries fs d
  <-> rel <> [] /\ Fs.nodes fs !! (d ++ rel) = Some v.
Proof.
  unfold Fs.entries. rewrite list_elem_of_omap. split.
  - intros ([k v'] & Hin & H). cbn in H.
    apply elem_of_map_to_list in Hin.
    destruct (Fs.strip d k) as [[|s r]|] eqn:E; try discriminate H.
    injection H as <- <-. apply strip_Some in E as ->.
    split; [discriminate|exact Hin].
  - intros [Hne H]. exists (d ++ rel, v). split.
    + apply elem_of_map_to_list, H.
    + cbn. rewrite strip_app. destruct rel; [contradiction|reflexivity].
Qed.

(** [mkdir -p] leaves what is there and adds directories only, each at a
    step of the path it makes. *)
Lemma mkdirp_spec (p : string) (todo : list string) :
  forall n (above : Fs.Key) n' (o : outcome unit),
    Fs.mkdirp p n above todo = (n', o) ->
    (forall k v, n !! k = Some v -> n' !! k = Some v)
    /\ (forall k v, n' !! k = Some v ->
          n !! k = Some v
          \/ (v = Dir /\ exists t1 t2 : Fs.Key,
                todo = t1 ++ t2 /\ t1 <> [] /\ k = above ++ t1)).
Proof.
  induction todo as [|s todo IH]; intros n above n' o H.
  - cbn in H. injection H as <- _. split; [auto|]. intros k v Hk. left. exact Hk.
  - cbn [Fs.mkdirp] in H.
    assert (Hsub : forall k : Fs.Key,
      (exists t1 t2 : Fs.Key, todo = t1 ++ t2 /\ t1 <> [] /\ k = (above ++ [s]) ++ t1) ->
      exists t1 t2 : Fs.Key, s :: todo = t1 ++ t2 /\ t1 <> [] /\ k = above ++ t1).
    { intros k (t1 & t2 & -> & _ & ->). exists (s :: t1), t2.
      split; [reflexivity|]. split; [discriminate|].
      rewrite <- app_assoc. reflexivity. }
    assert (Hfirst : exists t1 t2 : Fs.Key,
              s :: todo = t1 ++ t2 /\ t1 <> [] /\ above ++ [s] = above ++ t1).
    { exists [s], todo. split; [reflexivity|]. split; [discriminate|reflexivity]. }
    destruct (n !! (above ++ [s])) as [[|c]|] eqn:E.
    + destruct (IH _ _ _ _ H) as [H1 H2]. split; [exact H1|].
      intros k v Hk. destruct (H2 k v Hk) as [Hn|[-> Hin]]; [left; exact Hn|].
      right. split; [reflexivity|]. apply Hsub, Hin.
    + injection H as <- _. split; [auto|]. intros k v Hk. left. exact Hk.
    + destruct (IH _ _ _ _ H) as [H1 H2]. split.
      * intros k v Hk. apply H1. rewrite lookup_insert_ne; [exact Hk|].
        intros E'. rewrite <- E' in Hk.
        pose proof (eq_trans (eq_sym E) Hk) as X. discriminate X.
      * intros k v Hk. destruct (H2 k v Hk) as [Hn|[-> Hin]].
        -- destruct (decide (above ++ [s] = k)) as [<-|Hne].
           ++ rewrite lookup_insert_eq in Hn. injection Hn as <-.
              right. split; [reflexivity|]. exact Hfirst.
           ++ rewrite lookup_insert_ne in Hn by exact Hne. left. exact Hn.
        -- right. split; [reflexivity|]. apply Hsub, Hin.
Qed.

Lemma grown_refl fs : grown fs fs.
Proof. repeat split; auto. Qed.

(** What [fs.ensureDir] adds: directories at the steps of the path. *)
Lemma ensureDir_new fs (p : string) fs' (o : outcome unit) :
  Fs.ensureDir fs p = (fs', o) ->
  forall k v, Fs.nodes fs' !! k = Some v ->
    Fs.nodes fs !! k = Some v
    \/ (v = Dir /\ k <> [] /\ exists t2 : Fs.Key, Fs.key fs p = k ++ t2).
Proof.
  unfold Fs.ensureDir. destruct (String.eqb p "").
  - intros [= <- _] k v Hk. left. exact Hk.
  - destruct (Fs.mkdirp p (Fs.nodes fs) [] (Fs.key fs p)) as [n' o'] eqn:E.
    intros [= <- _] k v Hk. cbn in Hk.
    destruct (proj2 (mkdirp_spec _ _ _ _ _ _ E) k v Hk)
      as [Hn|(-> & t1 & t2 & Hkey & Hne & ->)]; [left; exact Hn|].
    right. split; [reflexivity|]. split; [exact Hne|]. exists t2. exact Hkey.
Qed.

Lemma ensureDir_grown fs (p : string) fs' (o : outcome unit) :
  Fs.ensureDir fs p = (fs', o) -> grown fs fs'.
Proof.
  intros H. split; [|split].
  - unfold Fs.ensureDir in H. destruct (String.eqb p "").
    + injection H as <- _. reflexivity.
    + destruct (Fs.mkdirp p (Fs.nodes fs) [] (Fs.key fs p)) as [n' o'].
      injection H as <- _. reflexivity.
  - unfold Fs.ensureDir in H. destruct (String.eqb p "").
    + injection H as <- _. auto.
    + destruct (Fs.mkdirp p (Fs.nodes fs) [] (Fs.key fs p)) as [n' o'] eqn:E.
      injection H as <- _. exact (proj1 (mkdirp_spec _ _ _ _ _ _ E)).
  - intros Ht k v Hk.
    destruct (ensureDir_new _ _ _ _ H k v Hk) as [Hn|(_ & _ & t2 & Hkey)];
      [exact (Ht k v Hn)|].
    pose proof (resolve_segments_plain (Fs.cwd fs) p) as Hp.
    fold (Fs.key fs p) in Hp. rewrite Hkey in Hp.
    apply Forall_app in Hp as [Hp _]. exact Hp.
Qed.

(** *** Walking a path *)

(** A walk that arrives is where [path.resolve] says. *)
Lemma walk_lexical n (segs : list string) :
  forall (acc : list string) k, Forall kept acc ->
    Fs.walk n (rev acc) segs = Some k ->
    k = Path.normalize_segments false acc segs.
Proof.
  induction segs as [|seg segs IH]; intros acc k Hacc H.
  - cbn in H |- *. congruence.
  - cbn [Fs.walk] in H. cbn [Path.normalize_segments].
    destruct (Fs.node_at n (rev acc)) as [[|c]|]; try discriminate H.
    destruct (String.eqb_spec seg "") as [->|H1]; cbn [orb] in H |- *;
      [exact (IH _ _ Hacc H)|].
    destruct (String.eqb_spec seg ".") as [->|H2]; [exact (IH _ _ Hacc H)|].
    destruct (String.eqb_spec seg "..") as [->|H3].
    + destruct acc as [|top acc']; [exact (IH [] _ Hacc H)|].
      pose proof (Forall_inv Hacc) as (_ & _ & Htop).
      destruct (String.eqb_spec top "..") as [->|_]; [contradiction|].
      cbn [rev] in H. rewrite removelast_last in H.
      exact (IH _ _ (Forall_inv_tail Hacc) H).
    + apply (IH (seg :: acc)); [|exact H].
      constructor; [repeat split; assumption|exact Hacc].
Qed.

(** A walk arrives when a directory is wherever it takes a step. *)
Lemma walk_paved n (segs : list string) :
  forall (acc : list string), Forall kept acc ->
    (forall s1 s s2, segs = s1 ++ s :: s2 ->
       Fs.node_at n (Path.normalize_segments false acc s1) = Some Dir) ->
    Fs.walk n (rev acc) segs = Some (Path.normalize_segments false acc segs).
Proof.
  induction segs as [|seg segs IH]; intros acc Hacc Hdirs; [reflexivity|].
  cbn [Fs.walk Path.normalize_segments].
  pose proof (Hdirs [] seg segs eq_refl) as H0. cbn in H0. rewrite H0.
  assert (Hnext : forall acc',
             Path.normalize_segments false acc [seg] = rev acc' ->
             forall s1 s s2, segs = s1 ++ s :: s2 ->
               Fs.node_at n (Path.normalize_segments false acc' s1) = Some Dir).
  { intros acc' E s1 s s2 ->.
    pose proof (Hdirs (seg :: s1) s s2 eq_refl) as H.
    change (seg :: s1) with ([seg] ++ s1) in H.
    rewrite normalize_segments_app, E, rev_involutive in H. exact H. }
  cbn [Path.normalize_segments] in Hnext.
  destruct (String.eqb_spec seg "") as [->|H1]; cbn [orb] in Hnext |- *;
    [exact (IH _ Hacc (Hnext _ eq_refl))|].
  destruct (String.eqb_spec seg ".") as [->|H2];
    [exact (IH _ Hacc (Hnext _ eq_refl))|].
  destruct (String.eqb_spec seg "..") as [->|H3].
  - destruct acc as [|top acc']; [exact (IH [] Hacc (Hnext _ eq_refl))|].
    pose proof (Forall_inv Hacc) as (_ & _ & Htop).
    destruct (String.eqb_spec top "..") as [->|_]; [contradiction|].
    cbn [rev]. rewrite removelast_last.
    exact (IH _ (Forall_inv_tail Hacc) (Hnext _ eq_refl)).
  - apply (IH (seg :: acc)); [|exact (Hnext _ eq_refl)].
    constructor; [repeat split; assumption|exact Hacc].
Qed.

Lemma walk_grown n n' (segs : list string) :
  (forall k, Fs.node_at n k = Some Dir -> Fs.node_at n' k = Some Dir) ->
  forall cur k, Fs.walk n cur segs = Some k -> Fs.walk n' cur segs = Some k.
Proof.
  intros Hn. induction segs as [|seg segs IH]; intros cur k H; [exact H|].
  cbn [Fs.walk] in H |- *.
  destruct (Fs.node_at n cur) as [[|c]|] eqn:E; try discriminate H.
  rewrite (Hn _ E).
  destruct (String.eqb seg "" || String.eqb seg "."); [exact (IH _ _ H)|].
  destruct (String.eqb seg ".."); exact (IH _ _ H).
Qed.

Lemma start_kept fs (p : string) : Forall kept (rev (Fs.start fs p)).
Proof.
  unfold Fs.start, Fs.key. destruct (Js.startsWith p "/"); [constructor|].
  rewrite resolve_segments_empty. apply Forall_rev, base_kept.
Qed.

Lemma key_start fs (p : string) :
  Fs.key fs p
  = Path.normalize_segments false (rev (Fs.start fs p)) (Path.segments p).
Proof.
  unfold Fs.start, Fs.key. destruct (Js.startsWith p "/") eqn:E.
  - apply resolve_segments_absolute, E.
  - rewrite resolve_segments_empty. apply resolve_segments_relative, E.
Qed.

(** What a call finds is under the resolved path. *)
Lemma find_key fs (p : string) (v : Node) :
  Fs.find fs p = Some v -> Fs.node_at (Fs.nodes fs) (Fs.key fs p) = Some v.
Proof.
  unfold Fs.find. destruct (String.eqb p ""); [discriminate|].
  destruct (Fs.walk _ _ _) as [k|] eqn:E; [|discriminate].
  rewrite <- (rev_involutive (Fs.start fs p)) in E.
  apply walk_lexical in E; [|apply start_kept].
  rewrite key_start, <- E. auto.
Qed.

(** What is under the resolved path is found when the walk to it is not
    stopped. *)
Lemma find_paved fs (p : string) :
  p <> "" ->
  (forall s1 s s2, Path.segments p = s1 ++ s :: s2 ->
     Fs.node_at (Fs.nodes fs)
       (Path.normalize_segments false (rev (Fs.start fs p)) s1) = Some Dir) ->
  Fs.find fs p = Fs.node_at (Fs.nodes fs) (Fs.key fs p).
Proof.
  intros Hp Hdirs. unfold Fs.find.
  destruct (String.eqb_spec p "") as [->|_]; [contradiction|].
  rewrite <- (rev_involutive (Fs.start fs p)) at 1.
  rewrite (walk_paved _ _ _ (start_kept fs p) Hdirs), key_start. reflexivity.
Qed.

Lemma rooted_node_at fs (d t1 t2 : Fs.Key) :
  rooted d fs -> d = t1 ++ t2 -> Fs.node_at (Fs.nodes fs) t1 = Some Dir.
Proof.
  intros Hd E. destruct t1 as [|x t1]; [reflexivity|].
  apply (Hd _ t2 E). discriminate.
Qed.

Lemma paved_node_at fs k (t1 t2 : Fs.Key) :
  paved fs k -> k = t1 ++ t2 -> t2 <> [] ->
  Fs.node_at (Fs.nodes fs) t1 = Some Dir.
Proof.
  intros [_ Hk] E Ht2. destruct t1 as [|x t1]; [reflexivity|].
  apply (Hk _ t2 E); [discriminate|exact Ht2].
Qed.

Lemma node_at_app n k (rel : Fs.Key) :
  rel <> [] -> Fs.node_at n (k ++ rel) = n !! (k ++ rel).
Proof.
  intros Hne. unfold Fs.node_at. destruct (k ++ rel) eqn:E; [|reflexivity].
  apply app_eq_nil in E as [_ E]. contradiction.
Qed.

Lemma rooted_kept fs fs' d :
  (forall k, Fs.nodes fs !! k = Some Dir -> Fs.nodes fs' !! k = Some Dir) ->
  rooted d fs -> rooted d fs'.
Proof. intros Hdir Hd t1 t2 E Hne. exact (Hdir _ (Hd t1 t2 E Hne)). Qed.

Lemma repeat_prefix {A} (x : A) (j : nat) (s1 l : list A) :
  repeat x j = s1 ++ l -> s1 = repeat x (length s1).
Proof.
  revert s1. induction j as [|j IH]; intros s1 E.
  - symmetry in E. apply app_eq_nil in E as [-> _]. reflexivity.
  - destruct s1 as [|y s1]; [reflexivity|]. cbn in E. injection E as <- E.
    cbn. f_equal. exact (IH _ E).
Qed.

(** A normalized path that ends in a name is found under its resolved
    path when the walk to it is not stopped. *)
Lemma find_normalized fs (y : string) :
  ends_in_name y -> paved fs (Fs.key fs y) ->
  Fs.find fs (Path.normalize y) = Fs.node_at (Fs.nodes fs) (Fs.key fs y).
Proof.
  intros Hy Hpaved.
  destruct (segments_normalized y Hy) as (j & names & Hk & Hj & Ec & Esegs).
  destruct Hy as (Hne & _ & _).
  assert (Hkey : Fs.key fs (Path.normalize y) = Fs.key fs y)
    by apply resolve_normalize.
  assert (Hstart : Fs.start fs (Path.normalize y) = Fs.start fs y)
    by (unfold Fs.start; rewrite normalize_absolute by exact Hne; reflexivity).
  rewrite <- Hkey. apply find_paved; [apply normalize_nonempty|].
  rewrite Hstart, Esegs. intros s1 s s2 E.
  pose proof (key_start fs y) as Hy.
  unfold Fs.start in Hy |- *. destruct (Js.startsWith y "/") eqn:Habs.
  - rewrite (Hj eq_refl) in *. cbn [repeat app negb rev] in *.
    destruct s1 as [|s0 s1]; [reflexivity|].
    injection E as <- E. cbn [Path.normalize_segments String.eqb orb].
    apply (paved_node_at fs _ _ (s :: s2) Hpaved); [|discriminate].
    rewrite Hy, Ec, E. rewrite E in Hk. apply Forall_app in Hk as [Hk1 _].
    rewrite (normalize_segments_kept_names false _ Hk1). reflexivity.
  - cbn [app negb] in *.
    assert (Hao : Forall kept (rev (Fs.key fs ""))).
    { unfold Fs.key. rewrite resolve_segments_empty. apply Forall_rev, base_kept. }
    pose proof (kept_no_dots _ Hao) as Hdots.
    pose proof (normalize_segments_relative (Path.segments y) [] 0 _
                  (Forall_nil_2 _) Hdots) as Hrel.
    cbn [app repeat] in Hrel. rewrite drop_0, Ec in Hrel.
    rewrite <- Hrel, normalize_segments_dots in Hy by exact Hdots.
    apply app_eq_app in E as [l [[E1 E2]|[E1 E2]]].
    + pose proof (repeat_prefix _ _ _ _ E1) as Hs1. rewrite Hs1.
      rewrite <- (app_nil_r (repeat ".." _)).
      rewrite normalize_segments_dots by exact Hdots.
      cbn [Path.normalize_segments].
      apply (rooted_node_at fs (Fs.key fs "") _
               (rev (take (length s1) (rev (Fs.key fs ""))))
               (proj1 Hpaved)).
      rewrite <- rev_app_distr, take_drop, rev_involutive. reflexivity.
    + subst s1 names. apply Forall_app in Hk as [Hl Hrest].
      rewrite normalize_segments_dots by exact Hdots.
      rewrite (normalize_segments_kept_names false _ Hl).
      apply (paved_node_at fs _ _ (s :: s2) Hpaved); [|discriminate].
      rewrite Hy.
      rewrite (normalize_segments_kept_names false (l ++ s :: s2))
        by (apply Forall_app; split; assumption).
      rewrite app_assoc. reflexivity.
Qed.

(** A resolved path is found under its names when the directories above
    it are there. *)
Lemma find_resolved fs k :
  k <> [] -> Forall (fun s => Path.plain s = true) k ->
  (forall t1 t2 : Fs.Key, k = t1 ++ t2 -> t1 <> [] -> t2 <> [] ->
     Fs.nodes fs !! t1 = Some Dir) ->
  Fs.find fs ("/" +:+ Js.join_with "/" k) = Fs.nodes fs !! k.
Proof.
  intros Hne Hk Hdirs.
  assert (Hsegs : Path.segments ("/" +:+ Js.join_with "/" k) = "" :: k).
  { rewrite segments_slash_before, segments_join;
      [reflexivity|exact Hne|apply named_noslash, plain_named, Hk]. }
  assert (Hnames : forall l acc, Forall (fun s => Path.plain s = true) l ->
            Path.normalize_segments false acc ("" :: l) = rev acc ++ l).
  { intros l acc Hl. cbn [Path.normalize_segments String.eqb orb].
    apply normalize_segments_names, Hl. }
  rewrite find_paved.
  - rewrite key_start, Hsegs. unfold Fs.start.
    rewrite (startsWith_app "/"). rewrite Hnames by exact Hk. cbn [rev app].
    destruct k; [contradiction|reflexivity].
  - discriminate.
  - rewrite Hsegs. unfold Fs.start. rewrite (startsWith_app "/").
    intros s1 s s2 E. destruct s1 as [|s0 s1]; [reflexivity|].
    injection E as <- E. subst k. apply Forall_app in Hk as [Hs1 _].
    rewrite Hnames by exact Hs1. cbn [rev app].
    destruct s1 as [|x s1]; [reflexivity|].
    apply (Hdirs (x :: s1) (s :: s2) eq_refl); discriminate.
Qed.

(** A path made of a directory and names below it is looked up under the
    directory's key and the names. *)
Lemma key_join fs (a : string) (rel : list string) :
  Forall (fun s => Path.plain s = true) rel ->
  Fs.key fs (Path.join (a :: rel)) = Fs.key fs a ++ rel.
Proof. apply resolve_join_list. Qed.

Lemma find_join fs (a : string) (rel : list string) :
  rel <> [] -> Forall (fun s => Path.plain s = true) rel ->
  paved fs (Fs.key fs a ++ rel) ->
  Fs.find fs (Path.join (a :: rel)) = Fs.nodes fs !! (Fs.key fs a ++ rel).
Proof.
  intros Hne Hrel Hpaved.
  destruct (join_ends_in_name a rel Hne Hrel) as (y & Ey & Hy).
  pose proof (key_join fs a rel Hrel) as Hkey.
  rewrite Ey in Hkey |- *.
  assert (Hk : Fs.key fs y = Fs.key fs a ++ rel)
    by (rewrite <- Hkey; symmetry; apply resolve_normalize).
  rewrite find_normalized; [|exact Hy|rewrite Hk; exact Hpaved].
  rewrite Hk. destruct (Fs.key fs a ++ rel) as [|x l] eqn:E; [|reflexivity].
  apply app_eq_nil in E as [_ E]. contradiction.
Qed.

Lemma readFile_join fs (a : string) (rel : list string) (c : string) :
  rel <> [] -> Forall (fun s => Path.plain s = true) rel ->
  paved fs (Fs.key fs a ++ rel) ->
  Fs.readFile fs (Path.join (a :: rel)) = Some c
  <-> Fs.nodes fs !! (Fs.key fs a ++ rel) = Some (File c).
Proof.
  intros Hne Hrel Hpaved. unfold Fs.readFile. rewrite find_join by assumption.
  destruct (Fs.nodes fs !! (Fs.key fs a ++ rel)) as [[|c']|];
    split; congruence.
Qed.

(** The writing half of [fs.copy] for a file. *)
Lemma copy_file_write fs (dest : string) (c : string) (key_src : Fs.Key)
    fs' (u : unit) :
  Fs.nodes fs !! Fs.key fs dest <> Some Dir ->
  (let '(fs1, made) :=
     if Fs.pathExists fs (Path.dirname dest) then (fs, Returns tt)
     else Fs.ensureDir fs (Path.dirname dest) in
   match made with
   | Throws e => (fs1, Throws e)
   | Returns _ =>
       match Fs.node_at (Fs.nodes fs1) (Fs.key fs (Path.dirname dest)) with
       | Some Dir =>
           (Fs.with_nodes fs1 (Fs.graft fs1 key_src (Fs.key fs dest) (File c)),
            Returns tt)
       | _ =>
           (fs1, Throws ("ENOTDIR: not a directory, open '" +:+ dest +:+ "'"))
       end
   end) = (fs', Returns u) ->
  Fs.cwd fs' = Fs.cwd fs
  /\ Fs.nodes fs' !! Fs.key fs dest = Some (File c)
  /\ Fs.nodes fs !! Fs.key fs dest <> Some Dir
  /\ (forall k v, k <> Fs.key fs dest ->
        Fs.nodes fs !! k = Some v -> Fs.nodes fs' !! k = Some v).
Proof.
  intros Hnd.
  destruct (if Fs.pathExists fs (Path.dirname dest) then (fs, Returns tt)
            else Fs.ensureDir fs (Path.dirname dest)) as [fs1 made] eqn:E.
  assert (Hg : grown fs fs1).
  { destruct (Fs.pathExists fs (Path.dirname dest)).
    - injection E as <- _. apply grown_refl.
    - exact (ensureDir_grown _ _ _ _ E). }
  destruct made as [[]|e]; [|discriminate].
  destruct (Fs.node_at (Fs.nodes fs1) _) as [[|c0]|]; try discriminate.
  intros [= <-]. destruct Hg as (Hc & Hm & _). cbn.
  split; [exact Hc|]. split; [apply lookup_insert_eq|]. split; [exact Hnd|].
  intros k v Hk Hv.
  rewrite lookup_insert_ne by (intros E'; apply Hk; symmetry; exact E').
  exact (Hm k v Hv).
Qed.

Lemma within_cons (x y : string) (d k : Fs.Key) :
  Fs.within (x :: d) (y :: k) = String.eqb x y && Fs.within d k.
Proof.
  unfold Fs.within. cbn [Fs.strip]. destruct (String.eqb x y); reflexivity.
Qed.

Lemma within_below (d r : Fs.Key) : Fs.within d (d ++ r) = true.
Proof. unfold Fs.within. rewrite strip_app. reflexivity. Qed.

Lemma within_self (d : Fs.Key) : Fs.within d d = true.
Proof. rewrite <- (app_nil_r d) at 2. apply within_below. Qed.

(** When [mkdir -p] returns, every directory on the way is there. *)
Lemma mkdirp_made (p : string) (todo : list string) :
  forall n (above : Fs.Key) n' (u : unit),
    Fs.mkdirp p n above todo = (n', Returns u) ->
    forall t1 t2 : list string, todo = t1 ++ t2 -> t1 <> [] ->
      n' !! (above ++ t1) = Some Dir.
Proof.
  induction todo as [|s todo IH]; intros n above n' u H t1 t2 E Hne.
  - symmetry in E. apply app_eq_nil in E as [-> _]. contradiction.
  - destruct t1 as [|x t1]; [contradiction|]. injection E as <- E.
    cbn [Fs.mkdirp] in H.
    assert (Hstep : forall n0,
      n0 !! (above ++ [s]) = Some Dir ->
      Fs.mkdirp p n0 (above ++ [s]) todo = (n', Returns u) ->
      n' !! (above ++ s :: t1) = Some Dir).
    { intros n0 Hs Hrest. destruct t1 as [|y t1].
      - apply (proj1 (mkdirp_spec _ _ _ _ _ _ Hrest)). exact Hs.
      - replace (above ++ s :: y :: t1) with ((above ++ [s]) ++ y :: t1)
          by (rewrite <- app_assoc; reflexivity).
        apply (IH _ _ _ _ Hrest (y :: t1) t2 E). discriminate. }
    destruct (n !! (above ++ [s])) as [[|c]|] eqn:Es.
    + exact (Hstep n Es H).
    + discriminate H.
    + apply (Hstep _ (lookup_insert_eq _ _ _) H).
Qed.

Lemma ensureDir_made fs (p : string) fs' (u : unit) :
  Fs.ensureDir fs p = (fs', Returns u) ->
  forall t1 t2 : Fs.Key, Fs.key fs p = t1 ++ t2 -> t1 <> [] ->
    Fs.nodes fs' !! t1 = Some Dir.
Proof.
  unfold Fs.ensureDir. destruct (String.eqb p ""); [discriminate|].
  destruct (Fs.mkdirp p (Fs.nodes fs) [] (Fs.key fs p)) as [n' o'] eqn:E.
  intros [= <- ->] t1 t2 Hk Hne.
  exact (mkdirp_made _ _ _ _ _ _ E t1 t2 Hk Hne).
Qed.

(** [fs.copy] of a file: on return the destination holds the content, no
    directory stood there, and nothing else has changed but for
    directories that were made. *)
Lemma copy_file fs (src dest : string) (c : string) fs' (u : unit) :
  Fs.find fs src = Some (File c) ->
  Fs.find fs dest = Fs.node_at (Fs.nodes fs) (Fs.key fs dest) ->
  Fs.copy fs src dest = (fs', Returns u) ->
  Fs.cwd fs' = Fs.cwd fs
  /\ Fs.nodes fs' !! Fs.key fs dest = Some (File c)
  /\ Fs.nodes fs !! Fs.key fs dest <> Some Dir
  /\ (forall k v, k <> Fs.key fs dest ->
        Fs.nodes fs !! k = Some v -> Fs.nodes fs' !! k = Some v).
Proof.
  intros Hsrc Hdest. unfold Fs.copy. rewrite Hsrc.
  assert (Hdir : Fs.nodes fs !! Fs.key fs dest = Some Dir ->
                 Fs.find fs dest = Some Dir).
  { intros H. rewrite Hdest. unfold Fs.node_at.
    destruct (Fs.key fs dest); [reflexivity|exact H]. }
  destruct (Fs.find fs dest) as [[|c']|] eqn:Hfind.
  - destruct (bool_decide (Fs.key fs src = Fs.key fs dest)); discriminate.
  - destruct (bool_decide (Fs.key fs src = Fs.key fs dest)); [discriminate|].
    destruct (Fs.unwritable fs dest (File c)) eqn:Hw; [discriminate|].
    apply copy_file_write.
    intros H. specialize (Hdir H). discriminate Hdir.
  - destruct (Fs.unwritable fs dest (File c)) eqn:Hw; [discriminate|].
    apply copy_file_write.
    intros H. specialize (Hdir H). discriminate Hdir.
Qed.

Lemma graft_outside fs (src dest k : Fs.Key) (v : Node) :
  Fs.within dest k = false ->
  Fs.graft fs src dest v !! k = Fs.nodes fs !! k.
Proof.
  intros Hk.
  assert (Hne : forall r : Fs.Key, dest ++ r <> k).
  { intros r <-. rewrite within_below in Hk. discriminate Hk. }
  assert (Hd : dest <> k) by (rewrite <- (app_nil_r dest); apply Hne).
  destruct v as [|c]; cbn [Fs.graft]; [|apply lookup_insert_ne, Hd].
  assert (Hfold : forall (l : list (Fs.Key * Node)) (acc : gmap Fs.Key Node),
    foldl (fun acc e => <[dest ++ e.1 := e.2]> acc) acc l !! k = acc !! k).
  { induction l as [|e l IH]; intros acc; [reflexivity|].
    cbn [foldl]. rewrite IH. apply lookup_insert_ne, Hne. }
  rewrite Hfold. apply lookup_insert_ne, Hd.
Qed.

(** [fs.copy] changes nothing outside its destination. *)
Lemma copy_outside fs (src dest : string) fs' (u : unit) :
  Fs.copy fs src dest = (fs', Returns u) ->
  Fs.cwd fs' = Fs.cwd fs
  /\ forall k v, Fs.within (Fs.key fs dest) k = false ->
       Fs.nodes fs !! k = Some v -> Fs.nodes fs' !! k = Some v.
Proof.
  unfold Fs.copy. destruct (Fs.find fs src) as [n|]; [|discriminate].
  match goal with
  | |- match ?clash with _ => _ end = _ -> _ =>
      destruct clash as [message|]; [discriminate|]
  end.
  destruct (Fs.unwritable fs dest n); [discriminate|].
  match goal with
  | |- (if ?b then _ else _) = _ -> _ => destruct b; [discriminate|]
  end.
  destruct (if Fs.pathExists fs (Path.dirname dest) then (fs, Returns tt)
            else Fs.ensureDir fs (Path.dirname dest)) as [fs1 made] eqn:E.
  assert (Hg : grown fs fs1).
  { destruct (Fs.pathExists fs (Path.dirname dest)).
    - injection E as <- _. apply grown_refl.
    - exact (ensureDir_grown _ _ _ _ E). }
  destruct made as [[]|e]; [|discriminate].
  destruct (Fs.node_at (Fs.nodes fs1) _) as [[|c0]|]; try discriminate.
  intros [= <-]. destruct Hg as (Hc & Hm & _). cbn.
  split; [exact Hc|]. intros k v Hk Hv.
  rewrite graft_outside by exact Hk. exact (Hm k v Hv).
Qed.

Lemma remove_lookup fs (p : string) (k : Fs.Key) (v : Node) :
  Fs.nodes fs !! k = Some v -> Fs.within (Fs.key fs p) k = false ->
  Fs.nodes (Fs.remove fs p) !! k = Some v.
Proof.
  intros Hk Hw. unfold Fs.remove. destruct (String.eqb p ""); [exact Hk|].
  cbn. apply map_lookup_filter_Some. split; [exact Hk|exact Hw].
Qed.

Lemma remove_cwd fs (p : string) : Fs.cwd (Fs.remove fs p) = Fs.cwd fs.
Proof. unfold Fs.remove. destruct (String.eqb p ""); reflexivity. Qed.

(** After [fs.remove(p)] nothing is at [p], if [p] is not the root. *)
Lemma remove_gone fs (p : string) :
  Fs.key fs p <> [] -> Fs.pathExists (Fs.remove fs p) p = false.
Proof.
  intros Hk. unfold Fs.pathExists.
  destruct (Fs.find (Fs.remove fs p) p) as [v|] eqn:E; [|reflexivity].
  exfalso. destruct (String.eqb_spec p "") as [->|Hp]; [discriminate E|].
  apply find_key in E. unfold Fs.key in E. rewrite remove_cwd in E.
  fold (Fs.key fs p) in E. revert E.
  unfold Fs.remove. destruct (String.eqb_spec p "") as [->|_]; [contradiction|].
  destruct (Fs.key fs p) as [|x l] eqn:Ek; [contradiction|].
  cbn. intros E. apply map_lookup_filter_Some in E as [_ E]. cbn in E.
  unfold Fs.within in E.
  pose proof (strip_app (x :: l) []) as Hs. rewrite app_nil_r in Hs.
  rewrite Hs in E. discriminate E.
Qed.

(** *** When the calls return *)

(** [mkdir -p] returns when no file is in its way. *)
Lemma mkdirp_returns (p : string) (todo : list string) :
  forall n (above : Fs.Key),
    (forall (t1 t2 : Fs.Key) (c : string),
       todo = t1 ++ t2 -> t1 <> [] -> n !! (above ++ t1) <> Some (File c)) ->
    exists n', Fs.mkdirp p n above todo = (n', Returns tt).
Proof.
  induction todo as [|s todo IH]; intros n above Hfree.
  - exists n. reflexivity.
  - cbn [Fs.mkdirp].
    assert (Hrest : forall n0 : gmap Fs.Key Node,
      (forall k v, n0 !! k = Some v -> n !! k = Some v \/ v = Dir) ->
      exists n', Fs.mkdirp p n0 (above ++ [s]) todo = (n', Returns tt)).
    { intros n0 Hn0. apply IH. intros t1 t2 c -> Hne Hfile.
      destruct (Hn0 _ _ Hfile) as [Hold|Hdir]; [|discriminate Hdir].
      rewrite <- app_assoc in Hold.
      exact (Hfree (s :: t1) t2 c eq_refl ltac:(discriminate) Hold). }
    destruct (n !! (above ++ [s])) as [[|c]|] eqn:E.
    + apply Hrest. intros k v Hk. left. exact Hk.
    + exfalso. apply (Hfree [s] todo c eq_refl); [discriminate|exact E].
    + apply Hrest. intros k v Hk.
      destruct (decide (above ++ [s] = k)) as [<-|Hne].
      * rewrite lookup_insert_eq in Hk. injection Hk as <-. right. reflexivity.
      * rewrite lookup_insert_ne in Hk by exact Hne. left. exact Hk.
Qed.

Lemma ensureDir_returns fs (p : string) :
  p <> "" ->
  (forall (t1 t2 : Fs.Key) (c : string),
     Fs.key fs p = t1 ++ t2 -> t1 <> [] -> Fs.nodes fs !! t1 <> Some (File c)) ->
  exists fs', Fs.ensureDir fs p = (fs', Returns tt).
Proof.
  intros Hp Hfree. unfold Fs.ensureDir.
  destruct (String.eqb_spec p "") as [->|_]; [contradiction|].
  destruct (mkdirp_returns p (Fs.key fs p) (Fs.nodes fs) []) as [n' ->].
  - intros t1 t2 c Hk Hne. exact (Hfree t1 t2 c Hk Hne).
  - eexists. reflexivity.
Qed.

(** What [fs.copy] of a file leaves: the file at its destination, what was
    there, and directories on the way to the destination. *)
Lemma copy_file_new fs (src dest : string) (c : string) fs' (u : unit) :
  Fs.find fs src = Some (File c) ->
  Fs.copy fs src dest = (fs', Returns u) ->
  forall k v, Fs.nodes fs' !! k = Some v ->
    (k = Fs.key fs dest /\ v = File c)
    \/ Fs.nodes fs !! k = Some v
    \/ (v = Dir /\ k <> []
        /\ exists t2 : Fs.Key, Fs.key fs (Path.dirname dest) = k ++ t2).
Proof.
  intros Hsrc. unfold Fs.copy. rewrite Hsrc.
  match goal with
  | |- match ?clash with _ => _ end = _ -> _ =>
      destruct clash as [message|]; [discriminate|]
  end.
  destruct (Fs.unwritable fs dest (File c)); [discriminate|].
  destruct (if Fs.pathExists fs (Path.dirname dest) then (fs, Returns tt)
            else Fs.ensureDir fs (Path.dirname dest)) as [fs1 made] eqn:E.
  assert (Hnew : forall k v, Fs.nodes fs1 !! k = Some v ->
            Fs.nodes fs !! k = Some v
            \/ (v = Dir /\ k <> []
                /\ exists t2 : Fs.Key, Fs.key fs (Path.dirname dest) = k ++ t2)).
  { destruct (Fs.pathExists fs (Path.dirname dest)).
    - injection E as <- _. intros k v Hk. left. exact Hk.
    - exact (ensureDir_new _ _ _ _ E). }
  destruct made as [[]|e]; [|discriminate].
  destruct (Fs.node_at (Fs.nodes fs1) _) as [[|c0]|]; try discriminate.
  intros [= <-] k v Hk. cbn in Hk.
  destruct (decide (Fs.key fs dest = k)) as [<-|Hne].
  - rewrite lookup_insert_eq in Hk. injection Hk as <-. left. split; reflexivity.
  - rewrite lookup_insert_ne in Hk by exact Hne. right. exact (Hnew k v Hk).
Qed.

(** [fs.copy] returns when the source is there, the destination is free
    or of the kind of the source and another node, it can be written, a
    directory does not go into itself, and no file is in the way of the
    directory of the destination. *)
Lemma copy_returns fs (src dest : string) (n : Node) :
  Fs.find fs src = Some n ->
  (Fs.find fs dest = None
   \/ (Fs.key fs src <> Fs.key fs dest
       /\ exists there : Node,
            Fs.find fs dest = Some there /\ Fs.same_kind n there = true)) ->
  Fs.unwritable fs dest n = false ->
  (n = Dir -> Fs.within (Fs.key fs src) (Fs.key fs dest) = false) ->
  Path.dirname dest <> "" ->
  (forall (t1 t2 : Fs.Key) (c : string),
     Fs.key fs (Path.dirname dest) = t1 ++ t2 -> t1 <> [] ->
     Fs.nodes fs !! t1 <> Some (File c)) ->
  exists fs', Fs.copy fs src dest = (fs', Returns tt).
Proof.
  intros Hsrc Hdest Hw Hinto Hdn Hfree. unfold Fs.copy. rewrite Hsrc.
  assert (Hclash :
    match Fs.find fs dest with
    | None => None
    | Some there =>
        if bool_decide (Fs.key fs src = Fs.key fs dest) then
          Some "Source and destination must not be the same."
        else
          match n, there with
          | Dir, File _ =>
              Some ("Cannot overwrite non-directory '" +:+ dest
                    +:+ "' with directory '" +:+ src +:+ "'.")
          | File _, Dir =>
              Some ("Cannot overwrite directory '" +:+ dest
                    +:+ "' with non-directory '" +:+ src +:+ "'.")
          | _, _ => None
          end
    end = None).
  { destruct Hdest as [->|(Hne & there & -> & Hkind)]; [reflexivity|].
    rewrite bool_decide_eq_false_2 by exact Hne.
    destruct n, there; first [reflexivity|discriminate Hkind]. }
  rewrite Hclash, Hw.
  assert (Hwithin : match n with
                    | Dir => Fs.within (Fs.key fs src) (Fs.key fs dest)
                    | File _ => false
                    end = false)
    by (destruct n; [apply Hinto; reflexivity|reflexivity]).
  rewrite Hwithin.
  destruct (Fs.pathExists fs (Path.dirname dest)) eqn:Hex.
  - unfold Fs.pathExists in Hex.
    destruct (Fs.find fs (Path.dirname dest)) as [v|] eqn:Hv; [|discriminate].
    apply find_key in Hv. rewrite Hv. destruct v as [|c]; [eexists; reflexivity|].
    exfalso. unfold Fs.node_at in Hv.
    destruct (Fs.key fs (Path.dirname dest)) as [|x l] eqn:Ek; [discriminate|].
    apply (Hfree (x :: l) [] c); [rewrite app_nil_r; reflexivity|discriminate|].
    exact Hv.
  - destruct (ensureDir_returns fs (Path.dirname dest) Hdn Hfree) as [fs1 E].
    rewrite E.
    assert (Hd : Fs.node_at (Fs.nodes fs1) (Fs.key fs (Path.dirname dest))
                 = Some Dir).
    { unfold Fs.node_at.
      destruct (Fs.key fs (Path.dirname dest)) as [|x l] eqn:Ek; [reflexivity|].
      apply (ensureDir_made _ _ _ _ E (x :: l) []);
        [rewrite app_nil_r; exact Ek|discriminate]. }
    rewrite Hd. eexists. reflexivity.
Qed.

Lemma node_at_grown fs fs' k (v : Node) :
  grown fs fs' -> Fs.node_at (Fs.nodes fs) k = Some v ->
  Fs.node_at (Fs.nodes fs') k = Some v.
Proof.
  intros (_ & Hm & _). unfold Fs.node_at. destruct k; [auto|apply Hm].
Qed.

Lemma find_grown fs fs' (p : string) (v : Node) :
  grown fs fs' -> Fs.find fs p = Some v -> Fs.find fs' p = Some v.
Proof.
  intros Hg. pose proof Hg as (Hc & _). unfold Fs.find, Fs.start, Fs.key.
  rewrite Hc. destruct (String.eqb p ""); [discriminate|].
  destruct (Fs.walk (Fs.nodes fs) _ _) as [k|] eqn:E; [|discriminate].
  rewrite (walk_grown _ (Fs.nodes fs') _ (fun k => node_at_grown fs fs' k Dir Hg)
             _ _ E).
  apply node_at_grown, Hg.
Qed.

(** In a tree where every node lies in a directory, so does every node
    above it. *)
Lemma closed_above n :
  closed_at n ->
  forall (t2 t1 : Fs.Key) (v : Node),
    n !! (t1 ++ t2) = Some v -> t2 <> [] -> Fs.node_at n t1 = Some Dir.
Proof.
  intros Hclosed t2. induction t2 as [|s t2 IH] using rev_ind;
    intros t1 v Hv Hne; [contradiction|].
  rewrite app_assoc in Hv. pose proof (Hclosed _ _ _ Hv) as Hparent.
  destruct t2 as [|x t2]; [rewrite app_nil_r in Hparent; exact Hparent|].
  apply (IH t1 Dir); [|discriminate].
  unfold Fs.node_at in Hparent.
  destruct (t1 ++ x :: t2) as [|y l] eqn:E; [|exact Hparent].
  apply app_eq_nil in E as [_ E]. discriminate E.
Qed.

Lemma sound_spec fs :
  Fs.sound fs = true ->
  tidy_at (Fs.nodes fs) /\ closed_at (Fs.nodes fs)
  /\ rooted (Fs.key fs "") fs.
Proof.
  unfold Fs.sound. intros [Hcwd H]%andb_true_iff.
  rewrite forallb_forall in H.
  assert (Hkv : forall k v, Fs.nodes fs !! k = Some v ->
            forallb Path.plain k = true
            /\ Fs.node_at (Fs.nodes fs) (removelast k) = Some Dir).
  { intros k v Hk.
    assert (Hin : In (k, v) (map_to_list (Fs.nodes fs)))
      by (apply list_elem_of_In, elem_of_map_to_list, Hk).
    specialize (H _ Hin). cbn in H. apply andb_true_iff in H as [H1 H2].
    split; [exact H1|].
    destruct (Fs.node_at (Fs.nodes fs) (removelast k)) as [[|c]|];
      first [reflexivity|discriminate H2]. }
  assert (Hclosed : closed_at (Fs.nodes fs)).
  { intros k s v Hk. destruct (Hkv _ v Hk) as [_ H2].
    rewrite removelast_last in H2. exact H2. }
  split; [|split; [exact Hclosed|]].
  - intros k v Hk. destruct (Hkv k v Hk) as [H1 _].
    apply Forall_forall. intros s Hs. rewrite forallb_forall in H1.
    apply H1, list_elem_of_In, Hs.
  - assert (Hk : Fs.node_at (Fs.nodes fs) (Fs.key fs "") = Some Dir)
      by (destruct (Fs.node_at (Fs.nodes fs) (Fs.key fs "")) as [[|c]|];
          first [reflexivity|discriminate Hcwd]).
    intros t1 t2 E Hne. rewrite E in Hk.
    assert (Hat : Fs.node_at (Fs.nodes fs) t1 = Some Dir).
    { destruct t2 as [|s t2]; [rewrite app_nil_r in Hk; exact Hk|].
      apply (closed_above _ Hclosed (s :: t2) t1 Dir); [|discriminate].
      unfold Fs.node_at in Hk. destruct (t1 ++ s :: t2) eqn:E'; [|exact Hk].
      apply app_eq_nil in E' as [_ E']. discriminate E'. }
    unfold Fs.node_at in Hat. destruct t1; [contradiction|exact Hat].
Qed.

(** In such a tree the walk to a node that is there is not stopped. *)
Lemma closed_paved fs k (v : Node) :
  closed_at (Fs.nodes fs) -> rooted (Fs.key fs "") fs ->
  Fs.nodes fs !! k = Some v -> paved fs k.
Proof.
  intros Hclosed Hcwd Hk. split; [exact Hcwd|].
  intros t1 t2 -> Hne1 Hne2.
  pose proof (closed_above _ Hclosed t2 t1 v Hk Hne2) as Hat.
  unfold Fs.node_at in Hat. destruct t1; [contradiction|exact Hat].
Qed.

Lemma fits_spec fs (src a : string) :
  Fs.fits fs src a = true ->
  forall (rel : Fs.Key) (v v' : Node),
    rel <> [] -> Fs.nodes fs !! (Fs.key fs src ++ rel) = Some v ->
    Fs.nodes fs !! (Fs.key fs a ++ rel) = Some v' ->
    Fs.same_kind v v' = true.
Proof.
  unfold Fs.fits. rewrite forallb_forall. intros H rel v v' Hne Hv Hv'.
  assert (Hin : In (rel, v) (Fs.entries fs (Fs.key fs src))).
  { apply list_elem_of_In, entries_spec. split; assumption. }
  specialize (H _ Hin). cbn in H.
  match type of H with
  | match ?o with _ => _ end = true =>
      replace o with (Some v') in H by (symmetry; exact Hv')
  end. exact H.
Qed.

End Tree.

(** ** The copy loop of the importer *)

Section CopyLoop.

Lemma normalize_names (l : list string) :
  l <> [] -> Forall (fun s => Path.plain s = true) l ->
  Path.normalize (Js.join_with "/" l) = Js.join_with "/" l.
Proof.
  intros Hne Hl. pose proof (plain_named _ Hl) as Hnamed.
  assert (Hsegs : Path.segments (Js.join_with "/" l) = l)
    by (apply segments_join; [exact Hne|apply named_noslash, Hnamed]).
  assert (Hstart : Js.startsWith (Js.join_with "/" l) "/" = false)
    by (apply startsWith_slash_join, Hnamed).
  assert (Hc : Path.normalize_segments
                 (negb (Js.startsWith (Js.join_with "/" l) "/")) []
                 (Path.segments (Js.join_with "/" l)) = l).
  { rewrite Hsegs. apply (normalize_segments_names _ l Hl []). }
  rewrite normalize_form.
  - rewrite Hc, Hstart. reflexivity.
  - destruct l as [|x l]; [contradiction|]. apply join_with_named, Hnamed.
  - destruct (exists_last Hne) as (l' & name & ->).
    apply Forall_app in Hnamed as [_ Hname]. apply Forall_inv in Hname.
    destruct Hname as [Hn0 Hns].
    destruct l' as [|y l'].
    + cbn [app Js.join_with]. apply endsWith_slash_name, Hns.
    + rewrite join_with_snoc by discriminate.
      rewrite endsWith_slash_app by discriminate.
      rewrite (endsWith_slash_app "/" name Hn0).
      apply endsWith_slash_name, Hns.
  - rewrite Hc. exact Hne.
Qed.

Lemma strip_common_app (s r : list string) :
  Path.strip_common s (s ++ r) = ([], r).
Proof.
  induction s as [|x s IH]; [destruct r; reflexivity|].
  cbn. rewrite String.eqb_refl. exact IH.
Qed.

(** The key of the parent of a nested directory entry. *)
Lemma key_parent (fs : FS) (r : list string) :
  Forall (fun s => Path.plain s = true) r ->
  forall d : string,
    Fs.key fs (foldl (fun parent name => Path.join [parent; name]) d r)
    = Fs.key fs d ++ r.
Proof.
  induction r as [|x r IH]; intros Hr d.
  - cbn. rewrite app_nil_r. reflexivity.
  - cbn [foldl]. rewrite (IH (Forall_inv_tail Hr)).
    rewrite (key_join fs d [x])
      by (constructor; [exact (Forall_inv Hr)|constructor]).
    rewrite <- app_assoc. reflexivity.
Qed.

(** [relativePath] of the entry of a node is the path of the node from the
    directory that was read. *)
Lemma relativePath_dirent (fs : FS) (d : string) (rel : Fs.Key) (v : Node) :
  rel <> [] -> Forall (fun s => Path.plain s = true) rel ->
  Importer.relativePath fs d (Fs.dirent d (rel, v)) = Js.join_with "/" rel.
Proof.
  intros Hne Hrel. destruct (exists_last Hne) as (r & name & ->).
  pose proof (proj1 (Forall_app _ _ _) Hrel) as [Hr Hname].
  apply Forall_inv in Hname.
  unfold Importer.relativePath, Fs.dirent.
  cbn [Fs.parentPath Fs.dirent_name fst snd].
  rewrite last_snoc, removelast_last. cbn [default].
  destruct r as [|x r].
  - cbn [foldl]. rewrite String.eqb_refl. reflexivity.
  - set (parent := foldl (fun parent name => Path.join [parent; name]) d (x :: r)).
    assert (Hkey : Fs.key fs parent = Fs.key fs d ++ x :: r)
      by (apply key_parent, Hr).
    destruct (String.eqb_spec parent d) as [E|_].
    + exfalso. rewrite E in Hkey.
      rewrite <- (app_nil_r (Fs.key fs d)) in Hkey at 1.
      apply app_inv_head in Hkey. discriminate Hkey.
    + unfold Path.relative. fold (Fs.key fs d). fold (Fs.key fs parent).
      rewrite Hkey, strip_common_app. cbn [map app].
      assert (Hx : Js.join_with "/" (x :: r) <> "")
        by (apply join_with_named, plain_named, Hr).
      assert (Hn : name <> "") by (apply plain_spec in Hname; tauto).
      unfold Path.join.
      rewrite filter_cons_True by exact Hx.
      rewrite filter_cons_True by exact Hn. rewrite filter_nil.
      change (Js.join_with "/" [?a; ?b]) with (a +:+ "/" +:+ b).
      rewrite <- join_with_snoc by discriminate.
      apply normalize_names; [discriminate|exact Hrel].
Qed.

Lemma dirname_child_form (q name : string) :
  Path.plain name = true -> child_form q name -> Path.dirname q <> "".
Proof.
  intros Hname [->|[->|(pre & Hpre & Hroot & ->)]].
  - rewrite dirname_name by exact Hname. discriminate.
  - rewrite dirname_root_name by exact Hname. discriminate.
  - rewrite dirname_child by assumption. exact Hpre.
Qed.

(** The directory of a path made of a directory and names below it. *)
Lemma dirname_join (fs : FS) (a : string) (r : list string) (name : string) :
  Forall (fun s => Path.plain s = true) (r ++ [name]) ->
  Path.dirname (Path.join (a :: r ++ [name])) <> ""
  /\ Fs.key fs (Path.dirname (Path.join (a :: r ++ [name]))) = Fs.key fs a ++ r.
Proof.
  intros Hrel.
  assert (Hname : Path.plain name = true).
  { apply Forall_app in Hrel as [_ H]. exact (Forall_inv H). }
  assert (Hform : child_form (Path.join (a :: r ++ [name])) name).
  { rewrite join_names by exact Hrel. apply join_child_form, Hrel. }
  split; [exact (dirname_child_form _ _ Hname Hform)|].
  pose proof (resolve_dirname (Fs.cwd fs) _ _ Hname Hform) as Hk.
  fold (Fs.key fs (Path.dirname (Path.join (a :: r ++ [name])))) in Hk.
  fold (Fs.key fs (Path.join (a :: r ++ [name]))) in Hk.
  rewrite key_join in Hk by exact Hrel.
  remember (Fs.key fs (Path.dirname (Path.join (a :: r ++ [name])))) as kd.
  rewrite app_assoc in Hk. apply app_inj_tail in Hk as [Hk _]. exact Hk.
Qed.

(** Such a path can be written to. *)
Lemma join_writable (fs : FS) (a : string) (rel : list string) (n : Node) :
  rel <> [] -> Forall (fun s => Path.plain s = true) rel ->
  Fs.unwritable fs (Path.join (a :: rel)) n = false.
Proof.
  intros Hne Hrel. destruct (exists_last Hne) as (r & name & ->).
  assert (Hname : Path.plain name = true).
  { apply Forall_app in Hrel as [_ H]. exact (Forall_inv H). }
  assert (Hform : child_form (Path.join (a :: r ++ [name])) name).
  { rewrite join_names by exact Hrel. apply join_child_form, Hrel. }
  destruct (child_form_last _ _ Hname Hform) as [Hq Hlast].
  unfold Fs.unwritable, Fs.wants_dir. rewrite Hlast.
  destruct (String.eqb_spec (Path.join (a :: r ++ [name])) ""); [contradiction|].
  apply plain_spec in Hname as (H1 & H2 & _).
  destruct (String.eqb_spec name "") as [->|_]; [contradiction|].
  destruct (String.eqb_spec name ".") as [->|_]; [contradiction|].
  reflexivity.
Qed.

Variables (w d a : string).

Local Abbreviation S := (Path.resolve_segments w d).
Local Abbreviation D := (Path.resolve_segments w a).

Hypothesis source_outside : Fs.within D S = false.
Hypothesis target_outside : Fs.within S D = false.

(** What the directory listing gave. *)
Variable all : list (Fs.Key * Node).

Hypothesis all_named :
  forall rel v, (rel, v) ∈ all ->
    rel <> [] /\ Forall (fun s => Path.plain s = true) rel.

Local Abbreviation intact := (intact w S all).
Local Abbreviation placed := (placed D).

(** When the directory of a destination has been made, the walk to the
    destination is not stopped. *)
Lemma destination_paved (fs fsa : FS) (u : unit) (rel : Fs.Key) :
  Fs.cwd fs = w -> rooted (Fs.key fs "") fs ->
  rel <> [] -> Forall (fun s => Path.plain s = true) rel ->
  Fs.ensureDir fs (Path.dirname (Path.join (a :: rel))) = (fsa, Returns u) ->
  paved fsa (D ++ rel).
Proof.
  intros Hcwd Hroot Hne Hrel Ea.
  pose proof (ensureDir_grown _ _ _ _ Ea) as (Hca & Hma & _).
  destruct (exists_last Hne) as (r & name & ->).
  destruct (dirname_join fs a r name Hrel) as [_ Hkd].
  replace (Fs.key fs a) with D in Hkd
    by (unfold Fs.key; rewrite Hcwd; reflexivity).
  split.
  - unfold Fs.key. rewrite Hca. fold (Fs.key fs "").
    exact (rooted_kept fs fsa _ (fun k => Hma k Dir) Hroot).
  - intros t1 t2 E Hne1 Hne2.
    destruct (exists_last Hne2) as (t2' & name' & ->).
    rewrite !app_assoc in E. apply app_inj_tail in E as [E _].
    apply (ensureDir_made _ _ _ _ Ea t1 t2'); [|exact Hne1].
    rewrite Hkd. exact E.
Qed.

Lemma copy_entry_step (fs fs1 : FS) (u : unit) (rel : Fs.Key) (v : Node) :
  intact fs -> (rel, v) ∈ all ->
  Importer.copy_entry d a fs (Fs.dirent d (rel, v)) = (fs1, Returns u) ->
  intact fs1
  /\ (forall c, v = File c -> placed fs1 rel c)
  /\ (forall rel0 c0, (rel0, File c0) ∈ all ->
        placed fs rel0 c0 -> placed fs1 rel0 c0)
  /\ (forall k, Fs.nodes fs !! k = Some Dir -> Fs.nodes fs1 !! k = Some Dir).
Proof.
  intros (Hcwd & Hsrc & Hroot & Hway) Hin.
  destruct (all_named _ _ Hin) as [Hne Hrel].
  unfold Importer.copy_entry. destruct v as [|c].
  - cbn. intros [= <-]. split; [repeat split; assumption|].
    split; [discriminate|auto].
  - cbn [Fs.isFile Fs.dirent snd].
    rewrite relativePath_dirent by assumption.
    rewrite <- !join_names by exact Hrel.
    destruct (Fs.ensureDir fs (Path.dirname (Path.join (a :: rel))))
      as [fsa [[]|e]] eqn:Ea; [|discriminate].
    pose proof (ensureDir_grown _ _ _ _ Ea) as (Hca & Hma & _).
    pose proof (destination_paved _ _ _ _ Hcwd Hroot Hne Hrel Ea) as Hpaved.
    intros Hcopy.
    assert (HS : Fs.key fsa d = S) by (unfold Fs.key; rewrite Hca, Hcwd; reflexivity).
    assert (HD : Fs.key fsa a = D) by (unfold Fs.key; rewrite Hca, Hcwd; reflexivity).
    assert (Hfind : Fs.find fsa (Path.join (d :: rel)) = Some (File c)).
    { rewrite find_join; [|exact Hne|exact Hrel|].
      - rewrite HS. apply Hma, (Hsrc _ _ Hin).
      - rewrite HS. split; [exact (proj1 Hpaved)|].
        intros t1 t2 E H1 H2. exact (Hma _ _ (Hway _ _ t1 t2 Hin E H1 H2)). }
    assert (Hfound : Fs.find fsa (Path.join (a :: rel))
                     = Fs.node_at (Fs.nodes fsa)
                         (Fs.key fsa (Path.join (a :: rel)))).
    { rewrite key_join, HD by exact Hrel.
      rewrite find_join; [|exact Hne|exact Hrel|rewrite HD; exact Hpaved].
      rewrite HD. symmetry. apply node_at_app, Hne. }
    destruct (copy_file _ _ _ _ _ _ Hfind Hfound Hcopy)
      as (Hc1 & Hdest & Hnodir & Hkeep).
    rewrite key_join, HD in Hdest, Hnodir, Hkeep by exact Hrel.
    assert (Hdir : forall k, Fs.nodes fs !! k = Some Dir ->
                             Fs.nodes fs1 !! k = Some Dir).
    { intros k Hk. apply Hma in Hk. apply Hkeep; [|exact Hk].
      intros ->. contradiction. }
    split; [|split; [|split; [|exact Hdir]]].
    + split; [congruence|]. split; [|split].
      * intros rel' v' Hin'.
        apply Hkeep; [apply apart_app; assumption|].
        apply Hma, (Hsrc _ _ Hin').
      * unfold Fs.key. rewrite Hc1, Hca. fold (Fs.key fs "").
        exact (rooted_kept fs fs1 _ Hdir Hroot).
      * intros rel' v' t1 t2 Hin' E H1 H2.
        exact (Hdir _ (Hway _ _ t1 t2 Hin' E H1 H2)).
    + intros c0 [= <-]. split; [exact Hdest|].
      intros r1 r2 -> Hr1 Hr2.
      apply Hkeep.
      { intros E. apply app_inv_head in E.
        rewrite <- (app_nil_r r1) in E at 1. apply app_inv_head in E.
        symmetry in E. contradiction. }
      destruct (exists_last Hr2) as (r2' & name & ->).
      assert (Hname : Path.plain name = true).
      { rewrite Forall_forall in Hrel. apply Hrel.
        apply elem_of_app. right. apply elem_of_app. right. left. }
      assert (Hform : child_form (Path.join (a :: r1 ++ r2' ++ [name])) name).
      { rewrite join_names by exact Hrel.
        rewrite app_assoc. apply join_child_form.
        rewrite <- app_assoc. exact Hrel. }
      pose proof (resolve_dirname (Fs.cwd fs) _ _ Hname Hform) as Hk.
      fold (Fs.key fs (Path.dirname (Path.join (a :: r1 ++ r2' ++ [name])))) in Hk.
      fold (Fs.key fs (Path.join (a :: r1 ++ r2' ++ [name]))) in Hk.
      rewrite key_join in Hk by exact Hrel.
      replace (Fs.key fs a) with D in Hk by (unfold Fs.key; rewrite Hcwd; reflexivity).
      remember (Fs.key fs (Path.dirname (Path.join (a :: r1 ++ r2' ++ [name]))))
        as kd eqn:Hkd.
      rewrite !app_assoc in Hk. apply app_inj_tail in Hk as [Hk _].
      apply (ensureDir_made _ _ _ _ Ea (D ++ r1) r2').
      * rewrite <- Hkd. exact Hk.
      * intros E. apply app_eq_nil in E as [_ E]. contradiction.
    + intros rel0 c0 Hin0 [Hfile Hparents].
      destruct (decide (rel0 = rel)) as [->|Hdiff].
      * assert (c0 = c) as ->.
        { pose proof (Hsrc _ _ Hin0) as H0. pose proof (Hsrc _ _ Hin) as H1.
          congruence. }
        split; [exact Hdest|]. intros r1 r2 E Hr1 Hr2.
        apply Hdir, (Hparents r1 r2 E Hr1 Hr2).
      * split.
        -- apply Hkeep; [|apply Hma, Hfile].
           intros E. apply app_inv_head in E. contradiction.
        -- intros r1 r2 E Hr1 Hr2. apply Hdir, (Hparents r1 r2 E Hr1 Hr2).
Qed.

(** The loop, when it returns, has placed every file of its list and kept
    what was placed before. *)
Lemma copy_entries_spec (l : list (Fs.Key * Node)) :
  forall (fs fs' : FS) (u : unit),
    intact fs -> (forall e, e ∈ l -> e ∈ all) ->
    Importer.copy_entries d a fs (map (Fs.dirent d) l) = (fs', Returns u) ->
    intact fs'
    /\ (forall rel c, (rel, File c) ∈ l -> placed fs' rel c)
    /\ (forall rel0 c0, (rel0, File c0) ∈ all ->
          placed fs rel0 c0 -> placed fs' rel0 c0)
    /\ (forall k, Fs.nodes fs !! k = Some Dir -> Fs.nodes fs' !! k = Some Dir).
Proof.
  induction l as [|[rel v] l IH]; intros fs fs' u Hfs Hl.
  - cbn. intros [= <-]. split; [exact Hfs|]. split; [|auto].
    intros rel c Hin. inversion Hin.
  - cbn [map Importer.copy_entries].
    destruct (Importer.copy_entry d a fs (Fs.dirent d (rel, v)))
      as [fs1 [[]|e]] eqn:E1; [|discriminate].
    intros Hrest.
    assert (Hin : (rel, v) ∈ all) by (apply Hl; left).
    destruct (copy_entry_step _ _ _ _ _ Hfs Hin E1) as (H1 & Hnew & Hold & Hd1).
    destruct (IH _ _ _ H1 (fun e He => Hl e (list_elem_of_further _ _ _ He)) Hrest)
      as (H2 & Hl' & Hkeep & Hd2).
    split; [exact H2|]. split; [|split].
    + intros rel0 c0 Hin0. apply elem_of_cons in Hin0 as [E|Hin0].
      * injection E as -> <-. apply Hkeep; [exact Hin|]. apply Hnew. reflexivity.
      * apply Hl', Hin0.
    + intros rel0 c0 Hin0 Hp. apply Hkeep; [exact Hin0|].
      apply Hold; assumption.
    + intros k Hk. apply Hd2, Hd1, Hk.
Qed.

(** *** When the loop returns *)

Hypothesis all_nested : nested_listing all.

Local Abbreviation fitting := (fitting D all).
Local Abbreviation rooted := (rooted D).

(** No file is in the way of the directory of a destination. *)
Lemma destination_free (fs : FS) (r : Fs.Key) (name : string) (v : Node) :
  intact fs -> fitting fs -> rooted fs -> (r ++ [name], v) ∈ all ->
  forall (t1 t2 : Fs.Key) (c : string),
    D ++ r = t1 ++ t2 -> t1 <> [] -> Fs.nodes fs !! t1 <> Some (File c).
Proof.
  intros (_ & Hsrc & _) Hfit Hroot Hin t1 t2 c E Hne Hfile.
  apply app_eq_app in E as [l [[E1 E2]|[E1 E2]]].
  - rewrite (Hroot t1 l E1 Hne) in Hfile. discriminate Hfile.
  - subst t1 r. destruct l as [|x l].
    + rewrite app_nil_r in Hfile, Hne.
      rewrite (Hroot D [] (eq_sym (app_nil_r D)) Hne) in Hfile. discriminate Hfile.
    + assert (Hdir : (x :: l, Dir) ∈ all).
      { apply (all_nested (x :: l) (t2 ++ [name]) v).
        - rewrite app_assoc. exact Hin.
        - discriminate.
        - intros E. apply app_eq_nil in E as [_ E]. discriminate E. }
      pose proof (Hfit _ _ _ Hdir Hfile) as Hkind. discriminate Hkind.
Qed.

Lemma copy_entry_returns (fs : FS) (rel : Fs.Key) (v : Node) :
  intact fs -> fitting fs -> rooted fs -> (rel, v) ∈ all ->
  exists fs1,
    Importer.copy_entry d a fs (Fs.dirent d (rel, v)) = (fs1, Returns tt)
    /\ fitting fs1 /\ rooted fs1.
Proof.
  intros Hint Hfit Hroot Hin. pose proof Hint as (Hcwd & Hsrc & Hcwdir & Hway).
  destruct (all_named _ _ Hin) as [Hne Hrel].
  unfold Importer.copy_entry. destruct v as [|c].
  - exists fs. cbn. repeat split; assumption.
  - cbn [Fs.isFile Fs.dirent snd].
    rewrite relativePath_dirent by assumption.
    rewrite <- !join_names by exact Hrel.
    destruct (exists_last Hne) as (r & name & ->).
    destruct (dirname_join fs a r name Hrel) as [Hdn Hkd].
    replace (Fs.key fs a) with D in Hkd
      by (unfold Fs.key; rewrite Hcwd; reflexivity).
    pose proof (destination_free fs r name _ Hint Hfit Hroot Hin) as Hfree.
    destruct (ensureDir_returns fs _ Hdn) as [fsa Ea].
    { intros t1 t2 c0 E. rewrite Hkd in E. exact (Hfree t1 t2 c0 E). }
    rewrite Ea.
    pose proof (ensureDir_grown _ _ _ _ Ea) as Hg.
    pose proof Hg as (Hca & Hma & _).
    pose proof (ensureDir_new _ _ _ _ Ea) as Hnew. rewrite Hkd in Hnew.
    assert (HS : Fs.key fsa d = S) by (unfold Fs.key; rewrite Hca, Hcwd; reflexivity).
    assert (HD : Fs.key fsa a = D) by (unfold Fs.key; rewrite Hca, Hcwd; reflexivity).
    assert (Hkda : Fs.key fsa (Path.dirname (Path.join (a :: r ++ [name])))
                   = D ++ r).
    { rewrite <- Hkd. unfold Fs.key. rewrite Hca. reflexivity. }
    pose proof (destination_paved _ _ _ _ Hcwd Hcwdir Hne Hrel Ea) as Hpaved.
    assert (Hfind : Fs.find fsa (Path.join (d :: r ++ [name])) = Some (File c)).
    { rewrite find_join; [|exact Hne|exact Hrel|].
      - rewrite HS. apply Hma, (Hsrc _ _ Hin).
      - rewrite HS. split; [exact (proj1 Hpaved)|].
        intros t1 t2 E H1 H2. exact (Hma _ _ (Hway _ _ t1 t2 Hin E H1 H2)). }
    assert (Hfound : Fs.find fsa (Path.join (a :: r ++ [name]))
                     = Fs.nodes fsa !! (D ++ r ++ [name])).
    { rewrite find_join; [|exact Hne|exact Hrel|rewrite HD; exact Hpaved].
      rewrite HD. reflexivity. }
    (* a directory made on the way is listed as one *)
    assert (Hmade : forall (rel0 : Fs.Key) (t2 : Fs.Key) v0,
              (rel0, v0) ∈ all -> D ++ r = (D ++ rel0) ++ t2 -> v0 = Dir).
    { intros rel0 t2 v0 Hin0 E. rewrite <- app_assoc in E.
      apply app_inv_head in E. subst r.
      destruct (all_named _ _ Hin0) as [Hne0 _].
      assert (Hdir : (rel0, Dir) ∈ all).
      { apply (all_nested rel0 (t2 ++ [name]) (File c)).
        - rewrite app_assoc. exact Hin.
        - exact Hne0.
        - intros E. apply app_eq_nil in E as [_ E]. discriminate E. }
      pose proof (Hsrc _ _ Hin0) as H0. pose proof (Hsrc _ _ Hdir) as H1.
      congruence. }
    assert (Hfita : fitting fsa).
    { intros rel0 v0 v' Hin0 Hv'.
      destruct (Hnew _ _ Hv') as [Hold|(-> & _ & t2 & E)].
      - exact (Hfit _ _ _ Hin0 Hold).
      - rewrite (Hmade rel0 t2 v0 Hin0 E). reflexivity. }
    destruct (copy_returns fsa (Path.join (d :: r ++ [name]))
                (Path.join (a :: r ++ [name])) (File c) Hfind) as [fs1 Ecopy].
    + rewrite Hfound. rewrite !key_join by exact Hrel.
      rewrite HS, HD.
      destruct (Fs.nodes fsa !! (D ++ r ++ [name])) as [v'|] eqn:Ev;
        [|left; reflexivity].
      right. split; [apply apart_app; assumption|].
      exists v'. split; [reflexivity|]. exact (Hfita _ _ _ Hin Ev).
    + apply join_writable; assumption.
    + discriminate.
    + exact Hdn.
    + intros t1 t2 c0 E Hne1 Hfile. rewrite Hkda in E.
      destruct (Hnew _ _ Hfile) as [Hold|(Hd & _)]; [|discriminate Hd].
      exact (Hfree t1 t2 c0 E Hne1 Hold).
    + exists fs1. split; [exact Ecopy|].
      pose proof (copy_file_new _ _ _ _ _ _ Hfind Ecopy) as Hnew1.
      rewrite key_join, HD, Hkda in Hnew1 by exact Hrel.
      assert (Hfound' : Fs.find fsa (Path.join (a :: r ++ [name]))
                        = Fs.node_at (Fs.nodes fsa)
                            (Fs.key fsa (Path.join (a :: r ++ [name])))).
      { rewrite Hfound, key_join, HD by exact Hrel.
        symmetry. apply node_at_app, Hne. }
      destruct (copy_file _ _ _ _ _ _ Hfind Hfound' Ecopy) as (_ & _ & _ & Hkeep).
      rewrite key_join, HD in Hkeep by exact Hrel.
      split.
      * intros rel0 v0 v' Hin0 Hv'.
        destruct (Hnew1 _ _ Hv') as [[E ->]|[Hold|(-> & _ & t2 & E)]].
        -- apply app_inv_head in E. subst rel0.
           pose proof (Hsrc _ _ Hin0) as H0. pose proof (Hsrc _ _ Hin) as H1.
           assert (v0 = File c) as -> by congruence. reflexivity.
        -- exact (Hfita _ _ _ Hin0 Hold).
        -- rewrite (Hmade rel0 t2 v0 Hin0 E). reflexivity.
      * intros t1 t2 E Hne1. apply Hkeep; [|apply Hma, (Hroot t1 t2 E Hne1)].
        intros E'. rewrite E' in E. rewrite <- app_assoc in E.
        rewrite <- (app_nil_r D) in E at 1. apply app_inv_head in E.
        symmetry in E. apply app_eq_nil in E as [E _].
        apply app_eq_nil in E as [_ E]. discriminate E.
Qed.

(** The loop returns when nothing stands in its way. *)
Lemma copy_entries_returns (l : list (Fs.Key * Node)) :
  forall fs : FS,
    intact fs -> fitting fs -> rooted fs -> (forall e, e ∈ l -> e ∈ all) ->
    exists fs',
      Importer.copy_entries d a fs (map (Fs.dirent d) l) = (fs', Returns tt)
      /\ Fs.cwd fs' = w /\ rooted fs'.
Proof.
  induction l as [|[rel v] l IH]; intros fs Hint Hfit Hroot Hl.
  - exists fs. split; [reflexivity|]. split; [exact (proj1 Hint)|exact Hroot].
  - cbn [map Importer.copy_entries].
    assert (Hin : (rel, v) ∈ all) by (apply Hl; left).
    destruct (copy_entry_returns fs rel v Hint Hfit Hroot Hin)
      as (fs1 & E1 & Hfit1 & Hroot1).
    destruct (copy_entry_step _ _ _ _ _ Hint Hin E1) as (Hint1 & _).
    rewrite E1.
    exact (IH fs1 Hint1 Hfit1 Hroot1
             (fun e He => Hl e (list_elem_of_further _ _ _ He))).
Qed.

End CopyLoop.
(** ** The secret scan *)

Section Matcher.

Lemma rep_k_consumes (p : ascii -> bool) (s : string) :
  forall (lo : nat) (hi : option nat) (k : string -> option string) (x : string),
    Re.rep_k p lo hi s k = Some x ->
    exists mid, k mid = Some x /\ String.length mid + lo <= String.length s.
Proof.
  induction s as [|c s IH]; intros lo hi k x H.
  - assert (Hstop : match lo with O => k "" | S _ => None end = Some x)
      by (destruct hi as [[|h]|]; exact H).
    destruct lo; [|discriminate]. exists "". split; [exact Hstop|cbn; lia].
  - assert (Hcases :
      (p c = true /\ Re.rep_k p (Nat.pred lo) (Nat.pred <$> hi) s k = Some x)
      \/ match lo with O => k (String c s) | S _ => None end = Some x).
    { destruct hi as [[|h]|]; cbn [Re.rep_k] in H;
        [right; exact H| |];
        (destruct (p c); [|right; exact H]);
        match type of H with
        | context [Re.rep_k p ?a ?b s k] =>
            destruct (Re.rep_k p a b s k) eqn:E
        end; [left; split; [reflexivity|exact H]|right; exact H
             |left; split; [reflexivity|exact H]|right; exact H]. }
    destruct Hcases as [[_ Hrec]|Hstop].
    + destruct (IH _ _ _ _ Hrec) as (mid & Hk & Hlen).
      exists mid. split; [exact Hk|cbn [String.length]; lia].
    + destruct lo; [|discriminate].
      exists (String c s). split; [exact Hstop|lia].
Qed.

(** A successful run consumes at least [min_len r] characters. *)
Lemma run_consumes (r : Re.regex) :
  forall (s : string) (k : string -> option string) (x : string),
    Re.run r s k = Some x ->
    exists mid, k mid = Some x /\ String.length mid + Re.min_len r <= String.length s.
Proof.
  induction r as [|p|p lo hi|r1 IH1 r2 IH2|r1 IH1 r2 IH2]; intros s k x H;
    cbn [Re.run Re.min_len] in *.
  - exists s. split; [exact H|lia].
  - destruct s as [|c s]; [discriminate|].
    destruct (p c); [|discriminate].
    exists s. split; [exact H|cbn [String.length]; lia].
  - exact (rep_k_consumes p s lo hi k x H).
  - destruct (IH1 _ _ _ H) as (mid1 & H1 & L1).
    destruct (IH2 _ _ _ H1) as (mid & H2 & L2).
    exists mid. split; [exact H2|lia].
  - destruct (Re.run r1 s k) as [y|] eqn:E.
    + injection H as ->. destruct (IH1 _ _ _ E) as (mid & Hk & L).
      exists mid. split; [exact Hk|lia].
    + destruct (IH2 _ _ _ H) as (mid & Hk & L).
      exists mid. split; [exact Hk|lia].
Qed.

Lemma string_substring_length (n : nat) (s : string) :
  n <= String.length s -> String.length (String.substring 0 n s) = n.
Proof.
  revert s. induction n as [|n IH]; intros s H.
  - destruct s; reflexivity.
  - destruct s as [|c s]; cbn [String.length] in H; [lia|].
    cbn [String.substring String.length]. f_equal. apply IH. lia.
Qed.

Lemma first_match_length (r : Re.regex) (s m : string) :
  Re.first_match r s = Some m -> Re.min_len r <= String.length m.
Proof.
  induction s as [|c s IH]; cbn [Re.first_match].
  - destruct (Re.run r "" Some) as [rest|] eqn:E; [|discriminate].
    intros [= <-]. destruct (run_consumes r _ _ _ E) as (mid & [= ->] & L).
    unfold Re.consumed. rewrite string_substring_length; lia.
  - destruct (Re.run r (String c s) Some) as [rest|] eqn:E; [|exact IH].
    intros [= <-]. destruct (run_consumes r _ _ _ E) as (mid & [= ->] & L).
    unfold Re.consumed. rewrite string_substring_length; lia.
Qed.

Lemma string_prefix_length (p s : string) :
  String.prefix p s = true -> String.length p <= String.length s.
Proof.
  revert s. induction p as [|c p IH]; intros s H; [cbn; lia|].
  destruct s as [|d s]; cbn [String.prefix] in H; [discriminate|].
  destruct (ascii_dec c d); [|discriminate].
  cbn [String.length]. specialize (IH s H). lia.
Qed.

Lemma includes_length (s sub : string) :
  Js.includes s sub = true -> String.length sub <= String.length s.
Proof.
  induction s as [|c s IH]; cbn [Js.includes]; intros H.
  - rewrite orb_false_r in H. exact (string_prefix_length _ _ H).
  - apply orb_true_iff in H as [H|H].
    + exact (string_prefix_length _ _ H).
    + specialize (IH H). cbn [String.length]. lia.
Qed.

Lemma string_append_length (a b : string) :
  String.length (a +:+ b) = String.length a + String.length b.
Proof.
  induction a as [|c a IH]; [reflexivity|].
  change (String c a +:+ b) with (String c (a +:+ b)).
  cbn [String.length]. rewrite IH. reflexivity.
Qed.

(** Every secret pattern needs at least 25 characters. *)
Lemma secret_patterns_long :
  Forall (fun p => 25 <= Re.min_len p) Scanner.secretPatterns.
Proof. repeat constructor; vm_compute; lia. Qed.

(** What is kept of a match of 25 characters or more: 20 of them and the
    ellipsis, 23 characters in which the match does not fit. *)
Lemma redact_hides (m : string) :
  25 <= String.length m ->
  String.length (Js.slice0 20 m) = 20
  /\ String.length (Scanner.redact m) = 23
  /\ Js.includes (Scanner.redact m) m = false.
Proof.
  intros H.
  assert (H20 : String.length (Js.slice0 20 m) = 20)
    by (apply string_substring_length; lia).
  assert (H23 : String.length (Scanner.redact m) = 23).
  { unfold Scanner.redact. rewrite string_append_length, H20. reflexivity. }
  split; [exact H20|]. split; [exact H23|].
  destruct (Js.includes (Scanner.redact m) m) eqn:E; [|reflexivity].
  apply includes_length in E. lia.
Qed.

End Matcher.

Section SecretScan.

Variables (fs : FS) (ws : string).

(** The inner loop yields one record for each pattern that matches. *)
Lemma line_leaks_records (f : string) (i : nat) (text : string) :
  Scanner.line_leaks f i text = line_records f i text.
Proof.
  unfold Scanner.line_leaks, line_records.
  generalize Scanner.secretPatterns. intros l.
  induction l as [|p l IH]; [reflexivity|].
  cbn [flat_map omap list_omap]. rewrite IH.
  destruct (Re.first_match p text); reflexivity.
Qed.

Lemma line_records_elem (f : string) (i : nat) (text : string) (r : Scanner.Leak) :
  r ∈ line_records f i text ->
  exists p m,
    p ∈ Scanner.secretPatterns /\ Re.first_match p text = Some m
    /\ r = {| Scanner.file := f; Scanner.line := i + 1;
              Scanner.match_ := Scanner.redact m |}.
Proof.
  unfold line_records. intros Hr.
  apply list_elem_of_omap in Hr as (p & Hp & Hr).
  destruct (Re.first_match p text) as [m|] eqn:E; [|discriminate].
  injection Hr as <-. exists p, m. split; [exact Hp|].
  split; [exact E|reflexivity].
Qed.

Lemma lines_leaks_elem (f : string) (lines : list string) :
  forall (i0 : nat) (r : Scanner.Leak),
    r ∈ Scanner.lines_leaks f i0 lines ->
    exists j text,
      lines !! j = Some text /\ r ∈ line_records f (i0 + j) text.
Proof.
  induction lines as [|text lines IH]; intros i0 r Hr; cbn [Scanner.lines_leaks] in Hr.
  - inversion Hr.
  - apply elem_of_app in Hr as [Hr|Hr].
    + exists 0, text. split; [reflexivity|].
      rewrite Nat.add_0_r, <- line_leaks_records. exact Hr.
    + destruct (IH _ _ Hr) as (j & t & Hj & Ht).
      exists (S j), t. split; [exact Hj|].
      replace (i0 + S j) with (S i0 + j) by lia. exact Ht.
Qed.

Lemma lines_leaks_field (f : string) (lines : list string) (i0 : nat)
    (r : Scanner.Leak) :
  r ∈ Scanner.lines_leaks f i0 lines ->
  Scanner.file r = f /\ i0 < Scanner.line r.
Proof.
  intros Hr. destruct (lines_leaks_elem _ _ _ _ Hr) as (j & t & _ & Ht).
  destruct (line_records_elem _ _ _ _ Ht) as (p & m & _ & _ & ->).
  cbn. split; [reflexivity|lia].
Qed.

(** The records of the line with index [i0 + j] among those of the lines
    from [i0] on. *)
Lemma lines_leaks_at (f : string) (lines : list string) :
  forall i0 j : nat,
    filter (fun r => Scanner.file r = f /\ Scanner.line r = i0 + j + 1)
      (Scanner.lines_leaks f i0 lines)
    = match lines !! j with
      | Some text => line_records f (i0 + j) text
      | None => []
      end.
Proof.
  induction lines as [|text lines IH]; intros i0 j; [reflexivity|].
  cbn [Scanner.lines_leaks]. rewrite filter_app.
  destruct j as [|j]; cbn [lookup list_lookup].
  - rewrite filter_every, line_leaks_records.
    + rewrite filter_none; [rewrite app_nil_r, Nat.add_0_r; reflexivity|].
      intros r Hr [_ Hl]. apply lines_leaks_field in Hr as [_ Hr]. lia.
    + intros r Hr. rewrite line_leaks_records in Hr.
      destruct (line_records_elem _ _ _ _ Hr) as (p & m & _ & _ & ->).
      cbn. split; [reflexivity|lia].
  - rewrite filter_none.
    + replace (i0 + S j + 1) with (S i0 + j + 1) by lia. rewrite IH.
      replace (S i0 + j) with (i0 + S j) by lia. reflexivity.
    + intros r Hr [_ Hl]. rewrite line_leaks_records in Hr.
      destruct (line_records_elem _ _ _ _ Hr) as (p & m & _ & _ & ->).
      cbn in Hl. lia.
Qed.

Lemma file_leaks_elem (f : string) (r : Scanner.Leak) :
  r ∈ Scanner.file_leaks fs ws f ->
  exists i text p m,
    scanned_line fs ws f i = Some text
    /\ p ∈ Scanner.secretPatterns /\ Re.first_match p text = Some m
    /\ r = {| Scanner.file := f; Scanner.line := i + 1;
              Scanner.match_ := Scanner.redact m |}.
Proof.
  unfold Scanner.file_leaks, scanned_line.
  destruct (Scanner.is_text_file f); cbn [negb]; [|intros Hr; inversion Hr].
  destruct (Fs.readFile fs (Path.join [ws; f])) as [content|];
    [|intros Hr; inversion Hr].
  intros Hr. destruct (lines_leaks_elem _ _ _ _ Hr) as (j & t & Hj & Ht).
  destruct (line_records_elem _ _ _ _ Ht) as (p & m & Hp & Hm & ->).
  exists j, t, p, m. cbn. split; [exact Hj|]. split; [exact Hp|].
  split; [exact Hm|reflexivity].
Qed.

Lemma file_leaks_at (f' f : string) (i : nat) :
  filter (fun r => Scanner.file r = f /\ Scanner.line r = i + 1)
    (Scanner.file_leaks fs ws f')
  = if decide (f' = f)
    then match scanned_line fs ws f i with
         | Some text => line_records f i text
         | None => []
         end
    else [].
Proof.
  destruct (decide (f' = f)) as [->|Hne].
  - unfold Scanner.file_leaks, scanned_line.
    destruct (Scanner.is_text_file f); cbn [negb]; [|reflexivity].
    destruct (Fs.readFile fs (Path.join [ws; f])) as [content|]; [|reflexivity].
    exact (lines_leaks_at f (Js.split_on "010" content) 0 i).
  - apply filter_none. intros r Hr [Hf _].
    destruct (file_leaks_elem _ _ Hr) as (j & t & p & m & _ & _ & _ & ->).
    cbn in Hf. congruence.
Qed.

(** C8. Every record of checkForSecrets comes from a line of a listed file
    with a text extension that could be read, and from a secret pattern
    that matches that line; its [match] field is the first 20 characters of
    the matched text followed by [...], and the matched text is not
    contained in it.  For a file and a line, the records are exactly one
    for each pattern that matches the line, in the order of the patterns,
    and this once for every time the file occurs in the list given. *)
Theorem secret_leaks_are_redacted (files : list string) :
  (forall r, r ∈ Scanner.checkForSecrets fs ws files ->
     exists i text p m,
       Scanner.file r ∈ files
       /\ Scanner.line r = i + 1
       /\ scanned_line fs ws (Scanner.file r) i = Some text
       /\ p ∈ Scanner.secretPatterns
       /\ Re.first_match p text = Some m
       /\ Scanner.match_ r = Js.slice0 20 m +:+ "..."
       /\ String.length (Js.slice0 20 m) = 20
       /\ Js.includes (Scanner.match_ r) m = false)
  /\ (forall f i,
        filter (fun r => Scanner.file r = f /\ Scanner.line r = i + 1)
          (Scanner.checkForSecrets fs ws files)
        = List.concat
            (replicate (length (filter (fun x => x = f) files))
               match scanned_line fs ws f i with
               | Some text => line_records f i text
               | None => []
               end)).
Proof.
  split.
  - intros r Hr. unfold Scanner.checkForSecrets in Hr.
    apply list_elem_of_In, in_flat_map in Hr as (f & Hf & Hr).
    apply list_elem_of_In in Hf, Hr.
    destruct (file_leaks_elem _ _ Hr) as (i & text & p & m & Hl & Hp & Hm & ->).
    exists i, text, p, m. cbn [Scanner.file Scanner.line Scanner.match_].
    assert (Hlong : 25 <= String.length m).
    { pose proof secret_patterns_long as Hall.
      rewrite Forall_forall in Hall. specialize (Hall p Hp).
      pose proof (first_match_length _ _ _ Hm). lia. }
    destruct (redact_hides m Hlong) as (H20 & _ & Hhid).
    repeat (split; [first [assumption|reflexivity]|]). exact Hhid.
  - intros f i. unfold Scanner.checkForSecrets.
    induction files as [|f' l IH]; [reflexivity|]. cbn [flat_map].
    rewrite filter_app, IH, file_leaks_at.
    destruct (decide (f' = f)) as [->|Hne].
    + rewrite filter_cons_True by reflexivity. reflexivity.
    + rewrite filter_cons_False by exact Hne. reflexivity.
Qed.

End SecretScan.

(** The third line of [config.md] matches the assignment pattern and the
    [sk-] pattern: two records for that line, each cut after 20
    characters; the image file is not read. *)
Lemma secret_leaks_are_redacted_witness :
  Scanner.checkForSecrets Examples.leaky "/w" ["config.md"; "avatar.png"]
  = [ {| Scanner.file := "config.md"; Scanner.line := 3;
         Scanner.match_ := "API_KEY = sk-abcdefg..." |};
      {| Scanner.file := "config.md"; Scanner.line := 3;
         Scanner.match_ := "sk-abcdefghijklmnopq..." |} ]
  /\ filter (fun r => Scanner.file r = "config.md" /\ Scanner.line r = 2 + 1)
       (Scanner.checkForSecrets Examples.leaky "/w" ["config.md"; "avatar.png"])
     = [ {| Scanner.file := "config.md"; Scanner.line := 3;
            Scanner.match_ := "API_KEY = sk-abcdefg..." |};
         {| Scanner.file := "config.md"; Scanner.line := 3;
            Scanner.match_ := "sk-abcdefghijklmnopq..." |} ].
Proof.
  split; [vm_compute; reflexivity|].
  destruct (secret_leaks_are_redacted Examples.leaky "/w"
              ["config.md"; "avatar.png"]) as [_ Hrecords].
  rewrite (Hrecords "config.md" 2). vm_compute. reflexivity.
Defined.

(** The same file listed twice is read twice: the triple of [config.md],
    its third line and the [sk-] pattern has two records, not one. *)
Lemma listed_twice_scanned_twice :
  let sk := Re.Cat (Re.lit "sk-") (Re.Rep Re.alnum 32 None) in
  let records :=
    Scanner.checkForSecrets Examples.leaky "/w" ["config.md"; "config.md"] in
  sk ∈ Scanner.secretPatterns
  /\ scanned_line Examples.leaky "/w" "config.md" 2
     = Some "API_KEY = sk-abcdefghijklmnopqrstuvwxyz123456"
  /\ Re.first_match sk "API_KEY = sk-abcdefghijklmnopqrstuvwxyz123456"
     = Some "sk-abcdefghijklmnopqrstuvwxyz123456"
  /\ length records = 4
  /\ filter (fun r => Scanner.file r = "config.md" /\ Scanner.line r = 3
                      /\ Scanner.match_ r = "sk-abcdefghijklmnopq...") records
     = [ {| Scanner.file := "config.md"; Scanner.line := 3;
            Scanner.match_ := "sk-abcdefghijklmnopq..." |};
         {| Scanner.file := "config.md"; Scanner.line := 3;
            Scanner.match_ := "sk-abcdefghijklmnopq..." |} ].
Proof.
  intros sk records. split; [right; left|].
  repeat split; vm_compute; reflexivity.
Qed.

(** The no-break space is white space to the assignment pattern. *)
Example no_break_space_before_value :
  Scanner.line_leaks "config.md" 0
    ("token" +:+ String "160" "" +:+ "= abcdefghijklmnopqrstuvwxyz")
  = [ {| Scanner.file := "config.md"; Scanner.line := 1;
         Scanner.match_ := "token" +:+ String "160" "" +:+ "= abcdefghijkl..." |} ].
Proof. vm_compute. reflexivity. Qed.

(** ** Names the validator accepts *)

Section Names.

Lemma at_end_result (p : ascii -> bool) (lo : nat) (hi : option nat)
    (s x : string) :
  Re.rep_k p lo hi s Re.at_end = Some x -> x = "".
Proof.
  intros H. destruct (rep_k_consumes p s lo hi _ _ H) as (mid & Hk & _).
  destruct mid; cbn in Hk; congruence.
Qed.

(** A greedy class repetition without an upper bound, anchored at both
    ends, accepts exactly the strings of at least [lo] characters that lie
    in the class throughout. *)
Lemma rep_full_spec (p : ascii -> bool) (s : string) :
  forall lo : nat,
    Re.rep_k p lo None s Re.at_end = Some ""
    <-> forallb p (list_ascii_of_string s) = true /\ lo <= String.length s.
Proof.
  induction s as [|c s IH]; intros lo.
  - destruct lo; cbn; split; try discriminate.
    + intros _. split; [reflexivity|lia].
    + reflexivity.
    + intros [_ H]. lia.
  - cbn [Re.rep_k fmap option_fmap option_map list_ascii_of_string forallb
         String.length].
    destruct (p c) eqn:Hc; cbn [andb].
    + specialize (IH (Nat.pred lo)).
      destruct (Re.rep_k p (Nat.pred lo) None s Re.at_end) as [x|] eqn:E.
      * apply at_end_result in E as Hx. subst x.
        split; [intros _|reflexivity].
        destruct (proj1 IH eq_refl) as [Hall Hlen]. split; [exact Hall|lia].
      * split.
        -- destruct lo; cbn; discriminate.
        -- intros [Hall Hlen].
           assert (H : None = Some "") by (apply IH; split; [exact Hall|lia]).
           discriminate H.
    + split; [destruct lo; cbn; discriminate|intros [H _]; discriminate].
Qed.

(** [/^[a-z0-9-]+$/] accepts the non-empty strings of lowercase letters,
    digits and hyphens, and nothing else. *)
Lemma name_re_spec (s : string) :
  Re.test_full name_re s = true
  <-> s <> "" /\ forallb Re.slug_char (list_ascii_of_string s) = true.
Proof.
  unfold Re.test_full, name_re. cbn [Re.run].
  pose proof (rep_full_spec Re.slug_char s 1) as H.
  destruct (Re.rep_k Re.slug_char 1 None s Re.at_end) as [x|] eqn:E.
  - apply at_end_result in E as Hx. subst x.
    destruct (proj1 H eq_refl) as [Hall Hlen].
    split; [intros _|reflexivity].
    split; [intros ->; cbn in Hlen; lia|exact Hall].
  - split; [discriminate|]. intros [Hne Hall].
    assert (Hs : None = Some "").
    { apply H. split; [exact Hall|]. destruct s; [contradiction|cbn; lia]. }
    discriminate Hs.
Qed.

Lemma truthy_some (o : option string) :
  Js.truthy o = true -> exists s, o = Some s /\ s <> "" /\ Js.orElse o "" = s.
Proof.
  destruct o as [[|c s]|]; cbn; try discriminate.
  intros _. exists (String c s). repeat split. discriminate.
Qed.

(** Such a name is one path segment, and not the name of the staging
    directory. *)
Lemma slug_plain (n : string) :
  n <> "" -> forallb Re.slug_char (list_ascii_of_string n) = true ->
  Path.plain n = true /\ n <> ".porter-temp".
Proof.
  intros Hne Hall. split.
  - apply plain_spec. repeat split; [exact Hne| | |].
    + intros ->. discriminate Hall.
    + intros ->. discriminate Hall.
    + clear Hne. induction n as [|c n IH]; [reflexivity|].
      cbn [list_ascii_of_string forallb] in Hall.
      apply andb_true_iff in Hall as [Hc Hall].
      rewrite includes_char_cons, (IH Hall), orb_false_r.
      destruct (Ascii.eqb_spec c "/") as [->|_]; [discriminate Hc|reflexivity].
  - intros ->. discriminate Hall.
Qed.

Lemma valid_name (m : PorterManifest) (n : string) :
  valid (validateManifest m) = true -> name m = Some n ->
  Path.plain n = true /\ n <> ".porter-temp".
Proof.
  intros Hv Hn. apply valid_spec in Hv.
  unfold validateManifest in Hv; cbn [errors] in Hv.
  apply app_eq_nil in Hv as [Hv _]. unfold name_errors in Hv.
  destruct (Js.truthy (name m)) eqn:Tn; cbn [negb] in Hv; [|discriminate].
  destruct (Re.test_full name_re (Js.orElse (name m) "")) eqn:Tr;
    cbn [negb] in Hv; [|discriminate].
  destruct (truthy_some _ Tn) as (s & Hs & _ & Hor).
  rewrite Hor in Tr. assert (s = n) as -> by congruence.
  apply name_re_spec in Tr as [Hne Hall]. exact (slug_plain n Hne Hall).
Qed.

End Names.

(** ** The importer *)

Section ImportAgent.

Variable P : Platform.

Lemma key_cwd (fs fs' : FS) (p : string) :
  Fs.cwd fs' = Fs.cwd fs -> Fs.key fs' p = Fs.key fs p.
Proof. unfold Fs.key. intros ->. reflexivity. Qed.

Lemma key_tempDir (fs : FS) (targetDir : string) :
  Fs.key fs (Importer.tempDir targetDir) = Fs.key fs targetDir ++ [".porter-temp"].
Proof.
  unfold Importer.tempDir. apply key_join.
  constructor; [reflexivity|constructor].
Qed.

Lemma tempDir_gone (fs : FS) (targetDir : string) :
  Fs.pathExists (Fs.remove fs (Importer.tempDir targetDir))
    (Importer.tempDir targetDir) = false.
Proof.
  apply remove_gone. rewrite key_tempDir.
  intros E. apply app_eq_nil in E as [_ E]. discriminate E.
Qed.

Lemma cleanup_gone (fs : FS) (targetDir : string) :
  Fs.pathExists (Importer.cleanup fs targetDir) (Importer.tempDir targetDir)
  = false.
Proof.
  unfold Importer.cleanup.
  destruct (Fs.pathExists fs (Importer.tempDir targetDir)) eqn:E;
    [apply tempDir_gone|exact E].
Qed.

(** The path that runs to the end removes the staging directory. *)
Lemma staging_removed_by_install (fs fs' : FS) (targetDir extractedPath agentDir : string)
    (options : Importer.ImportOptions) (m : PorterManifest)
    (r : Importer.ImportResult) :
  Importer.install P fs targetDir extractedPath agentDir options m
  = (fs', Returns r) ->
  Fs.pathExists fs' (Importer.tempDir targetDir) = false
  /\ r = Importer.report P agentDir options m.
Proof.
  unfold Importer.install.
  destruct (Fs.ensureDir fs agentDir) as [fsa [[]|e]]; [|discriminate].
  destruct (Fs.readdir_recursive fsa extractedPath) as [files|e]; [|discriminate].
  destruct (Importer.copy_entries extractedPath agentDir fsa files)
    as [fsb [[]|e]]; [|discriminate].
  destruct (Importer.seed_user_md fsb agentDir) as [fsc [[]|e]]; [|discriminate].
  intros [= <- <-]. split; [apply cleanup_gone|reflexivity].
Qed.

(** So does the handler of a failed extraction. *)
Lemma staging_removed_on_extract_error (fs fs0 fs' : FS)
    (source targetDir err : string) (u : unit) (r : outcome Importer.resolved) :
  Js.endsWith source ".tar.gz" || Js.endsWith source ".tgz" = true ->
  Fs.ensureDir fs (Importer.tempDir targetDir) = (fs0, Returns u) ->
  tar_entries P fs0 source = Throws err ->
  Importer.resolveSource P fs source targetDir = (fs', r) ->
  Fs.pathExists fs' (Importer.tempDir targetDir) = false
  /\ r = Returns (Importer.Stop
                    (Importer.failure ["Failed to extract archive: " +:+ err])).
Proof.
  intros Harch Hdir Hthrow. unfold Importer.resolveSource, Importer.tar_extract.
  rewrite Harch, Hdir, Hthrow. unfold Importer.extract_failed.
  intros [= <- <-]. split; [apply tempDir_gone|reflexivity].
Qed.

Lemma node_at_lookup (n : gmap Fs.Key Node) (k : Fs.Key) :
  k <> [] -> Fs.node_at n k = n !! k.
Proof. destruct k; [contradiction|reflexivity]. Qed.

(** What the installation copies: when it returns, every file of the
    source directory is in the agent directory under the same path, with
    its content.  The tree is sound, neither of the two directories lies
    in the other, and the agent directory is not in the staging directory.
    The copy is read under its resolved path: the working directory may
    have gone with the staging directory. *)
Lemma install_copies (fs fs2 : FS) (targetDir d a : string)
    (options : Importer.ImportOptions) (m : PorterManifest)
    (r : Importer.ImportResult) :
  Importer.install P fs targetDir d a options m = (fs2, Returns r) ->
  Fs.sound fs = true ->
  Fs.inside fs d a = false -> Fs.inside fs a d = false ->
  (forall rel : Fs.Key,
     Fs.within (Fs.key fs (Importer.tempDir targetDir)) (Fs.key fs a ++ rel)
     = false) ->
  forall (rel : list string) (c : string),
    rel <> [] -> Forall (fun s => Path.plain s = true) rel ->
    Fs.readFile fs (Path.join (d :: rel)) = Some c ->
    Fs.readFile fs2 (Path.resolve (Fs.cwd fs) (Path.join (a :: rel))) = Some c.
Proof.
  unfold Importer.install. intros Hinst Hsound Hda Had Hstage rel c Hne Hrel Hread.
  apply sound_spec in Hsound as (Htidy & Hclosed & Hcwd).
  destruct (Fs.ensureDir fs a) as [fsa [[]|e]] eqn:Ea; [|discriminate].
  pose proof (ensureDir_grown _ _ _ _ Ea) as (Hca & Hma & Hta).
  specialize (Hta Htidy).
  pose proof (ensureDir_new _ _ _ _ Ea) as Hnew.
  assert (Hold : forall (rel : Fs.Key) v,
            Fs.nodes fsa !! (Fs.key fs d ++ rel) = Some v ->
            Fs.nodes fs !! (Fs.key fs d ++ rel) = Some v).
  { intros rel0 v Hv. destruct (Hnew _ _ Hv) as [H|(_ & _ & t2 & E)]; [exact H|].
    exfalso. unfold Fs.inside in Hda. rewrite E, <- app_assoc in Hda.
    rewrite within_below in Hda. discriminate Hda. }
  destruct (Fs.readdir_recursive fsa d) as [files|e] eqn:El; [|discriminate].
  unfold Fs.readdir_recursive, Fs.scandir in El.
  destruct (Fs.find fsa d) as [[|c']|]; try discriminate El.
  injection El as <-.
  destruct (Importer.copy_entries d a fsa
              (map (Fs.dirent d) (Fs.entries fsa (Fs.key fsa d))))
    as [fsb [[]|e]] eqn:Eb; [|discriminate].
  destruct (Importer.seed_user_md fsb a) as [fsc [[]|e]] eqn:Ec; [|discriminate].
  injection Hinst as <- _.
  assert (Hkd : Fs.key fsa d = Fs.key fs d) by (apply key_cwd, Hca).
  rewrite Hkd in Eb.
  assert (Hfile0 : Fs.nodes fs !! (Fs.key fs d ++ rel) = Some (File c)).
  { unfold Fs.readFile in Hread.
    destruct (Fs.find fs (Path.join (d :: rel))) as [[|c0]|] eqn:Ef;
      try discriminate Hread.
    injection Hread as ->. apply find_key in Ef.
    rewrite key_join, node_at_app in Ef by assumption. exact Ef. }
  assert (Hlisted : (rel, File c) ∈ Fs.entries fsa (Fs.key fs d)).
  { apply entries_spec. split; [exact Hne|]. apply Hma, Hfile0. }
  destruct (copy_entries_spec (Fs.cwd fs) d a Had Hda
              (Fs.entries fsa (Fs.key fs d))) with
    (l := Fs.entries fsa (Fs.key fs d)) (fs := fsa) (fs' := fsb) (u := tt)
    as ((Hcb & _ & Hcwdb & _) & Hplaced & _ & Hdirs).
  - intros rel' v Hin. apply entries_spec in Hin as [Hne' Hin]. split; [exact Hne'|].
    apply Hta in Hin. apply Forall_app in Hin as [_ Hin]. exact Hin.
  - split; [exact Hca|]. split; [|split].
    + intros rel' v Hin. apply entries_spec in Hin as [_ Hin]. exact Hin.
    + rewrite (key_cwd fs fsa "" Hca).
      exact (rooted_kept fs fsa _ (fun k => Hma k Dir) Hcwd).
    + intros rel' v t1 t2 Hin E H1 H2. apply entries_spec in Hin as [_ Hin].
      apply Hold in Hin. fold (Fs.key fs d) in E. rewrite E in Hin.
      pose proof (closed_above _ Hclosed t2 t1 v Hin H2) as Hat.
      rewrite node_at_lookup in Hat by exact H1. exact (Hma _ _ Hat).
  - auto.
  - exact Eb.
  - destruct (Hplaced rel c Hlisted) as [Hfile Hparents].
    fold (Fs.key fs a) in Hfile, Hparents.
    assert (Hkb : forall p, Fs.key fsb p = Fs.key fs p)
      by (intros p; apply key_cwd; exact Hcb).
    assert (Hroot : rooted (Fs.key fs a) fsb).
    { intros t1 t2 E H1. apply Hdirs.
      exact (ensureDir_made _ _ _ _ Ea t1 t2 E H1). }
    assert (Hchain : forall t1 t2 : Fs.Key,
              Fs.key fs a ++ rel = t1 ++ t2 -> t1 <> [] -> t2 <> [] ->
              Fs.nodes fsb !! t1 = Some Dir).
    { intros t1 t2 E H1 H2. apply app_eq_app in E as [l [[E1 E2]|[E1 E2]]].
      - exact (Hroot t1 l E1 H1).
      - subst t1. destruct l as [|x l].
        + rewrite app_nil_r in H1 |- *.
          apply (Hroot (Fs.key fs a) []); [rewrite app_nil_r; reflexivity|exact H1].
        + apply (Hparents (x :: l) t2 E2); [discriminate|exact H2]. }
    assert (Hseed : Fs.cwd fsc = Fs.cwd fs
                    /\ forall (k t2 : Fs.Key) v,
                         Fs.key fs a ++ rel = k ++ t2 ->
                         Fs.nodes fsb !! k = Some v ->
                         Fs.nodes fsc !! k = Some v).
    { unfold Importer.seed_user_md in Ec.
      destruct (Fs.pathExists fsb (Path.join [a; "USER.md.template"])
                && negb (Fs.pathExists fsb (Path.join [a; "USER.md"]))) eqn:Econd.
      - destruct (copy_outside _ _ _ _ _ Ec) as [Hcc Hout].
        split; [congruence|]. intros k t2 v E Hk. apply Hout; [|exact Hk].
        rewrite (key_join fsb a ["USER.md"])
          by (constructor; [reflexivity|constructor]).
        rewrite Hkb.
        apply andb_true_iff in Econd as [_ Hnone].
        apply negb_true_iff in Hnone. unfold Fs.pathExists in Hnone.
        rewrite (find_join fsb a ["USER.md"]) in Hnone;
          [|discriminate|constructor; [reflexivity|constructor]|].
        2: { rewrite Hkb. split; [exact Hcwdb|]. intros t1 t3 E' H1 H3.
             destruct (exists_last H3) as (t3' & name' & ->).
             rewrite app_assoc in E'. apply app_inj_tail in E' as [E' _].
             exact (Hroot t1 t3' E' H1). }
        rewrite Hkb in Hnone.
        destruct (Fs.within (Fs.key fs a ++ ["USER.md"]) k) eqn:Ew; [|reflexivity].
        exfalso. unfold Fs.within in Ew.
        destruct (Fs.strip (Fs.key fs a ++ ["USER.md"]) k) as [x|] eqn:Es;
          [|discriminate Ew].
        apply strip_Some in Es. subst k.
        rewrite <- !app_assoc in E. apply app_inv_head in E. cbn [app] in E.
        destruct (Fs.nodes fsb !! (Fs.key fs a ++ ["USER.md"])) as [v0|] eqn:Ev;
          [discriminate Hnone|].
        destruct (x ++ t2) as [|y z] eqn:Ex.
        + subst rel. pose proof (eq_trans (eq_sym Ev) Hfile) as X. discriminate X.
        + assert (Hd : Fs.nodes fsb !! (Fs.key fs a ++ ["USER.md"]) = Some Dir)
            by (apply (Hparents ["USER.md"] (y :: z));
                [exact E|discriminate|discriminate]).
          pose proof (eq_trans (eq_sym Ev) Hd) as X. discriminate X.
      - injection Ec as <-. split; [exact Hcb|auto]. }
    destruct Hseed as [Hcc Hfc].
    assert (Hend : forall (k t2 : Fs.Key) v,
              Fs.key fs a ++ rel = k ++ t2 ->
              Fs.nodes fsc !! k = Some v ->
              Fs.nodes (Importer.cleanup fsc targetDir) !! k = Some v).
    { unfold Importer.cleanup.
      destruct (Fs.pathExists fsc (Importer.tempDir targetDir)); [|auto].
      intros k t2 v E Hk. apply remove_lookup; [exact Hk|].
      rewrite (key_cwd fs fsc _ Hcc).
      destruct (Fs.within (Fs.key fs (Importer.tempDir targetDir)) k) eqn:Ew;
        [|reflexivity].
      exfalso. unfold Fs.within in Ew.
      destruct (Fs.strip (Fs.key fs (Importer.tempDir targetDir)) k) as [x|] eqn:Es;
        [|discriminate Ew].
      apply strip_Some in Es. subst k.
      pose proof (Hstage rel) as Hs.
      rewrite E, <- app_assoc, within_below in Hs. discriminate Hs. }
    unfold Fs.readFile, Path.resolve.
    fold (Fs.key fs (Path.join (a :: rel))). rewrite key_join by exact Hrel.
    rewrite find_resolved.
    + rewrite (Hend (Fs.key fs a ++ rel) [] (File c));
        [reflexivity|rewrite app_nil_r; reflexivity|].
      apply (Hfc _ []); [rewrite app_nil_r; reflexivity|exact Hfile].
    + intros E. apply app_eq_nil in E as [_ E]. contradiction.
    + apply Forall_app. split; [apply resolve_segments_plain|exact Hrel].
    + intros t1 t2 E H1 H2.
      apply (Hend t1 t2 Dir E), (Hfc t1 t2 Dir E), (Hchain t1 t2 E H1 H2).
Qed.

(** A directory of a tree in which every node lies in a directory has
    directories above it. *)
Lemma dir_rooted (fs : FS) (p : string) :
  closed_at (Fs.nodes fs) -> Fs.find fs p = Some Dir -> rooted (Fs.key fs p) fs.
Proof.
  intros Hclosed Hdir%find_key t1 t2 E Hne.
  destruct t2 as [|x t2].
  - rewrite app_nil_r in E. rewrite E in Hdir.
    rewrite node_at_lookup in Hdir by exact Hne. exact Hdir.
  - rewrite <- (node_at_lookup _ t1 Hne).
    apply (closed_above _ Hclosed (x :: t2) t1 Dir); [|discriminate].
    rewrite <- E. rewrite <- node_at_lookup; [exact Hdir|].
    rewrite E. intros E'. apply app_eq_nil in E' as [_ E']. discriminate E'.
Qed.

(** The USER.md.template step returns. *)
Lemma seed_returns (fs : FS) (a : string) :
  rooted (Fs.key fs a) fs ->
  exists fs', Importer.seed_user_md fs a = (fs', Returns tt).
Proof.
  intros Hroot. unfold Importer.seed_user_md.
  destruct (Fs.pathExists fs (Path.join [a; "USER.md.template"])
            && negb (Fs.pathExists fs (Path.join [a; "USER.md"]))) eqn:Econd;
    [|eexists; reflexivity].
  apply andb_true_iff in Econd as [Htmpl Huser].
  apply negb_true_iff in Huser. unfold Fs.pathExists in Htmpl, Huser.
  destruct (Fs.find fs (Path.join [a; "USER.md.template"])) as [n|] eqn:Hsrc;
    [|discriminate Htmpl].
  destruct (Fs.find fs (Path.join [a; "USER.md"])) as [v|] eqn:Hdest;
    [discriminate Huser|].
  assert (Hu : Forall (fun s => Path.plain s = true) ([] ++ ["USER.md"]))
    by (constructor; [reflexivity|constructor]).
  assert (Ht : Forall (fun s => Path.plain s = true) ["USER.md.template"])
    by (constructor; [reflexivity|constructor]).
  destruct (dirname_join fs a [] "USER.md" Hu) as [Hdn Hkd].
  cbn [app] in Hdn, Hkd, Hu. rewrite app_nil_r in Hkd.
  apply (copy_returns fs _ _ n Hsrc).
  - left. exact Hdest.
  - apply (join_writable fs a ["USER.md"]); [discriminate|exact Hu].
  - intros _. rewrite (key_join fs a ["USER.md.template"]) by exact Ht.
    rewrite (key_join fs a ["USER.md"]) by exact Hu.
    rewrite within_app, within_cons. reflexivity.
  - exact Hdn.
  - intros t1 t2 c E Hne Hfile. rewrite Hkd in E.
    rewrite (Hroot t1 t2 E Hne) in Hfile. discriminate Hfile.
Qed.

(** The installation returns when the source and the agent directory are
    directories of a sound tree, neither lies in the other, and nothing in
    the agent directory stands in the way. *)
Lemma install_returns (fs : FS) (targetDir d a : string)
    (options : Importer.ImportOptions) (m : PorterManifest) :
  Fs.sound fs = true ->
  Fs.inside fs d a = false -> Fs.inside fs a d = false ->
  Fs.find fs d = Some Dir -> Fs.find fs a = Some Dir ->
  Fs.fits fs d a = true ->
  exists fs2,
    Importer.install P fs targetDir d a options m
    = (fs2, Returns (Importer.report P a options m)).
Proof.
  intros (Htidy & Hclosed & Hcwd)%sound_spec Hda Had Hd Ha Hfits.
  assert (Hane : a <> "")
    by (intros ->; unfold Fs.find in Ha; discriminate Ha).
  pose proof (dir_rooted fs a Hclosed Ha) as Hroot.
  unfold Importer.install.
  destruct (ensureDir_returns fs a Hane) as [fsa Ea].
  { intros t1 t2 c E Hne Hfile. rewrite (Hroot t1 t2 E Hne) in Hfile.
    discriminate Hfile. }
  rewrite Ea.
  pose proof (ensureDir_grown _ _ _ _ Ea) as Hg.
  pose proof Hg as (Hca & Hma & Hta). specialize (Hta Htidy).
  pose proof (ensureDir_new _ _ _ _ Ea) as Hnew.
  assert (Hold : forall (rel : Fs.Key) v,
            Fs.nodes fsa !! (Fs.key fs d ++ rel) = Some v ->
            Fs.nodes fs !! (Fs.key fs d ++ rel) = Some v).
  { intros rel v Hv. destruct (Hnew _ _ Hv) as [H|(_ & _ & t2 & E)]; [exact H|].
    exfalso. unfold Fs.inside in Hda. rewrite E, <- app_assoc in Hda.
    rewrite within_below in Hda. discriminate Hda. }
  unfold Fs.readdir_recursive, Fs.scandir.
  rewrite (find_grown _ _ _ _ Hg Hd). rewrite (key_cwd fs fsa d Hca).
  destruct (copy_entries_returns (Fs.cwd fs) d a Had Hda
              (Fs.entries fsa (Fs.key fs d))) with
    (l := Fs.entries fsa (Fs.key fs d)) (fs := fsa)
    as (fsb & Eb & Hcb & Hrootb).
  - intros rel v Hin. apply entries_spec in Hin as [Hne Hin]. split; [exact Hne|].
    apply Hta in Hin. apply Forall_app in Hin as [_ Hin]. exact Hin.
  - intros r1 r2 v Hin Hr1 Hr2. apply entries_spec in Hin as [_ Hin].
    apply entries_spec. split; [exact Hr1|].
    apply Hold in Hin. apply Hma.
    rewrite <- node_at_lookup
      by (intros E; apply app_eq_nil in E as [_ E]; contradiction).
    rewrite app_assoc in Hin.
    exact (closed_above _ Hclosed r2 _ v Hin Hr2).
  - split; [exact Hca|]. split; [|split].
    + intros rel v Hin. apply entries_spec in Hin as [_ Hin]. exact Hin.
    + rewrite (key_cwd fs fsa "" Hca).
      exact (rooted_kept fs fsa _ (fun k => Hma k Dir) Hcwd).
    + intros rel v t1 t2 Hin E H1 H2. apply entries_spec in Hin as [_ Hin].
      apply Hold in Hin. fold (Fs.key fs d) in E. rewrite E in Hin.
      pose proof (closed_above _ Hclosed t2 t1 v Hin H2) as Hat.
      rewrite node_at_lookup in Hat by exact H1. exact (Hma _ _ Hat).
  - intros rel v v' Hin Hv'. apply entries_spec in Hin as [Hne Hin].
    apply Hold in Hin. fold (Fs.key fs a) in Hv'.
    destruct (Hnew _ _ Hv') as [H|(_ & _ & t2 & E)].
    + exact (fits_spec fs d a Hfits rel v v' Hne Hin H).
    + exfalso. rewrite <- app_assoc in E.
      rewrite <- (app_nil_r (Fs.key fs a)) in E at 1.
      apply app_inv_head in E. symmetry in E.
      apply app_eq_nil in E as [E _]. contradiction.
  - intros t1 t2 E Hne. fold (Fs.key fs a) in E.
    exact (ensureDir_made _ _ _ _ Ea t1 t2 E Hne).
  - auto.
  - rewrite Eb.
    destruct (seed_returns fsb a) as [fsc Ec].
    { rewrite (key_cwd fs fsb a Hcb). exact Hrootb. }
    rewrite Ec. eexists. reflexivity.
Qed.

(** What [fs.readdir] lists is in the directory. *)
Lemma readdir_entry (fs : FS) (d x : string) (l : list string) :
  Fs.readdir fs d = Returns l -> x ∈ l ->
  exists v, Fs.nodes fs !! (Fs.key fs d ++ [x]) = Some v.
Proof.
  unfold Fs.readdir, Fs.scandir.
  destruct (Fs.find fs d) as [[|c]|]; try discriminate.
  intros [= <-] Hx. apply list_elem_of_fmap in Hx as ([x' v] & -> & Hin).
  unfold Fs.children in Hin.
  apply list_elem_of_omap in Hin as ([rel v'] & Hin & Hsome).
  cbn in Hsome. destruct rel as [|y [|z rel]]; try discriminate Hsome.
  injection Hsome as -> ->. apply entries_spec in Hin as [_ Hin].
  exists v. exact Hin.
Qed.

(** The directory that source resolution hands on is a directory, in a
    sound tree, when a manifest is loaded from it. *)
Lemma extracted_directory (fs fs1 : FS) (source targetDir e : string)
    (m : PorterManifest) :
  Importer.resolveSource P fs source targetDir
  = (fs1, Returns (Importer.Extracted e)) ->
  Fs.sound fs1 = true ->
  loadManifest P fs1 e = Returns (Some m) ->
  Fs.find fs1 e = Some Dir.
Proof.
  intros Hres (Htidy & Hclosed & Hcwd)%sound_spec Hload.
  assert (Hthere : exists v, Fs.find fs1 e = Some v).
  { revert Hres. unfold Importer.resolveSource, Importer.extract_failed.
    destruct (Js.endsWith source ".tar.gz" || Js.endsWith source ".tgz").
    - destruct (Fs.ensureDir fs _) as [fs0 [[]|err]]; [|discriminate].
      destruct (Importer.tar_extract P _ source _) as [fs2 [[]|err]];
        [|discriminate].
      destruct (Fs.readdir fs2 _) as [[|x [|y l]]|message] eqn:El;
        try discriminate.
      intros [= <- <-].
      destruct (readdir_entry _ _ x _ El) as [v Hv]; [left|].
      exists v.
      assert (Hx : Forall (fun s => Path.plain s = true) [x]).
      { pose proof (Htidy _ _ Hv) as H. apply Forall_app in H as [_ H]. exact H. }
      rewrite (find_join fs2 _ [x]); [exact Hv|discriminate|exact Hx|].
      exact (closed_paved _ _ _ Hclosed Hcwd Hv).
    - destruct (Fs.pathExists fs source) eqn:E; [|discriminate].
      intros [= <- <-]. unfold Fs.pathExists in E.
      destruct (Fs.find fs source) as [v|]; [|discriminate E].
      exists v. reflexivity. }
  destruct Hthere as [v Hv]. rewrite Hv. f_equal.
  apply find_key in Hv.
  unfold loadManifest in Hload.
  destruct (Fs.pathExists fs1 (Path.join [e; MANIFEST_FILENAME])) eqn:E;
    cbn [negb] in Hload; [|discriminate Hload].
  unfold Fs.pathExists in E.
  destruct (Fs.find fs1 (Path.join [e; MANIFEST_FILENAME])) as [v'|] eqn:Ev;
    [|discriminate E].
  apply find_key in Ev.
  rewrite (key_join fs1 e [MANIFEST_FILENAME]) in Ev
    by (constructor; [reflexivity|constructor]).
  rewrite node_at_app in Ev by discriminate.
  pose proof (Hclosed _ _ _ Ev) as Hdir. congruence.
Qed.

(** C5. Let the source resolve to a directory (itself, when it is not an
    archive) whose manifest [m] is valid and named [n], and let
    [targetDir/n] exist.  Without [force], importAgent returns the failure
    whose single error is "Agent directory already exists: <targetDir/n>.
    Use --force to overwrite." and the file system is the one the source
    resolution left: the copy loop is not reached.  With [force], the
    check is passed over and the call is the installation.  Whenever that
    returns, the result is a success with [targetDir/n] as the agent path
    and the staging directory is gone.  In a sound tree, with a source
    directory and an agent directory neither of which lies in the other,
    every file of the source directory is then in the agent directory
    under the same relative path with the same content (it is read under
    the resolved path, since the working directory may have been in the
    staging directory); and the call does return when [targetDir/n] is a
    directory in which nothing stands in the way: no directory where a
    file is to be, no file where a directory is to be. *)
Theorem collision_needs_force (fs fs1 : FS) (source extractedPath n : string)
    (options : Importer.ImportOptions) (m : PorterManifest) :
  let targetDir := Importer.targetDir fs options in
  let agentDir := Path.join [targetDir; n] in
  Importer.resolveSource P fs source targetDir
  = (fs1, Returns (Importer.Extracted extractedPath)) ->
  loadManifest P fs1 extractedPath = Returns (Some m) ->
  valid (validateManifest m) = true ->
  name m = Some n ->
  Fs.pathExists fs1 agentDir = true ->
  (Js.endsWith source ".tar.gz" || Js.endsWith source ".tgz" = false ->
   fs1 = fs /\ extractedPath = source)
  /\ (Importer.force options = false ->
      Importer.importAgent P fs source options
      = (fs1,
         Returns
           {| Importer.success := false;
              Importer.agentPath := None;
              Importer.missingEnv := None;
              Importer.installedSkills := None;
              Importer.errors :=
                Some ["Agent directory already exists: " +:+ agentDir
                      +:+ ". Use --force to overwrite."] |}))
  /\ (Importer.force options = true ->
      Importer.importAgent P fs source options
      = Importer.install P fs1 targetDir extractedPath agentDir options m
      /\ (forall (fs2 : FS) (r : Importer.ImportResult),
            Importer.importAgent P fs source options = (fs2, Returns r) ->
            Importer.success r = true
            /\ Importer.agentPath r = Some agentDir
            /\ Importer.errors r = None
            /\ Fs.pathExists fs2 (Importer.tempDir targetDir) = false)
      /\ (Fs.sound fs1 = true ->
          Fs.inside fs1 extractedPath agentDir = false ->
          Fs.inside fs1 agentDir extractedPath = false ->
          (forall (fs2 : FS) (r : Importer.ImportResult),
             Importer.importAgent P fs source options = (fs2, Returns r) ->
             forall (rel : list string) (c : string),
               rel <> [] -> Forall (fun s => Path.plain s = true) rel ->
               Fs.readFile fs1 (Path.join (extractedPath :: rel)) = Some c ->
               Fs.readFile fs2
                 (Path.resolve (Fs.cwd fs1) (Path.join (agentDir :: rel)))
               = Some c)
          /\ (Fs.find fs1 agentDir = Some Dir ->
              Fs.fits fs1 extractedPath agentDir = true ->
              exists fs2,
                Importer.importAgent P fs source options
                = (fs2, Returns (Importer.report P agentDir options m))))).
Proof.
  intros targetDir agentDir Hres Hload Hvalid Hname Hexists.
  assert (Hcall : Importer.importAgent P fs source options
                  = if Importer.force options
                    then Importer.install P fs1 targetDir extractedPath agentDir
                           options m
                    else (fs1, Returns (Importer.failure
                                          [Importer.collision_error agentDir]))).
  { unfold Importer.importAgent. fold targetDir. rewrite Hres.
    unfold Importer.importFrom. rewrite Hload, Hvalid, Hname.
    cbn [negb]. fold agentDir. rewrite Hexists.
    destruct (Importer.force options); reflexivity. }
  split; [|split].
  - intros Hplain. unfold Importer.resolveSource in Hres.
    rewrite Hplain in Hres.
    destruct (Fs.pathExists fs source); [|discriminate Hres].
    injection Hres as <- <-. split; reflexivity.
  - intros Hforce. rewrite Hcall, Hforce. reflexivity.
  - intros Hforce. rewrite Hcall, Hforce. split; [reflexivity|]. split.
    + intros fs2 r Hinst.
      destruct (staging_removed_by_install _ _ _ _ _ _ _ _ Hinst) as [Hgone ->].
      split; [reflexivity|]. split; [reflexivity|]. split; [reflexivity|].
      exact Hgone.
    + intros Hsound Hda Had. split.
      * intros fs2 r Hinst.
        apply (install_copies _ _ _ _ _ _ _ _ Hinst Hsound Hda Had).
        intros rel. rewrite key_tempDir. unfold agentDir.
        destruct (valid_name m n Hvalid Hname) as [Hplain Hstage].
        rewrite (key_join fs1 targetDir [n])
          by (constructor; [exact Hplain|constructor]).
        rewrite <- app_assoc, within_app. cbn [app]. rewrite within_cons.
        destruct (String.eqb_spec ".porter-temp" n) as [E|_]; [|reflexivity].
        symmetry in E. contradiction.
      * intros Hdir Hfits.
        apply install_returns; try assumption.
        exact (extracted_directory _ _ _ _ _ m Hres Hsound Hload).
Qed.

End ImportAgent.

(** The directory [/src/] holds the agent [existing], which [/agents]
    already has: the plain import is refused and leaves the disk as it was,
    the forced one goes through and the nested skill file is in the agent
    directory afterwards. *)
Lemma collision_needs_force_witness :
  Importer.importAgent Examples.node Cases.nested "/src/"
    (Examples.into_agents false)
  = (Cases.nested,
     Returns
       (Importer.failure
          ["Agent directory already exists: /agents/existing. Use --force to overwrite."]))
  /\ exists fs2 r,
       Importer.importAgent Examples.node Cases.nested "/src/"
         (Examples.into_agents true) = (fs2, Returns r)
       /\ Importer.success r = true
       /\ Importer.agentPath r = Some "/agents/existing"
       /\ Fs.readFile fs2 "/agents/existing/skills/search/SKILL.md"
          = Some "# Search".
Proof.
  assert (Hres : forall f,
    Importer.resolveSource Examples.node Cases.nested "/src/"
      (Importer.targetDir Cases.nested (Examples.into_agents f))
    = (Cases.nested, Returns (Importer.Extracted "/src/"))).
  { intros f. unfold Importer.resolveSource.
    replace (Js.endsWith "/src/" ".tar.gz" || Js.endsWith "/src/" ".tgz")
      with false by (vm_compute; reflexivity).
    replace (Fs.pathExists Cases.nested "/src/")
      with true by (vm_compute; reflexivity).
    reflexivity. }
  assert (Hload : loadManifest Examples.node Cases.nested "/src/"
                  = Returns (Some (Examples.agent "existing")))
    by (vm_compute; reflexivity).
  assert (Hvalid : valid (validateManifest (Examples.agent "existing")) = true)
    by (vm_compute; reflexivity).
  assert (Hthere : forall f,
    Fs.pathExists Cases.nested
      (Path.join [Importer.targetDir Cases.nested (Examples.into_agents f);
                  "existing"]) = true)
    by (intros []; vm_compute; reflexivity).
  split.
  - destruct (collision_needs_force Examples.node Cases.nested Cases.nested
                "/src/" "/src/" "existing" (Examples.into_agents false)
                (Examples.agent "existing") (Hres false) Hload Hvalid eq_refl
                (Hthere false)) as (_ & Hplain & _).
    exact (Hplain eq_refl).
  - destruct (collision_needs_force Examples.node Cases.nested Cases.nested
                "/src/" "/src/" "existing" (Examples.into_agents true)
                (Examples.agent "existing") (Hres true) Hload Hvalid eq_refl
                (Hthere true)) as (_ & _ & Hforce).
    destruct (Hforce eq_refl) as (_ & Hshape & Hsound).
    destruct Hsound as [Hcopy Hreturns];
      [vm_compute; reflexivity|vm_compute; reflexivity|vm_compute; reflexivity|].
    destruct Hreturns as [fs2 Himp];
      [vm_compute; reflexivity|vm_compute; reflexivity|].
    destruct (Hshape fs2 _ Himp) as (Hs & _).
    eexists fs2, _. split; [exact Himp|]. split; [exact Hs|].
    split; [reflexivity|].
    replace "/agents/existing/skills/search/SKILL.md"
      with (Path.resolve (Fs.cwd Cases.nested)
              (Path.join
                 (Path.join [Importer.targetDir Cases.nested
                               (Examples.into_agents true); "existing"]
                  :: ["skills"; "search"; "SKILL.md"])))
      by (vm_compute; reflexivity).
    apply (Hcopy fs2 _ Himp).
    + discriminate.
    + repeat constructor.
    + vm_compute; reflexivity.
Defined.

(** Where [targetDir/n] is a regular file, the forced import throws: the
    agent directory cannot be made. *)
Example forced_import_over_file :
  (Importer.importAgent Examples.node Cases.blocked "/src"
     (Examples.into_agents false)).2
  = Returns
      (Importer.failure
         ["Agent directory already exists: /agents/existing. Use --force to overwrite."])
  /\ (Importer.importAgent Examples.node Cases.blocked "/src"
        (Examples.into_agents true)).2
     = Throws "EEXIST: file already exists, mkdir '/agents/existing'".
Proof. split; vm_compute; reflexivity. Qed.

(** So it does where a directory stands in the place of a file that is to
    be copied. *)
Example forced_import_over_directory :
  (Importer.importAgent Examples.node
     (Fs.put Cases.nested "/agents/existing/SOUL.md" Dir) "/src"
     (Examples.into_agents true)).2
  = Throws "Cannot overwrite directory '/agents/existing/SOUL.md' with non-directory '/src/SOUL.md'.".
Proof. vm_compute. reflexivity. Qed.

(** C4. Four imports from archives that fail after the extraction: two
    top-level entries, no manifest, an invalid manifest, and a target that
    exists.  Each returns its failure, and the staging directory
    [/agents/.porter-temp] is still on the disk afterwards. *)
Theorem staging_left_after_failed_import :
  Forall (fun '(source, err) =>
            (Importer.importAgent Examples.node Examples.disk source
               (Examples.into_agents false)).2
            = Returns (Importer.failure [err])
            /\ Fs.pathExists
                 (Importer.importAgent Examples.node Examples.disk source
                    (Examples.into_agents false)).1
                 "/agents/.porter-temp" = true)
    [ ("/dl/two-roots.tgz",
       "Invalid archive structure - expected single root directory");
      ("/dl/no-manifest.tar.gz", "No porter.yaml found in package");
      ("/dl/bad-name.tgz",
       "Name must be lowercase alphanumeric with hyphens only");
      ("/dl/existing.tgz",
       "Agent directory already exists: /agents/existing. Use --force to overwrite.") ].
Proof.
  repeat (constructor; [split; vm_compute; reflexivity|]). constructor.
Qed.

(** The same archive imported with [force] runs to the end, and there the
    staging directory is removed; so it is when the archive cannot be
    read. *)
Example staging_removed_on_other_paths :
  Forall (fun '(source, ok) =>
            Importer.success
              <$> match (Importer.importAgent Examples.node Examples.disk source
                           (Examples.into_agents true)).2 with
                  | Returns r => Some r
                  | Throws _ => None
                  end = Some ok
            /\ Fs.pathExists
                 (Importer.importAgent Examples.node Examples.disk source
                    (Examples.into_agents true)).1
                 "/agents/.porter-temp" = false)
    [ ("/dl/existing.tgz", true); ("/dl/missing.tgz", false) ].
Proof.
  repeat (constructor; [split; vm_compute; reflexivity|]). constructor.
Qed.
(** * Further properties *)

(** ** More on the validator *)

Section ValidatorMore.

Implicit Types (m : PorterManifest).

(** X1. A manifest is valid exactly when the five required fields are
    present and not empty, the name consists of lowercase letters, digits
    and hyphens only, and none of the paths the validator reads starts with
    [/] or contains [..]. *)
Theorem valid_iff_well_formed m :
  valid (validateManifest m) = true
  <-> (forall f, Js.truthy (field_value m f) = true)
      /\ (forall n, name m = Some n ->
            forallb Re.slug_char (list_ascii_of_string n) = true)
      /\ (forall p, p ∈ allPaths m -> unsafe_path p = false).
Proof.
  rewrite valid_spec. unfold validateManifest; cbn [errors].
  split.
  - intros H.
    apply app_eq_nil in H as [Hn H]. apply app_eq_nil in H as [Hv H].
    apply app_eq_nil in H as [Hd H]. apply app_eq_nil in H as [He H].
    apply app_eq_nil in H as [Hs Hp].
    unfold name_errors in Hn. unfold version_errors in Hv.
    unfold description_errors in Hd. unfold engine_errors in He.
    unfold soul_errors in Hs.
    destruct (Js.truthy (name m)) eqn:Tn; cbn [negb] in Hn; [|discriminate].
    destruct (Js.truthy (version m)) eqn:Tv; cbn [negb] in Hv; [|discriminate].
    destruct (Js.truthy (description m)) eqn:Td; cbn [negb] in Hd; [|discriminate].
    destruct (Js.truthy (engine_clawdbot m)) eqn:Te; cbn [negb] in He; [|discriminate].
    destruct (Js.truthy (context_field m "soul")) eqn:Ts; cbn [negb] in Hs;
      [|discriminate].
    split; [intros []; assumption|]. split.
    + intros n Hname.
      destruct (Re.test_full name_re (Js.orElse (name m) "")) eqn:Tr;
        cbn [negb] in Hn; [|discriminate].
      apply name_re_spec in Tr as [_ Hall].
      destruct (truthy_some _ Tn) as (s & Hs' & _ & Hor).
      rewrite Hor in Hall. congruence.
    + intros p Hp'. destruct (unsafe_path p) eqn:U; [|reflexivity].
      unfold path_errors in Hp. apply fmap_nil_inv in Hp.
      assert (Hin : p ∈ filter (fun p => unsafe_path p = true) (allPaths m))
        by (apply list_elem_of_filter; split; assumption).
      rewrite Hp in Hin. inversion Hin.
  - intros (Hf & Hn & Hp).
    unfold name_errors, version_errors, description_errors, engine_errors,
      soul_errors.
    pose proof (Hf F_name) as Tn. pose proof (Hf F_version) as Tv.
    pose proof (Hf F_description) as Td. pose proof (Hf F_engine_clawdbot) as Te.
    pose proof (Hf F_context_soul) as Ts. cbn [field_value] in *.
    rewrite Tn, Tv, Td, Te, Ts. cbn [negb].
    destruct (truthy_some _ Tn) as (s & Hs' & Hne & Hor).
    assert (Tr : Re.test_full name_re (Js.orElse (name m) "") = true).
    { rewrite Hor. apply name_re_spec. split; [exact Hne|exact (Hn s Hs')]. }
    rewrite Tr. cbn [negb app].
    unfold path_errors. rewrite filter_none; [reflexivity|].
    intros p Hin Hu. rewrite (Hp p Hin) in Hu. discriminate.
Qed.

End ValidatorMore.

Lemma valid_iff_well_formed_witness :
  valid (validateManifest (Examples.agent "test-agent")) = true
  /\ forallb Re.slug_char (list_ascii_of_string "test-agent") = true.
Proof.
  split.
  - apply (proj2 (valid_iff_well_formed (Examples.agent "test-agent"))).
    split; [intros []; reflexivity|]. split.
    + intros n [= <-]. reflexivity.
    + intros p Hp. vm_compute in Hp.
      apply list_elem_of_singleton in Hp as ->. reflexivity.
  - exact (proj1 (proj2 (proj1 (valid_iff_well_formed (Examples.agent "test-agent"))
                           eq_refl)) "test-agent" eq_refl).
Defined.

(** ** More on the scanner *)

Section ScannerMore.

Variable P : Platform.

Lemma unique_from_NoDup (l : list string) :
  forall seen, NoDup (Scanner.unique_from seen l)
               /\ forall x, x ∈ Scanner.unique_from seen l -> x ∉ seen.
Proof.
  induction l as [|y l IH]; intros seen; cbn [Scanner.unique_from].
  - split; [constructor|intros x Hx; inversion Hx].
  - case_bool_decide as Hy; [apply IH|].
    destruct (IH (y :: seen)) as [Hnd Hfresh]. split.
    + constructor; [|exact Hnd]. intros Hin. apply (Hfresh y Hin). left.
    + intros x [->|Hx]%elem_of_cons; [exact Hy|].
      intros Hs. apply (Hfresh x Hx). right. exact Hs.
Qed.

Lemma filter_excluded_complete (patterns files kept : list string) :
  Scanner.filter_excluded P patterns files = Returns kept ->
  forall x, x ∈ files -> Scanner.excluded P patterns x = Returns false ->
    x ∈ kept.
Proof.
  revert kept. induction files as [|f fs IH]; intros kept H x Hx Hfalse.
  - inversion Hx.
  - cbn [Scanner.filter_excluded] in H.
    destruct (Scanner.excluded P patterns f) as [hit|e] eqn:Hf;
      cbn [obind] in H; [|discriminate].
    destruct (Scanner.filter_excluded P patterns fs) as [kept'|e] eqn:Hfs;
      cbn [obind] in H; [|discriminate].
    injection H as <-.
    apply elem_of_cons in Hx as [->|Hx].
    + rewrite Hfalse in Hf. injection Hf as <-. left.
    + specialize (IH kept' eq_refl x Hx Hfalse).
      destruct hit; [exact IH|right; exact IH].
Qed.

Lemma scan_kept_not_excluded (fs : FS) (ws : string) (m : PorterManifest)
    (r : Scanner.ScanResult) (x : string) :
  Scanner.scanWorkspace P fs ws m = Returns r ->
  x ∈ Scanner.files r ->
  Scanner.excluded P (Scanner.excludePatterns m) x = Returns false.
Proof.
  intros Hscan Hx. unfold Scanner.scanWorkspace in Hscan.
  destruct (context m) as [ctx|]; [|discriminate].
  destruct (Scanner.candidates P fs ws m ctx) as [files warns].
  destruct (Scanner.filter_excluded P (Scanner.excludePatterns m) files)
    as [kept|e] eqn:Hk; cbn [obind] in Hscan; [|discriminate].
  injection Hscan as <-. cbn [Scanner.files] in Hx.
  apply unique_from_subset in Hx.
  exact (proj2 (filter_excluded_kept P _ _ _ Hk x Hx)).
Qed.

Lemma chunks_fst_elem (l : list Scanner.chunk) (c : Scanner.chunk) (x : string) :
  c ∈ l -> x ∈ c.1 -> x ∈ (Scanner.chunks l).1.
Proof.
  induction l as [|d l IH]; intros Hc Hx; [inversion Hc|].
  cbn [Scanner.chunks foldr Scanner.chunk_app fst]. apply elem_of_app.
  apply elem_of_cons in Hc as [->|Hc]; [left; exact Hx|right; exact (IH Hc Hx)].
Qed.

Lemma chunks_snd_elem (l : list Scanner.chunk) (c : Scanner.chunk) (w : string) :
  c ∈ l -> w ∈ c.2 -> w ∈ (Scanner.chunks l).2.
Proof.
  induction l as [|d l IH]; intros Hc Hw; [inversion Hc|].
  cbn [Scanner.chunks foldr Scanner.chunk_app snd]. apply elem_of_app.
  apply elem_of_cons in Hc as [->|Hc]; [left; exact Hw|right; exact (IH Hc Hw)].
Qed.

Lemma scan_parts (fs : FS) (ws : string) (m : PorterManifest) (ctx : Context)
    (r : Scanner.ScanResult) :
  context m = Some ctx ->
  Scanner.scanWorkspace P fs ws m = Returns r ->
  Scanner.warnings r = (Scanner.candidates P fs ws m ctx).2
  /\ forall x, x ∈ (Scanner.candidates P fs ws m ctx).1 ->
       Scanner.excluded P (Scanner.excludePatterns m) x = Returns false ->
       x ∈ Scanner.files r.
Proof.
  intros Hctx Hscan. unfold Scanner.scanWorkspace in Hscan. rewrite Hctx in Hscan.
  destruct (Scanner.candidates P fs ws m ctx) as [files warns].
  destruct (Scanner.filter_excluded P (Scanner.excludePatterns m) files)
    as [kept|e] eqn:Hk; cbn [obind] in Hscan; [|discriminate].
  injection Hscan as <-. cbn [Scanner.files Scanner.warnings fst snd].
  split; [reflexivity|]. intros x Hx Hfalse.
  apply unique_from_complete; [|inversion 1].
  exact (filter_excluded_complete _ _ _ Hk x Hx Hfalse).
Qed.

(** X2. The file list of a scan has no duplicates, and a path is in it
    exactly when it was collected from the manifest (the manifest file,
    context files, skill files, assets, MCP configs, seeds) and no
    exclusion pattern, default or declared, matches it. *)
Theorem scan_files_spec (fs : FS) (ws : string) (m : PorterManifest)
    (ctx : Context) (r : Scanner.ScanResult) :
  context m = Some ctx ->
  Scanner.scanWorkspace P fs ws m = Returns r ->
  NoDup (Scanner.files r)
  /\ forall x,
       x ∈ Scanner.files r
       <-> x ∈ (Scanner.candidates P fs ws m ctx).1
           /\ Scanner.excluded P (Scanner.excludePatterns m) x = Returns false.
Proof.
  intros Hctx Hscan. unfold Scanner.scanWorkspace in Hscan. rewrite Hctx in Hscan.
  destruct (Scanner.candidates P fs ws m ctx) as [files warns].
  destruct (Scanner.filter_excluded P (Scanner.excludePatterns m) files)
    as [kept|e] eqn:Hk; cbn [obind] in Hscan; [|discriminate].
  injection Hscan as <-. cbn [Scanner.files fst]. split.
  - apply unique_from_NoDup.
  - intros x. split.
    + intros Hx%unique_from_subset.
      exact (filter_excluded_kept P _ _ _ Hk x Hx).
    + intros [Hx Hfalse]. apply unique_from_complete; [|inversion 1].
      exact (filter_excluded_complete _ _ _ Hk x Hx Hfalse).
Qed.

(** X3. The default exclusions without a wildcard cannot be overridden:
    a path that starts with [.env], [memory/], [.git/], [node_modules/],
    [.DS_Store] or [USER.md] is in no scan result, whatever the manifest
    lists. *)
Theorem default_literal_excludes_win (fs : FS) (ws : string)
    (m : PorterManifest) (r : Scanner.ScanResult) (p x : string) :
  Scanner.scanWorkspace P fs ws m = Returns r ->
  p ∈ [".env"; "memory/"; ".git/"; "node_modules/"; ".DS_Store"; "USER.md"] ->
  Js.startsWith x p = true ->
  x ∉ Scanner.files r.
Proof.
  intros Hscan Hp Hstart.
  apply (excluded_path_not_scanned P fs ws m r p x Hscan).
  - unfold Scanner.excludePatterns. apply elem_of_app; left.
    unfold DEFAULT_EXCLUDES.
    repeat (apply elem_of_cons in Hp as [->|Hp];
            [repeat first [left; reflexivity|right]|]).
    inversion Hp.
  - unfold Scanner.pattern_excludes.
    assert (Hlit : Js.includes p "*" = false).
    { repeat (apply elem_of_cons in Hp as [->|Hp]; [reflexivity|]).
      inversion Hp. }
    rewrite Hlit, Hstart. reflexivity.
Qed.

(** X4. A wildcard pattern that is not a regular expression cannot go
    unnoticed: if the scan returns and lists any file, every exclusion
    pattern with a [*] compiled. *)
Theorem listed_file_needs_all_patterns (fs : FS) (ws : string)
    (m : PorterManifest) (r : Scanner.ScanResult) (x p : string) :
  Scanner.scanWorkspace P fs ws m = Returns r ->
  x ∈ Scanner.files r ->
  p ∈ Scanner.excludePatterns m ->
  Js.includes p "*" = true ->
  is_Some (RegExp P ("^" +:+ Scanner.star_to_regex p +:+ "$")).
Proof.
  intros Hscan Hx Hp Hstar.
  pose proof (scan_kept_not_excluded fs ws m r x Hscan Hx) as Hfalse.
  pose proof (excluded_false_all P _ _ Hfalse p Hp) as H.
  unfold Scanner.pattern_excludes in H. rewrite Hstar in H.
  destruct (RegExp P _) as [t|]; [eexists; reflexivity|discriminate].
Qed.

(** X5. What the manifest declares and the disk lacks is reported, not
    fatal: in a scan that returns, every context file, bundled skill
    directory and MCP config that does not exist has its warning, and every
    context file that exists and that no pattern excludes is listed. *)
Theorem missing_resources_are_warned (fs : FS) (ws : string)
    (m : PorterManifest) (ctx : Context) (r : Scanner.ScanResult) :
  context m = Some ctx ->
  Scanner.scanWorkspace P fs ws m = Returns r ->
  (forall file, file ∈ Scanner.contextFiles ctx ->
     if Fs.pathExists fs (Path.join [ws; file])
     then Scanner.excluded P (Scanner.excludePatterns m) file = Returns false ->
          file ∈ Scanner.files r
     else "Context file not found: " +:+ file ∈ Scanner.warnings r)
  /\ (forall ss bs skill,
        skills m = Some ss -> bundled ss = Some bs -> skill ∈ bs ->
        Fs.pathExists fs (Path.join [ws; path skill]) = false ->
        "Bundled skill not found: " +:+ path skill ∈ Scanner.warnings r)
  /\ (forall servers server cfg,
        mcp m = Some servers -> server ∈ servers ->
        config server = Some cfg -> cfg <> "" ->
        Fs.pathExists fs (Path.join [ws; cfg]) = false ->
        "MCP config template not found: " +:+ cfg ∈ Scanner.warnings r).
Proof.
  intros Hctx Hscan.
  destruct (scan_parts fs ws m ctx r Hctx Hscan) as [Hw Hfiles].
  rewrite Hw. unfold Scanner.candidates. split; [|split].
  - intros file Hfile.
    destruct (Fs.pathExists fs (Path.join [ws; file])) eqn:E.
    + intros Hfalse. apply Hfiles; [|exact Hfalse].
      unfold Scanner.candidates.
      apply (chunks_fst_elem _ (Scanner.scan_context fs ws ctx)); [right; left|].
      unfold Scanner.scan_context.
      apply (chunks_fst_elem _ ([file], [])); [|left].
      apply list_elem_of_fmap. exists file. rewrite E. split; [reflexivity|exact Hfile].
    + apply (chunks_snd_elem _ (Scanner.scan_context fs ws ctx)); [right; left|].
      unfold Scanner.scan_context.
      apply (chunks_snd_elem _ ([], ["Context file not found: " +:+ file])); [|left].
      apply list_elem_of_fmap. exists file. rewrite E. split; [reflexivity|exact Hfile].
  - intros ss bs skill Hss Hbs Hskill Hmiss.
    apply (chunks_snd_elem _ (Scanner.scan_skills P fs ws m)); [do 2 right; left|].
    unfold Scanner.scan_skills. rewrite Hss. cbn [mbind option_bind]. rewrite Hbs.
    apply (chunks_snd_elem _ ([], ["Bundled skill not found: " +:+ path skill]));
      [|left].
    apply list_elem_of_fmap. exists skill. rewrite Hmiss.
    split; [reflexivity|exact Hskill].
  - intros servers server cfg Hmcp Hserver Hcfg Hne Hmiss.
    apply (chunks_snd_elem _ (Scanner.scan_mcp fs ws m)); [do 4 right; left|].
    unfold Scanner.scan_mcp. rewrite Hmcp.
    apply (chunks_snd_elem _ ([], ["MCP config template not found: " +:+ cfg]));
      [|left].
    apply list_elem_of_fmap. exists server. rewrite Hcfg.
    destruct cfg as [|c cfg]; [contradiction|]. cbn [Js.truthy Js.orElse].
    rewrite Hmiss. split; [reflexivity|exact Hserver].
Qed.

(** X6. Seed paths are taken on trust: every entry of [seeds.memory] that
    no pattern excludes is in the file list, whether or not it exists in
    the workspace. *)
Theorem seeds_are_listed_unchecked (fs : FS) (ws : string)
    (m : PorterManifest) (r : Scanner.ScanResult) (sd : Seeds)
    (l : list string) (seed : string) :
  Scanner.scanWorkspace P fs ws m = Returns r ->
  seeds m = Some sd -> memory sd = Some l -> seed ∈ l ->
  Scanner.excluded P (Scanner.excludePatterns m) seed = Returns false ->
  seed ∈ Scanner.files r.
Proof.
  intros Hscan Hsd Hl Hseed Hfalse.
  destruct (context m) as [ctx|] eqn:Hctx;
    [|unfold Scanner.scanWorkspace in Hscan; rewrite Hctx in Hscan; discriminate].
  destruct (scan_parts fs ws m ctx r Hctx Hscan) as [_ Hfiles].
  apply Hfiles; [|exact Hfalse]. unfold Scanner.candidates.
  apply (chunks_fst_elem _ (Scanner.scan_seeds m)); [do 5 right; left|].
  unfold Scanner.scan_seeds. rewrite Hsd. cbn [mbind option_bind]. rewrite Hl.
  exact Hseed.
Qed.

End ScannerMore.

(** The scan of a workspace that lacks most of what its manifest
    declares. *)
Lemma scan_files_spec_witness :
  NoDup (Scanner.files Cases.sparse_scan)
  /\ forall x,
       x ∈ Scanner.files Cases.sparse_scan
       <-> x ∈ (Scanner.candidates Examples.node Examples.workspace "/w"
                  Cases.sparse
                  [("soul", "SOUL.md"); ("identity", "MISSING.md")]).1
           /\ Scanner.excluded Examples.node
                (Scanner.excludePatterns Cases.sparse) x = Returns false.
Proof.
  apply (scan_files_spec Examples.node Examples.workspace "/w" Cases.sparse).
  - reflexivity.
  - vm_compute. reflexivity.
Defined.

Lemma default_literal_excludes_win_witness :
  "memory/old.md" ∉ Scanner.files Cases.sparse_scan.
Proof.
  apply (default_literal_excludes_win Examples.node Examples.workspace "/w"
           Cases.sparse Cases.sparse_scan "memory/" "memory/old.md").
  - vm_compute. reflexivity.
  - repeat constructor.
  - reflexivity.
Defined.

Lemma listed_file_needs_all_patterns_witness :
  is_Some (RegExp Examples.node ("^" +:+ Scanner.star_to_regex "*.log" +:+ "$")).
Proof.
  apply (listed_file_needs_all_patterns Examples.node Examples.workspace "/w"
           Cases.sparse Cases.sparse_scan "SOUL.md" "*.log").
  - vm_compute. reflexivity.
  - repeat constructor.
  - repeat constructor.
  - reflexivity.
Defined.

Lemma missing_resources_are_warned_witness :
  "SOUL.md" ∈ Scanner.files Cases.sparse_scan
  /\ "Context file not found: MISSING.md" ∈ Scanner.warnings Cases.sparse_scan
  /\ "Bundled skill not found: skills/absent" ∈ Scanner.warnings Cases.sparse_scan
  /\ "MCP config template not found: mcp.json" ∈ Scanner.warnings Cases.sparse_scan.
Proof.
  destruct (missing_resources_are_warned Examples.node Examples.workspace "/w"
              Cases.sparse [("soul", "SOUL.md"); ("identity", "MISSING.md")]
              Cases.sparse_scan eq_refl)
    as (Hcontext & Hskill & Hmcp); [vm_compute; reflexivity|].
  split; [|split; [|split]].
  - assert (Hin : "SOUL.md" ∈ Scanner.contextFiles
                    [("soul", "SOUL.md"); ("identity", "MISSING.md")])
      by repeat constructor.
    pose proof (Hcontext "SOUL.md" Hin) as H.
    replace (Fs.pathExists Examples.workspace (Path.join ["/w"; "SOUL.md"]))
      with true in H by (vm_compute; reflexivity).
    apply H. vm_compute. reflexivity.
  - assert (Hin : "MISSING.md" ∈ Scanner.contextFiles
                    [("soul", "SOUL.md"); ("identity", "MISSING.md")])
      by repeat constructor.
    pose proof (Hcontext "MISSING.md" Hin) as H.
    replace (Fs.pathExists Examples.workspace (Path.join ["/w"; "MISSING.md"]))
      with false in H by (vm_compute; reflexivity).
    exact H.
  - apply (Hskill _ _ {| path := "skills/absent" |} eq_refl eq_refl).
    + constructor.
    + vm_compute. reflexivity.
  - apply (Hmcp _ {| mcp_name := "files"; config := Some "mcp.json";
                     mcp_required := None |} "mcp.json" eq_refl).
    + constructor.
    + reflexivity.
    + discriminate.
    + vm_compute. reflexivity.
Defined.

(** The seed [notes/seed.md] does not exist in the workspace and is
    listed all the same. *)
Lemma seeds_are_listed_unchecked_witness :
  Fs.pathExists Examples.workspace (Path.join ["/w"; "notes/seed.md"]) = false
  /\ "notes/seed.md" ∈ Scanner.files Cases.sparse_scan.
Proof.
  split; [vm_compute; reflexivity|].
  apply (seeds_are_listed_unchecked Examples.node Examples.workspace "/w"
           Cases.sparse Cases.sparse_scan
           {| memory := Some ["notes/seed.md"; "memory/old.md"];
              projects := None |}
           ["notes/seed.md"; "memory/old.md"] "notes/seed.md").
  - vm_compute. reflexivity.
  - reflexivity.
  - reflexivity.
  - constructor.
  - vm_compute. reflexivity.
Defined.

(** ** More on the secret scan *)

Section Detection.

Lemma run_lit (w s : string) (k : string -> option string) :
  Re.run (Re.lit w) (w +:+ s) k = k s.
Proof.
  induction w as [|c w IH]; [reflexivity|].
  change (String c w +:+ s) with (String c (w +:+ s)).
  cbn [Re.lit Re.run]. rewrite Ascii.eqb_refl. exact IH.
Qed.

(** A greedy repetition whose first [lo] characters are in the class and
    whose bound allows them succeeds, when whatever follows is accepted. *)
Lemma rep_k_succeeds (p : ascii -> bool) (tok : string) :
  forall (lo : nat) (hi : option nat) (rest : string),
    String.length tok = lo ->
    forallb p (list_ascii_of_string tok) = true ->
    (forall h, hi = Some h -> lo <= h) ->
    is_Some (Re.rep_k p lo hi (tok +:+ rest) Some).
Proof.
  assert (Hzero : forall s hi, is_Some (Re.rep_k p 0 hi s Some)).
  { intros s hi. destruct s as [|c s].
    - destruct hi as [[|h]|]; cbn; eexists; reflexivity.
    - destruct hi as [[|h]|]; cbn [Re.rep_k]; [eexists; reflexivity| |];
        (destruct (p c); [|eexists; reflexivity]);
        match goal with
        | |- context [Re.rep_k p ?a ?b s Some] =>
            destruct (Re.rep_k p a b s Some)
        end; eexists; reflexivity. }
  induction tok as [|c tok IH]; intros lo hi rest Hlen Hall Hhi.
  - cbn in Hlen. subst lo. apply Hzero.
  - cbn [String.length] in Hlen. subst lo.
    cbn [list_ascii_of_string forallb] in Hall.
    apply andb_true_iff in Hall as [Hc Hall].
    change (String c tok +:+ rest) with (String c (tok +:+ rest)).
    assert (Hrec : is_Some (Re.rep_k p (String.length tok) (Nat.pred <$> hi)
                              (tok +:+ rest) Some)).
    { apply IH; [reflexivity|exact Hall|].
      intros h Hh. destruct hi as [h'|]; [|discriminate].
      injection Hh as <-. specialize (Hhi h' eq_refl). cbn. lia. }
    destruct Hrec as [x Hx].
    destruct hi as [[|h]|].
    + specialize (Hhi 0 eq_refl). lia.
    + cbn [Re.rep_k Nat.pred]. rewrite Hc. rewrite Hx. eexists; reflexivity.
    + cbn [Re.rep_k Nat.pred]. rewrite Hc. rewrite Hx. eexists; reflexivity.
Qed.

Lemma first_match_found (r : Re.regex) (s : string) :
  is_Some (Re.run r s Some) ->
  forall before, is_Some (Re.first_match r (before +:+ s)).
Proof.
  intros [rest Hrun] before. induction before as [|c before IH].
  - change ("" +:+ s) with s.
    destruct s; cbn [Re.first_match]; rewrite Hrun; eexists; reflexivity.
  - change (String c before +:+ s) with (String c (before +:+ s)).
    cbn [Re.first_match].
    destruct (Re.run r (String c (before +:+ s)) Some);
      [eexists; reflexivity|exact IH].
Qed.

Lemma alnum_token_char (tok : string) :
  forallb Re.alnum (list_ascii_of_string tok) = true ->
  forallb Re.token_char (list_ascii_of_string tok) = true.
Proof.
  induction tok as [|c tok IH]; [reflexivity|].
  cbn [list_ascii_of_string forallb]. intros [Hc Hall]%andb_true_iff.
  unfold Re.token_char at 1. rewrite Hc, (IH Hall). reflexivity.
Qed.

(** The four vendor patterns each find their key wherever it stands in a
    line. *)
Lemma vendor_key_matches (prefix : string) (n : nat) (tok before after : string) :
  (prefix, n) ∈ [("sk-", 32); ("xai-", 32); ("AIza", 35); ("ghp_", 36)] ->
  String.length tok = n ->
  forallb Re.alnum (list_ascii_of_string tok) = true ->
  exists p, p ∈ Scanner.secretPatterns
    /\ is_Some (Re.first_match p (before +:+ prefix +:+ tok +:+ after)).
Proof.
  intros Hin Hlen Hall.
  pose proof (alnum_token_char tok Hall) as Htok.
  unfold Scanner.secretPatterns.
  repeat (apply elem_of_cons in Hin as [[= -> ->]|Hin]).
  5: inversion Hin.
  1: exists (Re.Cat (Re.lit "sk-") (Re.Rep Re.alnum 32 None)).
  2: exists (Re.Cat (Re.lit "xai-") (Re.Rep Re.alnum 32 None)).
  3: exists (Re.Cat (Re.lit "AIza") (Re.Rep Re.token_char 35 (Some 35))).
  4: exists (Re.Cat (Re.lit "ghp_") (Re.Rep Re.alnum 36 (Some 36))).
  all: split; [repeat first [left; reflexivity|right]|].
  all: apply first_match_found; cbn [Re.run]; rewrite run_lit; cbn [Re.run].
  all: apply rep_k_succeeds;
    [exact Hlen|assumption|intros h [= <-]; lia || discriminate].
Qed.

Variables (fs : FS) (ws : string).

Lemma lines_leaks_intro (f : string) (lines : list string) :
  forall (i0 j : nat) (text : string) (r : Scanner.Leak),
    lines !! j = Some text ->
    r ∈ Scanner.line_leaks f (i0 + j) text ->
    r ∈ Scanner.lines_leaks f i0 lines.
Proof.
  induction lines as [|t lines IH]; intros i0 j text r Hj Hr; [discriminate|].
  cbn [Scanner.lines_leaks]. apply elem_of_app. destruct j as [|j].
  - injection Hj as ->. left. rewrite Nat.add_0_r in Hr. exact Hr.
  - right. apply (IH (S i0) j text r Hj).
    replace (S i0 + j) with (i0 + S j) by lia. exact Hr.
Qed.

(** X7. A vendor key is always reported: when a line of a listed, readable
    file with a text extension contains [sk-] or [xai-] followed by 32
    alphanumeric characters, [AIza] followed by 35, or [ghp_] followed by
    36, checkForSecrets has a record for that file and line. *)
Theorem vendor_key_is_reported (files : list string) (f : string) (i : nat)
    (prefix : string) (n : nat) (tok before after : string) :
  f ∈ files ->
  scanned_line fs ws f i = Some (before +:+ prefix +:+ tok +:+ after) ->
  (prefix, n) ∈ [("sk-", 32); ("xai-", 32); ("AIza", 35); ("ghp_", 36)] ->
  String.length tok = n ->
  forallb Re.alnum (list_ascii_of_string tok) = true ->
  exists r, r ∈ Scanner.checkForSecrets fs ws files
            /\ Scanner.file r = f /\ Scanner.line r = i + 1.
Proof.
  intros Hf Hline Hin Hlen Hall.
  destruct (vendor_key_matches prefix n tok before after Hin Hlen Hall)
    as (p & Hp & [mt Hm]).
  exists {| Scanner.file := f; Scanner.line := i + 1;
            Scanner.match_ := Scanner.redact mt |}.
  split; [|split; reflexivity].
  unfold Scanner.checkForSecrets.
  apply list_elem_of_In, in_flat_map. exists f.
  split; [apply list_elem_of_In; exact Hf|]. apply list_elem_of_In.
  unfold Scanner.file_leaks. unfold scanned_line in Hline.
  destruct (Scanner.is_text_file f); [|discriminate]. cbn [negb].
  destruct (Fs.readFile fs (Path.join [ws; f])) as [content|]; [|discriminate].
  cbn [mbind option_bind] in Hline.
  apply (lines_leaks_intro f _ 0 i _ _ Hline). cbn [Nat.add].
  rewrite line_leaks_records. unfold line_records.
  apply list_elem_of_omap. exists p. split; [exact Hp|].
  rewrite Hm. reflexivity.
Qed.

End Detection.

Lemma vendor_key_is_reported_witness :
  exists r, r ∈ Scanner.checkForSecrets Examples.leaky "/w" ["config.md"]
            /\ Scanner.file r = "config.md" /\ Scanner.line r = 2 + 1.
Proof.
  apply (vendor_key_is_reported Examples.leaky "/w" ["config.md"] "config.md" 2
           "sk-" 32 "abcdefghijklmnopqrstuvwxyz123456" "API_KEY = " "").
  - constructor.
  - vm_compute. reflexivity.
  - constructor.
  - reflexivity.
  - reflexivity.
Defined.

(** ** More on the generator *)

Section GeneratorMore.

Variables (fs : FS) (ws : string).

Lemma Returns_inj {A} (a b : A) : Returns a = Returns b -> a = b.
Proof. intros [= H]. exact H. Qed.

Lemma default_name_chars (d : string) :
  forallb Re.slug_char (list_ascii_of_string (default_name d)) = true.
Proof.
  unfold default_name. induction d as [|c d IH]; [reflexivity|].
  rewrite replace_class_step. cbn [list_ascii_of_string forallb].
  rewrite IH, andb_true_r. unfold not_slug_char.
  destruct (Re.slug_char (Js.lower c)) eqn:E; cbn [negb]; [exact E|reflexivity].
Qed.

Lemma default_name_accepted (d : string) :
  d <> "" ->
  Js.truthy (Some (default_name d)) = true
  /\ Re.test_full name_re (Js.orElse (Some (default_name d)) "") = true.
Proof.
  intros Hd. pose proof (default_name_length d) as Hlen.
  pose proof (default_name_chars d) as Hall.
  destruct (default_name d) as [|c n] eqn:E.
  - destruct d; [contradiction|discriminate Hlen].
  - split; [reflexivity|]. cbn [Js.orElse]. apply name_re_spec.
    split; [discriminate|exact Hall].
Qed.

Lemma orElse_truthy (o : option string) (d : string) :
  d <> "" -> Js.truthy (Some (Js.orElse o d)) = true.
Proof.
  intros Hd. destruct o as [[|c s]|]; cbn [Js.orElse]; try reflexivity;
    destruct d; try contradiction; reflexivity.
Qed.

(** The paths of the detected skills are [skills/<directory>]. *)
Lemma detect_skills_paths (sk : option Skills) :
  detect_skills fs ws = Returns sk ->
  exists dirs,
    or_nil ((fun l => map path l) <$> (s ← sk; bundled s))
    = map (fun n => "skills/" +:+ n) dirs.
Proof.
  unfold detect_skills.
  destruct (Fs.pathExists fs (Path.join [ws; "skills"]));
    [|intros [= <-]; exists []; reflexivity].
  destruct (Fs.readdir_types fs (Path.join [ws; "skills"])) as [entries|e];
    cbn [obind]; [|discriminate].
  destruct (map Fs.dirent_name _) as [|d dirs] eqn:E.
  - intros [= <-]. exists []. reflexivity.
  - intros [= <-]. exists (d :: dirs). cbn. rewrite map_map. reflexivity.
Qed.

Lemma skill_paths_kept (dirs : list string) :
  omap (fun o => if Js.truthy o then o else None)
    (map Some (map (fun n => "skills/" +:+ n) dirs))
  = map (fun n => "skills/" +:+ n) dirs.
Proof. induction dirs as [|d dirs IH]; [reflexivity|]. cbn. f_equal. exact IH. Qed.

Lemma skill_path_unsafe (n : string) :
  unsafe_path ("skills/" +:+ n) = Js.includes ("skills/" +:+ n) "..".
Proof. reflexivity. Qed.

(** The context and assets that the generator writes are safe paths. *)
Lemma generated_context_safe :
  let ctx :=
    detect_context fs ws ["IDENTITY.md"; "TOOLS.md"; "AGENTS.md"; "HEARTBEAT.md"]
      [("soul", "SOUL.md")] in
  let assets :=
    if Fs.pathExists fs (Path.join [ws; "avatars"])
    then Some ["avatars/"] else None in
  filter (fun p => unsafe_path p = true)
    (omap (fun o => if Js.truthy o then o else None)
       ([ctx_get ctx "soul"; ctx_get ctx "identity"; ctx_get ctx "tools";
         ctx_get ctx "agents"; ctx_get ctx "heartbeat"]
        ++ map Some (or_nil assets)))
  = [].
Proof.
  cbn [detect_context].
  repeat match goal with
         | |- context [Fs.pathExists fs ?b] => destruct (Fs.pathExists fs b)
         end; vm_compute; reflexivity.
Qed.

(** X8. What [init] generates validates: for a root with a non-empty base
    name and no name in the options, the only errors the validator finds in
    the generated manifest are the invalid-path errors of bundled skills
    whose path contains [..] (a skill directory with two dots in its
    name); the one warning is the one about environment variables. *)
Theorem generated_manifest_validates (options : GenerateOptions)
    (m : PorterManifest) :
  Js.truthy (opt_name options) = false ->
  Path.basename ws <> "" ->
  generateManifest fs ws options = Returns m ->
  errors (validateManifest m)
  = invalid_path_error
      <$> filter (fun p => Js.includes p ".." = true) (bundled_paths m)
  /\ warnings (validateManifest m)
     = ["No environment variables declared - agent may not work without API keys"]
  /\ (valid (validateManifest m) = true
      <-> forall p, p ∈ bundled_paths m -> Js.includes p ".." = false).
Proof.
  intros Hname Hbase Hgen.
  unfold generateManifest in Hgen.
  destruct (detect_skills fs ws) as [sk|e] eqn:Hsk;
    cbv beta iota zeta delta [obind] in Hgen; [|discriminate].
  destruct (detect_skills_paths sk Hsk) as [dirs Hdirs].
  destruct (default_name_accepted _ Hbase) as [Ht Hre].
  assert (Hn : Js.orElse (opt_name options) (default_name (Path.basename ws))
               = default_name (Path.basename ws))
    by (destruct (opt_name options) as [[|? ?]|]; first [reflexivity|discriminate]).
  pose proof (orElse_truthy (opt_description options)
                ("AI agent: " +:+ Path.basename ws) ltac:(discriminate)) as Hd.
  pose proof generated_context_safe as Hsafe. cbv zeta in Hsafe.
  rewrite detect_context_soul in Hsafe.
  apply Returns_inj in Hgen. subst m.
  match goal with
  | |- errors (validateManifest ?r) = _ /\ _ => set (m0 := r)
  end.
  assert (Hbp : bundled_paths m0 = map (fun n => "skills/" +:+ n) dirs)
    by exact Hdirs.
  assert (Hfilter : forall l : list string,
            (forall p, p ∈ l -> exists n, p = "skills/" +:+ n) ->
            filter (fun p => unsafe_path p = true) l
            = filter (fun p => Js.includes p ".." = true) l).
  { intros l Hl. induction l as [|p l IH]; [reflexivity|].
    destruct (Hl p) as [n ->]; [left|].
    rewrite !filter_cons, skill_path_unsafe, IH; [reflexivity|].
    intros q Hq. apply Hl. right. exact Hq. }
  assert (Herr : errors (validateManifest m0)
                 = invalid_path_error
                     <$> filter (fun p => Js.includes p ".." = true)
                           (map (fun n => "skills/" +:+ n) dirs)).
  { unfold validateManifest at 1; cbn [errors].
    unfold name_errors, version_errors, description_errors, engine_errors,
      soul_errors, path_errors, allPaths, engine_clawdbot, context_field.
    rewrite Hbp. unfold m0.
    cbn [name version description engine context assets
         mbind option_bind clawdbot].
    rewrite Hn, Ht, Hre, Hd, detect_context_soul. cbn [negb Js.truthy].
    rewrite !app_nil_l, app_assoc, omap_app, filter_app, Hsafe, skill_paths_kept.
    cbn [app]. f_equal. apply Hfilter.
    intros p [n [-> _]]%list_elem_of_fmap. exists n. reflexivity. }
  rewrite Hbp. split; [exact Herr|]. split; [reflexivity|].
  rewrite valid_spec, Herr. split.
  - intros Hnil%fmap_nil_inv p Hp.
    destruct (Js.includes p "..") eqn:E; [|reflexivity].
    assert (Hin : p ∈ filter (fun p => Js.includes p ".." = true)
                        (map (fun n => "skills/" +:+ n) dirs))
      by (apply list_elem_of_filter; split; assumption).
    rewrite Hnil in Hin. inversion Hin.
  - intros Hall. rewrite filter_none; [reflexivity|].
    intros p Hp Hu. rewrite (Hall p Hp) in Hu. discriminate.
Qed.

(** X9. The declarations the generator adds mirror the disk: each of the
    roles identity, tools, agents and heartbeat is declared, with its
    conventional file name, exactly when that file exists in the root, and
    [avatars/] is the one asset exactly when [avatars] exists. *)
Theorem generated_declarations_mirror_disk (options : GenerateOptions)
    (m : PorterManifest) :
  generateManifest fs ws options = Returns m ->
  Forall (fun '(role, file) =>
            context_field m role
            = if Fs.pathExists fs (Path.join [ws; file]) then Some file else None)
    [("identity", "IDENTITY.md"); ("tools", "TOOLS.md");
     ("agents", "AGENTS.md"); ("heartbeat", "HEARTBEAT.md")]
  /\ assets m
     = if Fs.pathExists fs (Path.join [ws; "avatars"]) then Some ["avatars/"]
       else None.
Proof.
  unfold generateManifest.
  destruct (detect_skills fs ws) as [sk|e]; cbn [obind]; [|discriminate].
  intros [= <-]. split; [|reflexivity].
  unfold context_field. cbn [context mbind option_bind detect_context].
  repeat (apply Forall_cons_2;
          [cbv beta iota;
           repeat match goal with
                  | |- context [Fs.pathExists fs ?b] =>
                      destruct (Fs.pathExists fs b)
                  end; vm_compute; reflexivity|]).
  apply Forall_nil_2.
Qed.

End GeneratorMore.

(** The manifest generated for [Cases.studio] passes the validator. *)
Lemma generated_manifest_validates_witness :
  errors (validateManifest Cases.studio_manifest) = []
  /\ warnings (validateManifest Cases.studio_manifest)
     = ["No environment variables declared - agent may not work without API keys"]
  /\ valid (validateManifest Cases.studio_manifest) = true.
Proof.
  destruct (generated_manifest_validates Cases.studio "/home/u/Studio One"
              {| opt_name := None; opt_description := None |}
              Cases.studio_manifest eq_refl)
    as (He & Hw & Hv).
  - vm_compute. discriminate.
  - vm_compute. reflexivity.
  - split; [exact He|]. split; [exact Hw|].
    apply Hv. intros p Hp.
    apply list_elem_of_singleton in Hp. subst p. reflexivity.
Defined.

Lemma generated_declarations_mirror_disk_witness :
  context_field Cases.studio_manifest "identity" = Some "IDENTITY.md"
  /\ context_field Cases.studio_manifest "tools" = None
  /\ assets Cases.studio_manifest = Some ["avatars/"].
Proof.
  destruct (generated_declarations_mirror_disk Cases.studio "/home/u/Studio One"
              {| opt_name := None; opt_description := None |}
              Cases.studio_manifest)
    as (Hroles & Hassets); [vm_compute; reflexivity|].
  apply Forall_cons in Hroles as [Hidentity Hroles].
  apply Forall_cons in Hroles as [Htools _].
  vm_compute in Hidentity, Htools, Hassets. vm_compute.
  split; [exact Hidentity|]. split; [exact Htools|exact Hassets].
Defined.

(** ** More on the importer *)

Section ImporterMore.

Variable P : Platform.

Lemma install_result (fs fs' : FS) (targetDir extractedPath agentDir : string)
    (options : Importer.ImportOptions) (m : PorterManifest)
    (r : Importer.ImportResult) :
  Importer.install P fs targetDir extractedPath agentDir options m
  = (fs', Returns r) ->
  r = {| Importer.success := true;
         Importer.agentPath := Some agentDir;
         Importer.missingEnv :=
           Importer.non_empty (Importer.missing_env P options m);
         Importer.installedSkills :=
           Importer.non_empty (Importer.external_skills options m);
         Importer.errors := None |}.
Proof.
  intros H. exact (proj2 (staging_removed_by_install P _ _ _ _ _ _ _ _ H)).
Qed.

(** The ways [importFrom] can end: before anything is written, or in the
    installation. *)
Lemma importFrom_cases (fs fs' : FS) (targetDir extractedPath : string)
    (options : Importer.ImportOptions) (o : outcome Importer.ImportResult) :
  Importer.importFrom P fs targetDir extractedPath options = (fs', o) ->
  (fs' = fs
   /\ ((exists err, o = Throws err
                    /\ (loadManifest P fs extractedPath = Throws err
                        \/ exists m, loadManifest P fs extractedPath
                                     = Returns (Some m)
                                     /\ valid (validateManifest m) = true
                                     /\ name m = None))
       \/ (exists e es, o = Returns (Importer.failure (e :: es)))))
  \/ (exists m n,
        loadManifest P fs extractedPath = Returns (Some m)
        /\ valid (validateManifest m) = true
        /\ name m = Some n
        /\ Importer.install P fs targetDir extractedPath
             (Path.join [targetDir; n]) options m = (fs', o)).
Proof.
  unfold Importer.importFrom.
  destruct (loadManifest P fs extractedPath) as [[m|]|err] eqn:Hload.
  - destruct (valid (validateManifest m)) eqn:Hvalid; cbn [negb].
    + destruct (name m) as [n|] eqn:Hname.
      * destruct (Fs.pathExists fs (Path.join [targetDir; n])
                  && negb (Importer.force options)).
        -- intros [= <- <-]. left. split; [reflexivity|]. right.
           eexists _, []. reflexivity.
        -- intros Hi. right. exists m, n. repeat split; assumption.
      * intros [= <- <-]. left. split; [reflexivity|]. left.
        eexists. split; [reflexivity|]. right. exists m. repeat split; assumption.
    + intros [= <- <-]. left. split; [reflexivity|]. right.
      destruct (errors (validateManifest m)) as [|e es] eqn:He.
      * apply valid_spec in He. congruence.
      * exists e, es. rewrite <- He. reflexivity.
  - intros [= <- <-]. left. split; [reflexivity|]. right.
    eexists _, []. reflexivity.
  - intros [= <- <-]. left. split; [reflexivity|]. left.
    eexists. split; [reflexivity|]. left. reflexivity.
Qed.

(** The ways [importAgent] can end. *)
Lemma importAgent_cases (fs fs' : FS) (source : string)
    (options : Importer.ImportOptions) (o : outcome Importer.ImportResult) :
  Importer.importAgent P fs source options = (fs', o) ->
  ((exists err, o = Throws err)
   \/ (exists e es, o = Returns (Importer.failure (e :: es))))
  \/ (exists fs1 extractedPath m n,
        Importer.resolveSource P fs source (Importer.targetDir fs options)
        = (fs1, Returns (Importer.Extracted extractedPath))
        /\ loadManifest P fs1 extractedPath = Returns (Some m)
        /\ valid (validateManifest m) = true
        /\ name m = Some n
        /\ Importer.install P fs1 (Importer.targetDir fs options) extractedPath
             (Path.join [Importer.targetDir fs options; n]) options m = (fs', o)).
Proof.
  unfold Importer.importAgent. cbv zeta.
  destruct (Importer.resolveSource P fs source (Importer.targetDir fs options))
    as [fs1 [[r|ep]|e]] eqn:Hres; intros H.
  - injection H as <- <-. left. right.
    unfold Importer.resolveSource, Importer.extract_failed in Hres.
    destruct (Js.endsWith source ".tar.gz" || Js.endsWith source ".tgz").
    + destruct (Fs.ensureDir fs _) as [fs0 [[]|e]]; [|discriminate Hres].
      destruct (Importer.tar_extract P _ source _) as [fs2 [[]|err]].
      * destruct (Fs.readdir fs2 _) as [[|x [|y l]]|message];
          try discriminate Hres;
          injection Hres as <- <-; eexists _, []; reflexivity.
      * injection Hres as <- <-. eexists _, []. reflexivity.
    + destruct (Fs.pathExists fs source); [discriminate|].
      injection Hres as <- <-. eexists _, []. reflexivity.
  - apply importFrom_cases in H as [[_ H]|(m & n & Hl & Hv & Hn & Hi)].
    + left. destruct H as [(err & -> & _)|H]; [left; eexists; reflexivity|].
      right. exact H.
    + right. exists fs1, ep, m, n. repeat split; assumption.
  - injection H as <- <-. left. left. eexists. reflexivity.
Qed.

(** X10. A result of importAgent is one of two shapes: a success carries
    the agent path [<target>/<name>] and no errors; a failure carries a
    non-empty list of errors and nothing else. *)
Theorem import_result_shape (fs fs' : FS) (source : string)
    (options : Importer.ImportOptions) (r : Importer.ImportResult) :
  Importer.importAgent P fs source options = (fs', Returns r) ->
  if Importer.success r
  then Importer.errors r = None
       /\ exists n, Importer.agentPath r
                    = Some (Path.join [Importer.targetDir fs options; n])
  else Importer.agentPath r = None
       /\ Importer.missingEnv r = None
       /\ Importer.installedSkills r = None
       /\ exists e es, Importer.errors r = Some (e :: es).
Proof.
  intros H.
  apply importAgent_cases in H
    as [[[err H]|(e & es & H)]|(fs1 & ep & m & n & _ & _ & _ & _ & Hi)].
  - discriminate H.
  - injection H as ->. cbn. repeat split. exists e, es. reflexivity.
  - apply install_result in Hi as ->. cbn.
    split; [reflexivity|]. exists n. reflexivity.
Qed.

(** X11. An import from a directory that does not succeed changes nothing
    on disk, whether it returns a failure or loading the manifest throws
    (the YAML parser, or reading porter.yaml). *)
Theorem failed_directory_import_changes_nothing (fs fs' : FS) (source : string)
    (options : Importer.ImportOptions) (o : outcome Importer.ImportResult) :
  Js.endsWith source ".tar.gz" || Js.endsWith source ".tgz" = false ->
  Importer.importAgent P fs source options = (fs', o) ->
  match o with
  | Returns r => Importer.success r = false
  | Throws err => loadManifest P fs source = Throws err
  end ->
  fs' = fs.
Proof.
  intros Hdir H Hfail. unfold Importer.importAgent, Importer.resolveSource in H.
  rewrite Hdir in H.
  destruct (Fs.pathExists fs source); [|injection H as <- _; reflexivity].
  destruct o as [r|err].
  - apply importFrom_cases in H as [[H _]|(m & n & _ & _ & _ & Hi)];
      [exact H|].
    apply install_result in Hi as ->. discriminate Hfail.
  - unfold Importer.importFrom in H. rewrite Hfail in H.
    injection H as <-. reflexivity.
Qed.

(** X12. When importAgent reports success, the staging directory
    [.porter-temp] under the target does not exist, and the report on the
    environment names exactly the required variables that are unset or
    empty (none when [skipEnv] is given). *)
Theorem successful_import_report (fs fs1 fs' : FS)
    (source extractedPath : string) (options : Importer.ImportOptions)
    (m : PorterManifest) (r : Importer.ImportResult) :
  Importer.resolveSource P fs source (Importer.targetDir fs options)
  = (fs1, Returns (Importer.Extracted extractedPath)) ->
  loadManifest P fs1 extractedPath = Returns (Some m) ->
  Importer.importAgent P fs source options = (fs', Returns r) ->
  Importer.success r = true ->
  Fs.pathExists fs' (Importer.tempDir (Importer.targetDir fs options)) = false
  /\ forall v,
       v ∈ default [] (Importer.missingEnv r)
       <-> Importer.skipEnv options = false
           /\ Js.truthy (process_env P v) = false
           /\ exists e l, env m = Some e /\ required e = Some l /\ v ∈ l.
Proof.
  intros Hres Hload H Hok.
  apply importAgent_cases in H
    as [[[err H]|(e & es & H)]|(fs2 & ep & m' & n & Hres' & Hl & _ & _ & Hi)].
  - discriminate H.
  - injection H as ->. discriminate Hok.
  - rewrite Hres in Hres'. injection Hres' as <- <-.
    rewrite Hload in Hl. injection Hl as <-.
    split; [exact (proj1 (staging_removed_by_install P _ _ _ _ _ _ _ _ Hi))|].
    apply install_result in Hi as ->. cbn [Importer.missingEnv].
    assert (Hd : forall l, default [] (Importer.non_empty l) = l)
      by (intros [|? ?]; reflexivity).
    rewrite Hd. unfold Importer.missing_env. intros v.
    destruct (env m) as [e|] eqn:He; cbn [mbind option_bind].
    + destruct (required e) as [l|] eqn:Hr.
      * destruct (Importer.skipEnv options).
        -- split; [inversion 1|intros [H _]; discriminate H].
        -- rewrite list_elem_of_filter. split.
           ++ intros [Hv Hin]. split; [reflexivity|]. split; [exact Hv|].
              exists e, l. auto.
           ++ intros (_ & Hv & e' & l' & [= <-] & Hr' & Hin).
              rewrite Hr in Hr'. injection Hr' as <-. split; assumption.
      * split; [inversion 1|].
        intros (_ & _ & e' & l' & [= <-] & Hr' & _). congruence.
    + split; [inversion 1|intros (_ & _ & e' & l' & He' & _); discriminate].
Qed.

(** X19. Nothing is installed unvalidated: when importAgent reports
    success, the source resolved to a directory whose porter.yaml loaded as
    a manifest the validator accepts, and the agent path is the target
    joined with that manifest's name. *)
Theorem success_needs_valid_manifest (fs fs' : FS) (source : string)
    (options : Importer.ImportOptions) (r : Importer.ImportResult) :
  Importer.importAgent P fs source options = (fs', Returns r) ->
  Importer.success r = true ->
  exists fs1 extractedPath m n,
    Importer.resolveSource P fs source (Importer.targetDir fs options)
    = (fs1, Returns (Importer.Extracted extractedPath))
    /\ loadManifest P fs1 extractedPath = Returns (Some m)
    /\ valid (validateManifest m) = true
    /\ name m = Some n
    /\ Importer.agentPath r = Some (Path.join [Importer.targetDir fs options; n]).
Proof.
  intros H Hok.
  apply importAgent_cases in H
    as [[[err H]|(e & es & H)]|(fs1 & ep & m & n & Hres & Hl & Hv & Hn & Hi)].
  - discriminate H.
  - injection H as ->. discriminate Hok.
  - apply install_result in Hi as ->.
    exists fs1, ep, m, n. repeat split; assumption.
Qed.

End ImporterMore.

Lemma import_result_shape_witness :
  Importer.errors Cases.keyed_report = None
  /\ exists n, Importer.agentPath Cases.keyed_report
               = Some (Path.join [Importer.targetDir Cases.drive
                                    (Examples.into_agents false); n]).
Proof.
  assert (H : (Importer.importAgent Cases.host Cases.drive "/src"
                 (Examples.into_agents false)).2 = Returns Cases.keyed_report)
    by (vm_compute; reflexivity).
  apply (import_result_shape Cases.host Cases.drive
           (Importer.importAgent Cases.host Cases.drive "/src"
              (Examples.into_agents false)).1
           "/src" (Examples.into_agents false) Cases.keyed_report).
  rewrite <- H. apply surjective_pairing.
Defined.

(** The refused import of [Examples.disk] leaves it as it was. *)
Lemma failed_directory_import_changes_nothing_witness :
  (Importer.importAgent Examples.node Examples.disk "/src"
     (Examples.into_agents false)).1 = Examples.disk.
Proof.
  apply (failed_directory_import_changes_nothing Examples.node Examples.disk _
           "/src" (Examples.into_agents false)
           (Importer.importAgent Examples.node Examples.disk "/src"
              (Examples.into_agents false)).2).
  - vm_compute. reflexivity.
  - apply surjective_pairing.
  - vm_compute. reflexivity.
Defined.

(** [HOME] is set and [MISSING_VAR_12345] is not: the report names the
    second alone. *)
Lemma successful_import_report_witness :
  let fs' := (Importer.importAgent Cases.host Cases.drive "/src"
                (Examples.into_agents false)).1 in
  Fs.pathExists fs' "/agents/.porter-temp" = false
  /\ forall v,
       v ∈ ["MISSING_VAR_12345"]
       <-> Js.truthy (process_env Cases.host v) = false
           /\ v ∈ ["HOME"; "MISSING_VAR_12345"].
Proof.
  intros fs'.
  assert (Hres :
    Importer.resolveSource Cases.host Cases.drive "/src"
      (Importer.targetDir Cases.drive (Examples.into_agents false))
    = (Cases.drive, Returns (Importer.Extracted "/src"))).
  { unfold Importer.resolveSource.
    replace (Js.endsWith "/src" ".tar.gz" || Js.endsWith "/src" ".tgz")
      with false by (vm_compute; reflexivity).
    replace (Fs.pathExists Cases.drive "/src")
      with true by (vm_compute; reflexivity).
    reflexivity. }
  assert (Hload : loadManifest Cases.host Cases.drive "/src"
                  = Returns (Some Cases.keyed))
    by (vm_compute; reflexivity).
  assert (H2 : (Importer.importAgent Cases.host Cases.drive "/src"
                  (Examples.into_agents false)).2 = Returns Cases.keyed_report)
    by (vm_compute; reflexivity).
  assert (Himp : Importer.importAgent Cases.host Cases.drive "/src"
                   (Examples.into_agents false) = (fs', Returns Cases.keyed_report)).
  { rewrite <- H2. apply surjective_pairing. }
  destruct (successful_import_report Cases.host Cases.drive Cases.drive fs'
              "/src" "/src" (Examples.into_agents false) Cases.keyed
              Cases.keyed_report Hres Hload Himp eq_refl) as [Hgone Henv].
  split.
  - replace "/agents/.porter-temp"
      with (Importer.tempDir (Importer.targetDir Cases.drive
                                (Examples.into_agents false)))
      by (vm_compute; reflexivity).
    exact Hgone.
  - intros v. split.
    + intros Hv. apply (Henv v) in Hv as (_ & Hunset & e & l & He & Hl & Hin).
      injection He as <-. injection Hl as <-. split; assumption.
    + intros [Hunset Hin]. apply (Henv v). split; [reflexivity|].
      split; [exact Hunset|]. eexists _, _. split; [reflexivity|].
      split; [reflexivity|exact Hin].
Defined.

Lemma success_needs_valid_manifest_witness :
  exists m n,
    valid (validateManifest m) = true
    /\ name m = Some n
    /\ Importer.agentPath Cases.keyed_report = Some (Path.join ["/agents"; n]).
Proof.
  assert (H : (Importer.importAgent Cases.host Cases.drive "/src"
                 (Examples.into_agents false)).2 = Returns Cases.keyed_report)
    by (vm_compute; reflexivity).
  destruct (success_needs_valid_manifest Cases.host Cases.drive
              (Importer.importAgent Cases.host Cases.drive "/src"
                 (Examples.into_agents false)).1
              "/src" (Examples.into_agents false) Cases.keyed_report)
    as (fs1 & ep & m & n & _ & _ & Hv & Hn & Ha).
  - rewrite <- H. apply surjective_pairing.
  - reflexivity.
  - exists m, n. split; [exact Hv|]. split; [exact Hn|exact Ha].
Defined.

(** ** Source locators *)

Section Locators.

Lemma path_and_version_some (p v : string) :
  Js.includes p "@" = false -> Js.includes v "@" = false ->
  Locator.path_and_version (p +:+ "@" +:+ v) = (p, Some v).
Proof.
  intros Hp Hv. unfold Locator.path_and_version.
  change ("@" +:+ v) with (String "@" v).
  rewrite (split_on_app "@" p v Hp), (split_on_plain "@" v Hv). reflexivity.
Qed.

Lemma path_and_version_none (p : string) :
  Js.includes p "@" = false -> Locator.path_and_version p = (p, None).
Proof.
  intros Hp. unfold Locator.path_and_version.
  rewrite (split_on_plain "@" p Hp). reflexivity.
Qed.

(** X13. parseSource splits a locator at its scheme and its first [@]:
    [github:<path>@<version>] and [clawdhub:<path>@<version>] give back the
    path and the version, the version being absent when there is no [@];
    a source with neither scheme is a local path, kept whole. *)
Theorem parseSource_spec (p v s : string) :
  Js.includes p "@" = false -> Js.includes v "@" = false ->
  Js.startsWith s "github:" = false -> Js.startsWith s "clawdhub:" = false ->
  Locator.parseSource ("github:" +:+ p +:+ "@" +:+ v)
  = {| Locator.type := Locator.github; Locator.path := p;
       Locator.version := Some v |}
  /\ Locator.parseSource ("github:" +:+ p)
     = {| Locator.type := Locator.github; Locator.path := p;
          Locator.version := None |}
  /\ Locator.parseSource ("clawdhub:" +:+ p +:+ "@" +:+ v)
     = {| Locator.type := Locator.clawdhub; Locator.path := p;
          Locator.version := Some v |}
  /\ Locator.parseSource ("clawdhub:" +:+ p)
     = {| Locator.type := Locator.clawdhub; Locator.path := p;
          Locator.version := None |}
  /\ Locator.parseSource s
     = {| Locator.type := Locator.local; Locator.path := s;
          Locator.version := None |}.
Proof.
  intros Hp Hv Hg Hc. unfold Locator.parseSource.
  rewrite !(startsWith_app "github:"), Hg, Hc.
  assert (Hcg : forall x, Js.startsWith ("clawdhub:" +:+ x) "github:" = false)
    by reflexivity.
  rewrite !Hcg, !(startsWith_app "clawdhub:").
  rewrite !(sliceFrom_app "github:"), !(sliceFrom_app "clawdhub:").
  rewrite (path_and_version_some p v Hp Hv), (path_and_version_none p Hp).
  repeat split.
Qed.

Lemma parseSource_spec_witness :
  Locator.parseSource "github:user/repo@v1.2.0"
  = {| Locator.type := Locator.github; Locator.path := "user/repo";
       Locator.version := Some "v1.2.0" |}
  /\ Locator.parseSource "./my-agent.tar.gz"
     = {| Locator.type := Locator.local; Locator.path := "./my-agent.tar.gz";
          Locator.version := None |}.
Proof.
  pose proof (parseSource_spec "user/repo" "v1.2.0" "./my-agent.tar.gz"
                eq_refl eq_refl eq_refl eq_refl) as (H1 & _ & _ & _ & H5).
  split; [exact H1|exact H5].
Defined.

(** X14. parseGitHubSource reads [github:<owner>/<repo>] with an optional
    [@<version>]: for an owner and a repository that are not empty and hold
    no [/] or [@], and a version without [@], it returns the three parts,
    an empty version counting as none. *)
Theorem parseGitHubSource_reads (o r v : string) :
  o <> "" -> r <> "" ->
  Js.includes o "/" = false -> Js.includes r "/" = false ->
  Js.includes o "@" = false -> Js.includes r "@" = false ->
  Js.includes v "@" = false ->
  GitHub.parseGitHubSource ("github:" +:+ o +:+ "/" +:+ r +:+ "@" +:+ v)
  = Some {| GitHub.owner := o; GitHub.repo := r;
            GitHub.version := if Js.truthy (Some v) then Some v else None |}
  /\ GitHub.parseGitHubSource ("github:" +:+ o +:+ "/" +:+ r)
     = Some {| GitHub.owner := o; GitHub.repo := r; GitHub.version := None |}.
Proof.
  intros Ho Hr Ho1 Hr1 Ho2 Hr2 Hv. unfold GitHub.parseGitHubSource.
  rewrite !(startsWith_app "github:"). cbn [negb].
  rewrite !(sliceFrom_app "github:").
  assert (Hor : Js.includes (o +:+ "/" +:+ r) "@" = false).
  { rewrite !includes_char_app, Ho2, Hr2. reflexivity. }
  assert (Hsplit : Js.split_on "/" (o +:+ "/" +:+ r) = [o; r]).
  { change ("/" +:+ r) with (String "/" r).
    rewrite (split_on_app "/" o r Ho1), (split_on_plain "/" r Hr1). reflexivity. }
  assert (Hto : Js.truthy (Some o) = true) by (destruct o; [contradiction|reflexivity]).
  assert (Htr : Js.truthy (Some r) = true) by (destruct r; [contradiction|reflexivity]).
  split.
  - replace (o +:+ "/" +:+ r +:+ "@" +:+ v) with ((o +:+ "/" +:+ r) +:+ "@" +:+ v)
      by (rewrite !string_app_assoc; reflexivity).
    rewrite (path_and_version_some _ v Hor Hv), Hsplit, Hto, Htr. reflexivity.
  - rewrite (path_and_version_none _ Hor), Hsplit, Hto, Htr. reflexivity.
Qed.

Lemma parseGitHubSource_reads_witness :
  GitHub.parseGitHubSource "github:owner/repo@v1.2.0"
  = Some {| GitHub.owner := "owner"; GitHub.repo := "repo";
            GitHub.version := Some "v1.2.0" |}
  /\ GitHub.parseGitHubSource "github:owner/repo"
     = Some {| GitHub.owner := "owner"; GitHub.repo := "repo";
               GitHub.version := None |}.
Proof.
  exact (parseGitHubSource_reads "owner" "repo" "v1.2.0"
           ltac:(discriminate) ltac:(discriminate)
           eq_refl eq_refl eq_refl eq_refl eq_refl).
Defined.

(** X15. Whatever parseGitHubSource accepts is well formed: the source
    starts with [github:], owner and repository are not empty and contain
    neither [/] nor [@], and the version, when there is one, is not empty
    and has no [@]; parseSource classifies the same source as [github]. *)
Theorem parseGitHubSource_sound (source : string) (g : GitHub.GitHubSource) :
  GitHub.parseGitHubSource source = Some g ->
  Js.startsWith source "github:" = true
  /\ Locator.type (Locator.parseSource source) = Locator.github
  /\ GitHub.owner g <> "" /\ GitHub.repo g <> ""
  /\ Forall (fun part => Js.includes part "/" = false
                         /\ Js.includes part "@" = false)
       [GitHub.owner g; GitHub.repo g]
  /\ forall v, GitHub.version g = Some v -> v <> "" /\ Js.includes v "@" = false.
Proof.
  unfold GitHub.parseGitHubSource, Locator.parseSource.
  destruct (Js.startsWith source "github:") eqn:Hs; cbn [negb]; [|discriminate].
  unfold Locator.path_and_version.
  pose proof (split_on_parts "@" (Js.sliceFrom 7 source)) as Hparts.
  destruct (Js.split_on "@" (Js.sliceFrom 7 source)) as [|p [|v rest]] eqn:E.
  - cbn [Js.split_on]. discriminate.
  - pose proof (split_on_parts "/" p) as Hsl.
    destruct (Js.split_on "/" p) as [|o [|r l]]; try discriminate.
    destruct o as [|co o]; [discriminate|]. destruct r as [|cr r]; [discriminate|].
    cbn [Js.truthy negb orb]. intros [= <-]. cbn.
    destruct (Hparts p) as [Hp _]; [left|].
    destruct (Hsl (String co o)) as [Ho1 Ho2]; [left|].
    destruct (Hsl (String cr r)) as [Hr1 Hr2]; [right; left|].
    split; [reflexivity|]. split; [reflexivity|].
    split; [discriminate|]. split; [discriminate|].
    split; [|discriminate].
    repeat constructor; auto.
  - pose proof (split_on_parts "/" p) as Hsl.
    destruct (Js.split_on "/" p) as [|o [|r l]]; try discriminate.
    destruct o as [|co o]; [discriminate|]. destruct r as [|cr r]; [discriminate|].
    cbn [Js.truthy negb orb]. intros [= <-]. cbn [GitHub.owner GitHub.repo GitHub.version Locator.type].
    destruct (Hparts p) as [Hp _]; [left|].
    destruct (Hparts v) as [Hv _]; [right; left|].
    destruct (Hsl (String co o)) as [Ho1 Ho2]; [left|].
    destruct (Hsl (String cr r)) as [Hr1 Hr2]; [right; left|].
    split; [reflexivity|]. split; [reflexivity|].
    split; [discriminate|]. split; [discriminate|].
    split; [repeat constructor; auto|].
    intros w. destruct v as [|cv v]; cbn [Js.truthy]; [discriminate|].
    intros [= <-]. split; [discriminate|exact Hv].
Qed.

Lemma parseGitHubSource_sound_witness :
  Js.startsWith "github:owner/repo@v1.2.0" "github:" = true
  /\ Locator.type (Locator.parseSource "github:owner/repo@v1.2.0") = Locator.github.
Proof.
  destruct (parseGitHubSource_sound "github:owner/repo@v1.2.0"
              {| GitHub.owner := "owner"; GitHub.repo := "repo";
                 GitHub.version := Some "v1.2.0" |} eq_refl)
    as (H1 & H2 & _).
  split; [exact H1|exact H2].
Defined.

End Locators.

(** ** The GitHub importer *)

Section GitHubImport.

Variables (P : Platform) (exec : GitHub.Shell).

Lemma fetch_error_nonempty (source : GitHub.GitHubSource) (message : string) :
  exists c s, GitHub.fetch_error source message = String c s.
Proof.
  unfold GitHub.fetch_error.
  destruct (_ || _); [eexists _, _; reflexivity|].
  destruct (_ || _); eexists _, _; reflexivity.
Qed.

Lemma key_child_nonroot (fs : FS) (a name : string) :
  Path.plain name = true -> Fs.key fs (Path.join [a; name]) <> [].
Proof.
  intros Hname. rewrite (key_join fs a [name])
    by (constructor; [exact Hname|constructor]).
  intros E. apply app_eq_nil in E as [_ E]. discriminate E.
Qed.

(** X16. fetchGitHubRepo reports success exactly when the staging
    directory can be made and the clone command returns; the path it then
    gives is [<target>/.porter-github-temp/<repo>] and the clone's [.git]
    directory is gone.  When making the directory or the command throws,
    the result carries one error, chosen by the message, and no path. *)
Theorem fetch_result (fs fs' : FS) (source : GitHub.GitHubSource)
    (targetDir : string) (res : GitHub.FetchResult) :
  GitHub.fetchGitHubRepo exec fs source targetDir = (fs', res) ->
  let staged :=
    Fs.ensureDir (Fs.remove fs (GitHub.githubTemp targetDir))
      (Path.dirname (GitHub.cloneDir source targetDir)) in
  let failed message :=
    GitHub.success res = false
    /\ GitHub.path res = None
    /\ GitHub.error res = Some (GitHub.fetch_error source message) in
  match staged.2 with
  | Throws message => failed message
  | Returns _ =>
      match (exec staged.1 (GitHub.clone_command source targetDir)).2 with
      | Returns _ =>
          GitHub.success res = true
          /\ GitHub.path res
             = Some (Path.join [targetDir; ".porter-github-temp";
                                GitHub.repo source])
          /\ GitHub.error res = None
          /\ Fs.pathExists fs'
               (Path.join [GitHub.cloneDir source targetDir; ".git"]) = false
      | Throws message => failed message
      end
  end.
Proof.
  unfold GitHub.fetchGitHubRepo. cbv zeta.
  destruct (Fs.ensureDir _ _) as [fs0 [u0|msg0]]; cbn [fst snd].
  - destruct (exec fs0 (GitHub.clone_command source targetDir)) as [fs1 [u|msg]];
      intros [= <- <-]; cbn [snd].
    + repeat split. apply remove_gone, key_child_nonroot. reflexivity.
    + repeat split.
  - intros [= <- <-]. repeat split.
Qed.

(** X17. An import from GitHub never throws, and once the repository was
    fetched the staging directory [.porter-github-temp] is removed before
    importAgent returns, whether the import succeeded, failed or threw;
    when the fetch fails, the result is the failure with the fetch error. *)
Theorem github_import_cleans_up (fs : FS) (source : string)
    (options : Importer.ImportOptions) (g : GitHub.GitHubSource) :
  GitHub.parseGitHubSource source = Some g ->
  let targetDir := Importer.targetDir fs options in
  let staged :=
    Fs.ensureDir (Fs.remove fs (GitHub.githubTemp targetDir))
      (Path.dirname (GitHub.cloneDir g targetDir)) in
  exists r,
    (GitHub.importAgent P exec fs source options).2 = Returns r
    /\ match staged.2 with
       | Throws message => r = Importer.failure [GitHub.fetch_error g message]
       | Returns _ =>
           match (exec staged.1 (GitHub.clone_command g targetDir)).2 with
           | Returns _ =>
               Fs.pathExists (GitHub.importAgent P exec fs source options).1
                 (GitHub.githubTemp targetDir) = false
           | Throws message =>
               r = Importer.failure [GitHub.fetch_error g message]
           end
       end.
Proof.
  intros Hparse. cbv zeta.
  unfold GitHub.importAgent. rewrite Hparse.
  unfold GitHub.importFromGitHub, GitHub.fetchGitHubRepo.
  destruct (Fs.ensureDir _ _) as [fs0 [u0|msg0]]; cbn [fst snd].
  - destruct (exec fs0 (GitHub.clone_command g (Importer.targetDir fs options)))
      as [fs1 [u|msg]]; cbn [snd GitHub.success GitHub.path GitHub.error negb orb
                             GitHub.fetched GitHub.not_fetched].
    + assert (Ht : Js.truthy
                     (Some (GitHub.cloneDir g (Importer.targetDir fs options)))
                   = true).
      { pose proof (join_nonempty [Importer.targetDir fs options;
                                   ".porter-github-temp"; GitHub.repo g]) as Hne.
        unfold GitHub.cloneDir. destruct (Path.join _); [contradiction|reflexivity]. }
      rewrite Ht. cbn [negb].
      destruct (GitHub.importFromLocal P _ _ _ options) as [fs2 [r|message]];
        eexists; (split; [reflexivity|]); cbn [fst];
        unfold GitHub.cleanupGitHubTemp, GitHub.githubTemp;
        apply remove_gone, key_child_nonroot; reflexivity.
    + destruct (fetch_error_nonempty g msg) as (c & s & ->).
      eexists. split; reflexivity.
  - cbn [GitHub.success GitHub.path GitHub.error negb orb GitHub.not_fetched].
    destruct (fetch_error_nonempty g msg0) as (c & s & ->).
    eexists. split; reflexivity.
Qed.

End GitHubImport.

(** The clone of [acme/aria] at [v1.0.0]: fetched without its [.git]. *)
Lemma fetch_result_witness :
  let res := (GitHub.fetchGitHubRepo Cases.git Cases.drive Cases.aria "/agents").2 in
  let fs' := (GitHub.fetchGitHubRepo Cases.git Cases.drive Cases.aria "/agents").1 in
  GitHub.success res = true
  /\ GitHub.path res = Some "/agents/.porter-github-temp/aria"
  /\ GitHub.error res = None
  /\ Fs.pathExists fs' "/agents/.porter-github-temp/aria/.git" = false.
Proof.
  intros res fs'.
  pose proof (fetch_result Cases.git Cases.drive fs' Cases.aria "/agents" res
                (surjective_pairing _)) as H.
  vm_compute in H. vm_compute. exact H.
Defined.

(** The same repository imported: the agent is installed and the staging
    directory is gone. *)
Lemma github_import_cleans_up_witness :
  exists r,
    (GitHub.importAgent Cases.host Cases.git Cases.drive
       "github:acme/aria@v1.0.0" (Examples.into_agents false)).2 = Returns r
    /\ Importer.success r = true
    /\ Fs.pathExists
         (GitHub.importAgent Cases.host Cases.git Cases.drive
            "github:acme/aria@v1.0.0" (Examples.into_agents false)).1
         "/agents/.porter-github-temp" = false.
Proof.
  destruct (github_import_cleans_up Cases.host Cases.git Cases.drive
              "github:acme/aria@v1.0.0" (Examples.into_agents false) Cases.aria)
    as (r & Hr & Hgone); [vm_compute; reflexivity|].
  exists r. split; [exact Hr|].
  vm_compute in Hr. injection Hr as <-.
  split; [reflexivity|].
  vm_compute in Hgone. vm_compute. exact Hgone.
Defined.

(** ** Accepted paths and the workspace *)

Section Containment.

(** X18. A path the validator accepts cannot leave the workspace when it
    is joined to it: the segments that [path.join] keeps for
    [<workspace>/<path>] are those it keeps for the workspace, followed by
    segments none of which is [..], [.] or empty. *)
Theorem accepted_path_stays_inside (ws p : string) :
  ws <> "" -> p <> "" -> unsafe_path p = false ->
  Path.join [ws; p] = Path.normalize (ws +:+ "/" +:+ p)
  /\ exists rest,
       kept_segments (ws +:+ "/" +:+ p) = kept_segments ws ++ rest
       /\ Forall (fun seg => seg <> ".." /\ seg <> "." /\ seg <> "") rest.
Proof.
  intros Hws Hp Hsafe. split.
  - unfold Path.join.
    rewrite filter_cons_True by exact Hws.
    rewrite filter_cons_True by exact Hp. reflexivity.
  - apply orb_false_iff in Hsafe as [_ Hdots].
    assert (Hno : ".." ∉ Path.segments p).
    { intros Hin. apply split_on_substring in Hin. congruence. }
    exists (filter (fun s => s <> "" /\ s <> ".") (Path.segments p)). split.
    + unfold kept_segments.
      assert (Hstart : Js.startsWith (ws +:+ "/" +:+ p) "/" = Js.startsWith ws "/").
      { destruct ws as [|c ws]; [contradiction|]. unfold Js.startsWith.
        change (String c ws +:+ "/" +:+ p) with (String c (ws +:+ "/" +:+ p)).
        cbn [String.prefix]. destruct (ascii_dec "/" c); [|reflexivity].
        destruct ws; reflexivity. }
      rewrite Hstart. unfold Path.segments.
      change ("/" +:+ p) with (String "/" p).
      rewrite split_on_concat, normalize_segments_app.
      rewrite (normalize_segments_plain _ _ Hno), rev_involutive. reflexivity.
    + apply Forall_forall. intros seg [[H1 H2] Hin]%list_elem_of_filter.
      split; [intros ->; contradiction|]. split; assumption.
Qed.

Lemma accepted_path_stays_inside_witness :
  Path.join ["/w/agent"; "skills/./my-skill//SKILL.md"]
  = "/w/agent/skills/my-skill/SKILL.md"
  /\ exists rest,
       kept_segments ("/w/agent" +:+ "/" +:+ "skills/./my-skill//SKILL.md")
       = kept_segments "/w/agent" ++ rest
       /\ Forall (fun seg => seg <> ".." /\ seg <> "." /\ seg <> "") rest.
Proof.
  destruct (accepted_path_stays_inside "/w/agent" "skills/./my-skill//SKILL.md"
              ltac:(discriminate) ltac:(discriminate) eq_refl) as [Hjoin Hrest].
  split; [rewrite Hjoin; vm_compute; reflexivity|exact Hrest].
Defined.

End Containment.
